(** * MyEventsTodayEmail: the batching and delivery pipeline, embedded in Rocq

    A shallow embedding of the Apps Script program that reads recipients from
    a configuration sheet, fetches each calendar once per date window, and
    mails every recipient a summary.

    Conventions of the embedding.
    - A JavaScript string is the sequence of its code units; the embedding
      covers code units below 256 (Rocq's [ascii]). The few pictographs in
      message texts are kept as their UTF-8 bytes; no operation of the
      program inspects them.
    - The cells of the configuration sheet are strings, the empty string for
      an empty cell.
    - Counters are natural numbers and time values integers. The random
      number and the backoff delay are rationals: the rounding of
      floating-point arithmetic is not modelled.
    - A [Date] is its time value, the number of milliseconds since the epoch,
      as a [Z].  Local time is reached through the two conversions of the
      engine, [LocalTime] and [UTC], which depend on the script's time zone.
    - A JavaScript object used as a map is an association list in insertion
      order, the order [Object.keys] enumerates string keys in.  Every key of
      the program contains a ['|'] or an ['@'], so none is an array index or
      an inherited property name.
    - External services (CalendarApp, GmailApp, MailApp, SpreadsheetApp, the
      clock, [Math.random], [Utilities.sleep]) are an environment that answers
      each call from the history of the calls made so far.
    - [try]/[catch] is an outcome type threaded through a state monad.

    The file has two parts: the program and the vocabulary of its
    properties, then the properties and their proofs. *)

From Stdlib Require Import List String Ascii ZArith QArith Bool Lia Arith.
From Stdlib Require Import DecimalString DecimalZ Permutation.
From Stdlib Require Import Lqa.
From Stdlib Require Import Sorted.
Import ListNotations.

Open Scope string_scope.
Open Scope Q_scope.
Open Scope Z_scope.
Open Scope nat_scope.
Open Scope list_scope.

(* ================================================================= *)
(** ** Strings *)

Module Str.

Definition code (c : ascii) : nat := nat_of_ascii c.

Definition inRange (lo hi : nat) (c : ascii) : bool :=
  (lo <=? code c) && (code c <=? hi).

Definition isUpper (c : ascii) : bool := inRange 65 90 c.
Definition isLower (c : ascii) : bool := inRange 97 122 c.
Definition isDigit (c : ascii) : bool := inRange 48 57 c.
Definition isLetter (c : ascii) : bool := isUpper c || isLower c.
Definition isAlnum (c : ascii) : bool := isLetter c || isDigit c.

(** [String.prototype.toLowerCase] on one code unit below 256: the ASCII
    capitals and the Latin-1 capitals U+00C0..U+00DE (not U+00D7). *)
Definition toLowerChar (c : ascii) : ascii :=
  if isUpper c || (inRange 192 222 c && negb (code c =? 215))
  then ascii_of_nat (code c + 32) else c.

(** [toUpperCase] on one code unit; the program applies it to the first
    letter of a range description only. *)
Definition toUpperChar (c : ascii) : ascii :=
  if isLower c || (inRange 224 254 c && negb (code c =? 247))
  then ascii_of_nat (code c - 32) else c.

Fixpoint map (f : ascii -> ascii) (s : string) : string :=
  match s with
  | EmptyString => EmptyString
  | String c r => String (f c) (map f r)
  end.

Definition toLowerCase (s : string) : string := map toLowerChar s.

(** White space removed by [trim]: TAB, LF, VT, FF, CR, SP and NBSP. *)
Definition isSpace (c : ascii) : bool :=
  inRange 9 13 c || (code c =? 32) || (code c =? 160).

Fixpoint trimStart (s : string) : string :=
  match s with
  | EmptyString => EmptyString
  | String c r => if isSpace c then trimStart r else s
  end.

Fixpoint trimEnd (s : string) : string :=
  match s with
  | EmptyString => EmptyString
  | String c r =>
      match trimEnd r with
      | EmptyString => if isSpace c then EmptyString else String c EmptyString
      | r' => String c r'
      end
  end.

Definition trim (s : string) : string := trimEnd (trimStart s).

(** [s.split(sep)] for a one-character separator; the result is never
    empty: [''.split(',')] is [['']]. *)
Fixpoint split (sep : ascii) (s : string) : list string :=
  match s with
  | EmptyString => [EmptyString]
  | String c r =>
      if Ascii.eqb c sep then EmptyString :: split sep r
      else match split sep r with
           | [] => [String c EmptyString]
           | piece :: rest => String c piece :: rest
           end
  end.

Definition startsWith (p s : string) : bool := String.prefix p s.

(** [s.includes(needle)] *)
Fixpoint includes (needle s : string) : bool :=
  String.prefix needle s ||
  match s with
  | EmptyString => false
  | String _ r => includes needle r
  end.

(** [s.substring(1)] and [s.slice(1)] *)
Definition substring1 (s : string) : string :=
  match s with
  | EmptyString => EmptyString
  | String _ r => r
  end.

(** [s.charAt(0).toUpperCase() + s.slice(1)] *)
Definition capitalize (s : string) : string :=
  match s with
  | EmptyString => EmptyString
  | String c r => String (toUpperChar c) r
  end.

(** A string is truthy when it is not empty. *)
Definition truthy (s : string) : bool :=
  match s with EmptyString => false | _ => true end.

(** [array.join(sep)] *)
Fixpoint join (sep : string) (l : list string) : string :=
  match l with
  | [] => EmptyString
  | [x] => x
  | x :: r => (x ++ sep ++ join sep r)%string
  end.

(** [array.indexOf(x)]: the first position holding [x], [-1] when none. *)
Fixpoint indexOfFrom (i : Z) (x : string) (l : list string) : Z :=
  match l with
  | [] => (-1)%Z
  | y :: r => if String.eqb x y then i else indexOfFrom (i + 1)%Z x r
  end.

Definition indexOf (x : string) (l : list string) : Z := indexOfFrom 0%Z x l.

(** An integer inside a template literal: its decimal digits, with a
    leading minus sign when negative. *)
Definition ofZ (z : Z) : string := NilEmpty.string_of_int (Z.to_int z).

Definition ofNat (n : nat) : string := ofZ (Z.of_nat n).

(** The double quote, and a value between double quotes. *)
Definition dquote : string := String (ascii_of_nat 34) EmptyString.

Definition quoted (s : string) : string := (dquote ++ s ++ dquote)%string.

(** The line feed, written [\n] in the source. *)
Definition nl : string := String (ascii_of_nat 10) EmptyString.

End Str.

(* ================================================================= *)
(** ** Regular expressions

    The patterns of the program use classes, sequence, option, star and
    bounded repetition only, so [RegExp.prototype.test] is membership in a
    regular language, decided here with derivatives. *)

Module RegExp.

Inductive regex : Type :=
| Void : regex
| Eps : regex
| Class : (ascii -> bool) -> regex
| Seq : regex -> regex -> regex
| Alt : regex -> regex -> regex
| Star : regex -> regex.

Fixpoint nullable (r : regex) : bool :=
  match r with
  | Void => false
  | Eps => true
  | Class _ => false
  | Seq a b => nullable a && nullable b
  | Alt a b => nullable a || nullable b
  | Star _ => true
  end.

Fixpoint deriv (c : ascii) (r : regex) : regex :=
  match r with
  | Void => Void
  | Eps => Void
  | Class p => if p c then Eps else Void
  | Seq a b =>
      if nullable a then Alt (Seq (deriv c a) b) (deriv c b)
      else Seq (deriv c a) b
  | Alt a b => Alt (deriv c a) (deriv c b)
  | Star a => Seq (deriv c a) (Star a)
  end.

(** The whole string is in the language: a pattern between [^] and [$]. *)
Fixpoint matches (r : regex) (s : string) : bool :=
  match s with
  | EmptyString => nullable r
  | String c s' => matches (deriv c r) s'
  end.

Definition anyChar : regex := Class (fun _ => true).

(** A pattern without anchors matches when some substring is in the
    language. *)
Definition search (r : regex) (s : string) : bool :=
  matches (Seq (Star anyChar) (Seq r (Star anyChar))) s.

Definition opt (r : regex) : regex := Alt Eps r.

Definition chr (c : ascii) : regex := Class (Ascii.eqb c).

(** A literal character under the [i] flag. The literals of the program
    are lower-case ASCII letters and spaces, which only their own ASCII
    capital canonicalises to. *)
Definition chrI (c : ascii) : regex :=
  Class (fun x => Ascii.eqb (if Str.isUpper x then Str.toLowerChar x else x) c).

Fixpoint lit (s : string) : regex :=
  match s with
  | EmptyString => Eps
  | String c r => Seq (chr c) (lit r)
  end.

Fixpoint litI (s : string) : regex :=
  match s with
  | EmptyString => Eps
  | String c r => Seq (chrI c) (litI r)
  end.

(** [.] without the [s] flag: any code unit but LF and CR. *)
Definition dot : regex :=
  Class (fun x => negb ((Str.code x =? 10) || (Str.code x =? 13))).

(** The language of a pattern, as a relation on lists of characters. *)
Inductive lang : regex -> list ascii -> Prop :=
| LEps : lang Eps []
| LClass : forall p c, p c = true -> lang (Class p) [c]
| LSeq : forall a b u v, lang a u -> lang b v -> lang (Seq a b) (u ++ v)
| LAltL : forall a b u, lang a u -> lang (Alt a b) u
| LAltR : forall a b u, lang b u -> lang (Alt a b) u
| LStarNil : forall a, lang (Star a) []
| LStarCons : forall a c u v,
    lang a (c :: u) -> lang (Star a) v -> lang (Star a) ((c :: u) ++ v).

End RegExp.

(* ================================================================= *)
(** ** Row validation *)

Module Validation.
Import RegExp.

Record ValidationResult : Type := mkValidation {
  isValid : bool;
  errors : list string
}.

Definition alnum : regex := Class Str.isAlnum.

Definition localChar (c : ascii) : bool :=
  Str.isAlnum c || Ascii.eqb c "." || Ascii.eqb c "_" || Ascii.eqb c "+"
  || Ascii.eqb c "-".

Definition domainChar (c : ascii) : bool :=
  Str.isAlnum c || Ascii.eqb c "." || Ascii.eqb c "-".

(** [/^[a-zA-Z0-9]([a-zA-Z0-9._+-]*[a-zA-Z0-9])?@[a-zA-Z0-9]([a-zA-Z0-9.-]*[a-zA-Z0-9])?\.[a-zA-Z]{2,}$/] *)
Definition emailRegex : regex :=
  Seq alnum
  (Seq (opt (Seq (Star (Class localChar)) alnum))
  (Seq (chr "@")
  (Seq alnum
  (Seq (opt (Seq (Star (Class domainChar)) alnum))
  (Seq (chr ".")
  (Seq (Class Str.isLetter)
  (Seq (Class Str.isLetter)
       (Star (Class Str.isLetter))))))))).

(** [/\.\./] *)
Definition consecutiveDots : regex := lit "..".

Definition validateRecipientData (email calendarId : string) : ValidationResult :=
  let hasConsecutiveDots := search consecutiveDots email in
  let errors1 :=
    if negb (Str.truthy email) || negb (matches emailRegex email)
       || hasConsecutiveDots
    then [("Invalid email format: " ++ Str.quoted email)%string]
    else [] in
  let errors2 :=
    if negb (Str.truthy calendarId) || negb (matches emailRegex calendarId)
    then [("Invalid calendar ID format: " ++ Str.quoted calendarId)%string]
    else [] in
  let errors := errors1 ++ errors2 in
  mkValidation (match errors with [] => true | _ => false end) errors.

End Validation.

(* ================================================================= *)
(** ** Dates

    The time-value arithmetic of the language: [Day], [TimeWithinDay],
    [WeekDay], [DateFromTime] and [MakeDay], and the [Date] methods the
    program calls, over the time zone of the script. *)

Module JsDate.
Local Open Scope Z_scope.

Definition msPerDay : Z := 86400000.

Definition Day (t : Z) : Z := t / msPerDay.

Definition TimeWithinDay (t : Z) : Z := t mod msPerDay.

(** Day 0 (1970-01-01) is a Thursday; 0 is Sunday. *)
Definition WeekDay (t : Z) : Z := (Day t + 4) mod 7.

(** The day of the month (1..31) of a day number, in the proleptic
    Gregorian calendar, by the era / day-of-era decomposition. *)
Definition DateFromDay (d : Z) : Z :=
  let z := d + 719468 in
  let era := z / 146097 in
  let doe := z - era * 146097 in
  let yoe := (doe - doe / 1460 + doe / 36524 - doe / 146096) / 365 in
  let doy := doe - (365 * yoe + yoe / 4 - yoe / 100) in
  let mp := (5 * doy + 2) / 153 in
  doy - (153 * mp + 2) / 5 + 1.

Definition DateFromTime (t : Z) : Z := DateFromDay (Day t).

(** [MakeDay(YearFromTime(t), MonthFromTime(t), dt)]: the day number of
    the first day of the month of [t], plus [dt - 1]; [dt] may lie outside
    the month. *)
Definition MakeDayInMonthOf (t dt : Z) : Z :=
  (Day t - (DateFromTime t - 1)) + (dt - 1).

Definition MakeDate (day time : Z) : Z := day * msPerDay + time.

(** The time zone of the script: the two conversions between a time value
    and local time. *)
Record TimeZone : Type := mkTimeZone {
  LocalTime : Z -> Z;
  UTC : Z -> Z
}.

(** A zone that keeps one offset from UTC all year. *)
Definition fixedOffset (offset : Z) : TimeZone :=
  mkTimeZone (fun t => t + offset) (fun t => t - offset).

Section Methods.
Variable tz : TimeZone.

Definition getDay (t : Z) : Z := WeekDay (LocalTime tz t).

Definition getDate (t : Z) : Z := DateFromTime (LocalTime tz t).

(** [d.setHours(0, 0, 0, 0)] *)
Definition setHoursZero (t : Z) : Z :=
  UTC tz (MakeDate (Day (LocalTime tz t)) 0).

(** [d.setDate(dt)] *)
Definition setDate (t dt : Z) : Z :=
  let lt := LocalTime tz t in
  UTC tz (MakeDate (MakeDayInMonthOf lt dt) (TimeWithinDay lt)).
End Methods.

End JsDate.

(* ================================================================= *)
(** ** Data model *)

Record Preferences : Type := mkPreferences {
  timezone : option string;
  use24Hour : option bool;
  dateRange : option string;
  frequency : option string;
  filterKeywords : option (list string)
}.

Definition noPreferences : Preferences :=
  mkPreferences None None None None None.

Record Recipient : Type := mkRecipient {
  email : string;
  calendarId : string;
  preferences : Preferences;
  isMultiCalendar : bool;
  calendarIndex : Z;
  totalCalendars : nat
}.

Record DateRange : Type := mkDateRange {
  startDate : Z;
  endDate : Z;
  description : string
}.

Record CalendarEvent : Type := mkEvent {
  getTitle : string;
  getDescription : string;
  getLocation : string;
  getStartTime : Z;
  getEndTime : Z
}.

(** The calendar object handed out by [CalendarApp]. *)
Record Calendar : Type := mkCalendar {
  getId : string;
  getName : string
}.

Record Error : Type := mkError { message : string }.

Record EmailData : Type := mkEmail {
  to : string;
  subject : string;
  body : string;
  options : option string   (* [{htmlBody: ...}], absent on an error notice *)
}.

Record EmailContent : Type := mkContent {
  htmlBody : string;
  textBody : string
}.

(** The value of a guarded computation: returned, or thrown. *)
Inductive outcome (A : Type) : Type :=
| Returned : A -> outcome A
| Thrown : Error -> outcome A.

Arguments Returned {A} _.
Arguments Thrown {A} _.

(* ================================================================= *)
(** ** Objects used as maps *)

Module Obj.
Section Map.
Context {V : Type}.

Definition t : Type := list (string * V).

Fixpoint get (k : string) (o : t) : option V :=
  match o with
  | [] => None
  | (k', v) :: r => if String.eqb k k' then Some v else get k r
  end.

(** [o[k] = v]: replaces the value in place, or adds the key last. *)
Fixpoint set (k : string) (v : V) (o : t) : t :=
  match o with
  | [] => [(k, v)]
  | (k', v') :: r =>
      if String.eqb k k' then (k', v) :: r else (k', v') :: set k v r
  end.

Definition keys (o : t) : list string := List.map fst o.

Definition has (k : string) (o : t) : bool :=
  match get k o with Some _ => true | None => false end.
End Map.
Arguments t V : clear implicits.
End Obj.

(* ================================================================= *)
(** ** The environment and the state of a run *)

(** One interaction with the outside world. [Logger.log] is not recorded:
    nothing reads the log. *)
Inductive Call : Type :=
| NewDate : Call
| MathRandom : Call
| UtilitiesSleep : Q -> Call
| GetCalendarById : string -> Call
| GetEvents : Calendar -> Z -> Z -> Call
| GmailSendEmail : string -> string -> string -> option string -> Call
| MailSendEmail : string -> string -> string -> Call
| OpenConfigSheet : string -> string -> Call.

(** What the outside world answers, given the calls made before (latest
    first). The template renderer formats times through [Intl] and is kept
    abstract. *)
Record Env : Type := mkEnv {
  zone : JsDate.TimeZone;
  clock : list Call -> Z;
  random : list Call -> Q;
  calendarById : list Call -> string -> outcome (option Calendar);
  eventsOf : list Call -> Calendar -> Z -> Z -> outcome (list CalendarEvent);
  gmailSend : list Call -> string -> string -> string -> option string -> outcome unit;
  mailSend : list Call -> string -> string -> string -> outcome unit;
  configGet : string -> option string;
  openSheet : list Call -> string -> string -> outcome (option (list (list string)));
  activeUserEmail : string;
  generateEmailBody :
    string -> string -> list CalendarEvent -> Preferences -> DateRange -> EmailContent
}.

Record ErrorRecord : Type := mkErrorRecord {
  errMessage : string;
  errContext : string;
  errTimestamp : Z
}.

Record Metrics : Type := mkMetrics {
  calendarsProcessed : nat;
  eventsFound : nat;
  emailsSent : nat;
  emailsFailed : nat;
  retriesPerformed : nat;
  errors : list ErrorRecord
}.

Record ExecutionTracker : Type := mkTracker {
  startTime : Z;
  metrics : Metrics
}.

Record State : Type := mkState {
  history : list Call;
  tracker : ExecutionTracker
}.

(* ================================================================= *)
(** ** Computations that may throw *)

Definition M (St A : Type) : Type := St -> outcome A * St.

Definition ret {St A} (a : A) : M St A := fun s => (Returned a, s).

Definition throw {St A} (e : Error) : M St A := fun s => (Thrown e, s).

Definition bind {St A B} (m : M St A) (k : A -> M St B) : M St B :=
  fun s =>
    match m s with
    | (Returned a, s') => k a s'
    | (Thrown e, s') => (Thrown e, s')
    end.

Definition tryCatch {St A} (m : M St A) (handler : Error -> M St A) : M St A :=
  fun s =>
    match m s with
    | (Returned a, s') => (Returned a, s')
    | (Thrown e, s') => handler e s'
    end.

Declare Scope js_scope.
Delimit Scope js_scope with js.
Notation "x <- m ;; k" := (bind m (fun x => k))
  (at level 61, m at next level, right associativity) : js_scope.
Notation "m ;; k" := (bind m (fun _ => k))
  (at level 61, right associativity) : js_scope.
Open Scope js_scope.

(** [array.forEach(f)] *)
Fixpoint forEach {St A} (l : list A) (f : A -> M St unit) : M St unit :=
  match l with
  | [] => ret tt
  | x :: r => f x ;; forEach r f
  end.

(** [array.filter(p)] with a predicate that has effects. *)
Fixpoint filterM {St A} (p : A -> M St bool) (l : list A) : M St (list A) :=
  match l with
  | [] => ret []
  | x :: r =>
      keep <- p x ;;
      rest <- filterM p r ;;
      ret (if keep then x :: rest else rest)
  end.

(** A loop that carries a local variable. *)
Fixpoint foldM {St A B} (f : B -> A -> M St B) (l : list A) (b : B) : M St B :=
  match l with
  | [] => ret b
  | x :: r => b' <- f b x ;; foldM f r b'
  end.

(* ================================================================= *)
(** ** Configuration rows *)

(** [x === a || x === b || ...], the labels of one [switch] arm. *)
Definition oneOf (x : string) (labels : list string) : bool :=
  existsb (String.eqb x) labels.

Module Configuration.
Import Validation.

(** [row[index]]; [undefined] outside the row, and for the optional
    columns [null] when the header is missing ([index] is [-1]). *)
Definition cell (row : list string) (index : Z) : option string :=
  if (index <? 0)%Z then None else nth_error row (Z.to_nat index).

(** [!x] for a cell. *)
Definition missing (c : option string) : bool :=
  match c with
  | Some s => negb (Str.truthy s)
  | None => true
  end.

Record Columns : Type := mkColumns {
  emailColumnIndex : Z;
  calendarIdColumnIndex : Z;
  timezoneColumnIndex : Z;
  timeFormatColumnIndex : Z;
  dateRangeColumnIndex : Z;
  frequencyColumnIndex : Z;
  statusColumnIndex : Z;
  filterKeywordsColumnIndex : Z
}.

Definition columnsOf (headers : list string) : Columns :=
  mkColumns (Str.indexOf "Recipient Email" headers)
            (Str.indexOf "Calendar ID" headers)
            (Str.indexOf "Timezone" headers)
            (Str.indexOf "Time Format" headers)
            (Str.indexOf "Date Range" headers)
            (Str.indexOf "Frequency" headers)
            (Str.indexOf "Status" headers)
            (Str.indexOf "Filter Keywords" headers).

(** [c && c.trim()] then the value built from the trimmed cell. *)
Definition whenFilled {A} (c : option string) (f : string -> option A) : option A :=
  match c with
  | Some s => if Str.truthy s && Str.truthy (Str.trim s) then f s else None
  | None => None
  end.

Definition parsePreferences (cols : Columns) (row : list string) : Preferences :=
  let timezone := cell row (timezoneColumnIndex cols) in
  let timeFormat := cell row (timeFormatColumnIndex cols) in
  let dateRange := cell row (dateRangeColumnIndex cols) in
  let frequency := cell row (frequencyColumnIndex cols) in
  let filterKeywords := cell row (filterKeywordsColumnIndex cols) in
  mkPreferences
    (whenFilled timezone (fun s => Some (Str.trim s)))
    (match timeFormat with
     | Some s =>
         if Str.truthy s && String.eqb (Str.toLowerCase (Str.trim s)) "24h"
         then Some true else None
     | None => None
     end)
    (whenFilled dateRange (fun s => Some (Str.toLowerCase (Str.trim s))))
    (whenFilled frequency (fun s => Some (Str.toLowerCase (Str.trim s))))
    (whenFilled filterKeywords (fun s =>
       Some (filter Str.truthy
               (map (fun keyword => Str.toLowerCase (Str.trim keyword))
                    (Str.split "," s))))).

(** [calendarId.split(',').map(id => id.trim()).filter(id => id)] *)
Definition splitCalendarIds (calendarId : string) : list string :=
  filter Str.truthy (map Str.trim (Str.split "," calendarId)).

(** The recipient records one row contributes: the body of the loop over
    the data rows, a skipped row contributing none. *)
Definition parseRow (cols : Columns) (row : list string) : list Recipient :=
  let recipientEmail := cell row (emailColumnIndex cols) in
  let calendarId := cell row (calendarIdColumnIndex cols) in
  match recipientEmail, calendarId with
  | Some recipientEmail, Some calendarId =>
      if negb (Str.truthy recipientEmail) || negb (Str.truthy calendarId)
      then []
      else if negb (isValid (validateRecipientData recipientEmail calendarId))
      then []
      else
        let status := cell row (statusColumnIndex cols) in
        if match status with
           | Some s =>
               Str.truthy s
               && String.eqb (Str.toLowerCase (Str.trim s)) "disabled"
           | None => false
           end
        then []
        else
          let preferences := parsePreferences cols row in
          let calendarIds := splitCalendarIds calendarId in
          flat_map
            (fun singleCalendarId =>
               if isValid (validateRecipientData recipientEmail singleCalendarId)
               then [mkRecipient recipientEmail singleCalendarId preferences
                       (1 <? List.length calendarIds)
                       (Str.indexOf singleCalendarId calendarIds)
                       (List.length calendarIds)]
               else [])
            calendarIds
  | _, _ => []
  end.

(** The loop over [configData[1..]]. *)
Definition parseRecipients (configData : list (list string)) : list Recipient :=
  match configData with
  | [] => []
  | headers :: rows => flat_map (parseRow (columnsOf headers)) rows
  end.

Record Config : Type := mkConfig {
  recipients : list Recipient;
  spreadsheetId : string;
  sheetName : string
}.

End Configuration.

(* ================================================================= *)
(** ** Keyword filter, frequency gate and date ranges *)

Definition filterEventsByKeywords
    (events : list CalendarEvent) (filterKeywords : option (list string))
  : list CalendarEvent :=
  match filterKeywords with
  | None => events
  | Some [] => events
  | Some filterKeywords =>
      filter
        (fun event =>
           let title := Str.toLowerCase (getTitle event) in
           let description := Str.toLowerCase (getDescription event) in
           let location := Str.toLowerCase (getLocation event) in
           let eventText := (title ++ " " ++ description ++ " " ++ location)%string in
           let includeKeywords :=
             map Str.toLowerCase
                 (filter (fun k => negb (Str.startsWith "-" k)) filterKeywords) in
           let excludeKeywords :=
             map (fun k => Str.toLowerCase (Str.substring1 k))
                 (filter (fun k => Str.startsWith "-" k) filterKeywords) in
           let includesMatch :=
             (List.length includeKeywords =? 0)
             || forallb (fun keyword => Str.includes keyword eventText) includeKeywords in
           let excludesMatch :=
             forallb (fun keyword => negb (Str.includes keyword eventText)) excludeKeywords in
           includesMatch && excludesMatch)
        events
  end.

Section Dates.
Variable tz : JsDate.TimeZone.
Local Open Scope Z_scope.

(** [shouldSendEmail(frequency)], with [today] the value of [new Date()]. *)
Definition shouldSendEmail (today : Z) (frequency : string) : bool :=
  let dayOfWeek := JsDate.getDay tz today in
  if oneOf frequency ["daily"] then true
  else if oneOf frequency ["weekdays only"; "weekdays"]
  then (1 <=? dayOfWeek) && (dayOfWeek <=? 5)
  else if oneOf frequency ["mondays only"; "monday"] then dayOfWeek =? 1
  else if oneOf frequency ["wednesdays only"; "wednesday"] then dayOfWeek =? 3
  else if oneOf frequency ["fridays only"; "friday"] then dayOfWeek =? 5
  else if oneOf frequency ["weekends only"; "weekends"]
  then (dayOfWeek =? 0) || (dayOfWeek =? 6)
  else if oneOf frequency ["never"; "disabled"] then false
  else true.

(** [calculateDateRange(dateRange)], with [now] the value of [new Date()]. *)
Definition calculateDateRange (now : Z) (dateRange : string) : DateRange :=
  let today := JsDate.setHoursZero tz now in
  let startDate := today in
  let endDate := today in
  if oneOf dateRange ["today"] then
    let endDate := JsDate.setDate tz endDate (JsDate.getDate tz startDate + 1) in
    mkDateRange startDate endDate "today"
  else if oneOf dateRange ["tomorrow"] then
    let startDate := JsDate.setDate tz startDate (JsDate.getDate tz today + 1) in
    let endDate := JsDate.setDate tz endDate (JsDate.getDate tz today + 2) in
    mkDateRange startDate endDate "tomorrow"
  else if oneOf dateRange ["next 3 days"; "next3days"] then
    let endDate := JsDate.setDate tz endDate (JsDate.getDate tz startDate + 3) in
    mkDateRange startDate endDate "the next 3 days"
  else if oneOf dateRange ["this week"; "thisweek"] then
    let dayOfWeek := JsDate.getDay tz today in
    let startDate := JsDate.setDate tz startDate (JsDate.getDate tz today - dayOfWeek) in
    let endDate := JsDate.setDate tz endDate (JsDate.getDate tz startDate + 7) in
    mkDateRange startDate endDate "this week"
  else if oneOf dateRange ["next week"; "nextweek"] then
    let nextWeekStart :=
      JsDate.setDate tz today (JsDate.getDate tz today + (7 - JsDate.getDay tz today)) in
    let startDate := nextWeekStart in
    let endDate := JsDate.setDate tz nextWeekStart (JsDate.getDate tz nextWeekStart + 7) in
    mkDateRange startDate endDate "next week"
  else if oneOf dateRange ["weekdays only"; "weekdays"] then
    let endDate := JsDate.setDate tz endDate (JsDate.getDate tz startDate + 1) in
    mkDateRange startDate endDate "today (weekdays only)"
  else
    let endDate := JsDate.setDate tz endDate (JsDate.getDate tz startDate + 1) in
    mkDateRange startDate endDate "today".

End Dates.

(** [s || fallback] for an optional preference. *)
Definition orDefault (pref : option string) (fallback : string) : string :=
  match pref with
  | Some s => if Str.truthy s then s else fallback
  | None => fallback
  end.

(** The group key, [`${calendarId}|${start.getTime()}|${end.getTime()}`]. *)
Definition groupKeyOf (calendarId : string) (range : DateRange) : string :=
  (calendarId ++ "|" ++ Str.ofZ (startDate range) ++ "|" ++ Str.ofZ (endDate range))%string.

(* ================================================================= *)
(** ** Retry with backoff *)

Module Retry.
Import RegExp.

(** [a.*b] under the [i] flag. *)
Definition gapI (a b : string) : regex := Seq (litI a) (Seq (Star dot) (litI b)).

Definition retryablePatterns : list regex :=
  [ litI "service is currently unavailable";
    litI "temporary failure";
    litI "rate limit";
    gapI "quota" "exceeded";
    litI "timeout";
    gapI "network" "error";
    gapI "internal" "error";
    gapI "service" "error" ].

Definition isRetryableError (error : Error) : bool :=
  existsb (fun pattern => search pattern (message error)) retryablePatterns.

(** [baseDelay * Math.pow(2, attempt) + Math.random() * 1000] *)
Definition backoffDelay (baseDelay : Z) (attempt : nat) (rnd : Q) : Q :=
  (inject_Z (baseDelay * 2 ^ Z.of_nat attempt) + rnd * 1000)%Q.

Section Loop.
Context {St A : Type}.
Variable sleep : Q -> M St unit.       (* [Utilities.sleep] *)
Variable mathRandom : M St Q.          (* [Math.random] *)
Variable operation : M St A.
Variable maxRetries : nat.
Variable baseDelay : Z.

(** The [for] loop from [attempt] on, [fuel] iterations being left
    before [attempt <= maxRetries] fails. The [throw lastError] after the
    loop is kept; it is not reached, the last iteration always returns
    or throws. *)
Fixpoint retryLoop (fuel attempt : nat) (lastError : Error) : M St A :=
  match fuel with
  | O => throw lastError
  | S fuel' =>
      tryCatch operation
        (fun error =>
           let isRetryable := isRetryableError error in
           if negb isRetryable || (attempt =? maxRetries)
           then throw error
           else
             rnd <- mathRandom ;;
             sleep (backoffDelay baseDelay attempt rnd) ;;
             retryLoop fuel' (S attempt) error)
  end.

Definition retryOperationWith : M St A :=
  retryLoop (S maxRetries) 0 (mkError "undefined").
End Loop.

End Retry.

(* ================================================================= *)
(** ** The services, as computations *)

Section Services.
Variable env : Env.

Definition record (c : Call) (s : State) : State :=
  mkState (c :: history s) (tracker s).

Definition newDate : M State Z :=
  fun s => (Returned (clock env (history s)), record NewDate s).

Definition mathRandom : M State Q :=
  fun s => (Returned (random env (history s)), record MathRandom s).

Definition sleep (ms : Q) : M State unit :=
  fun s => (Returned tt, record (UtilitiesSleep ms) s).

Definition getCalendarById (id : string) : M State (option Calendar) :=
  fun s => (calendarById env (history s) id, record (GetCalendarById id) s).

Definition getEvents (calendar : Calendar) (startDate endDate : Z)
  : M State (list CalendarEvent) :=
  fun s => (eventsOf env (history s) calendar startDate endDate,
            record (GetEvents calendar startDate endDate) s).

Definition gmailSendEmail (to subject body : string) (options : option string)
  : M State unit :=
  fun s => (gmailSend env (history s) to subject body options,
            record (GmailSendEmail to subject body options) s).

Definition mailSendEmail (to subject body : string) : M State unit :=
  fun s => (mailSend env (history s) to subject body,
            record (MailSendEmail to subject body) s).

Definition openConfigSheet (spreadsheetId sheetName : string)
  : M State (option (list (list string))) :=
  fun s => (openSheet env (history s) spreadsheetId sheetName,
            record (OpenConfigSheet spreadsheetId sheetName) s).

(** [retryOperation(operation)], with [maxRetries = 3] and
    [baseDelay = 1000] when the caller gives none. *)
Definition retryOperation {A} (operation : M State A)
    (maxRetries : nat) (baseDelay : Z) : M State A :=
  Retry.retryOperationWith sleep mathRandom operation maxRetries baseDelay.

Definition defaultMaxRetries : nat := 3.
Definition defaultBaseDelay : Z := 1000%Z.

(* --------------------------------------------------------------- *)
(** *** ExecutionTracker *)

Definition updateMetrics (f : Metrics -> Metrics) : M State unit :=
  fun s =>
    (Returned tt,
     mkState (history s) (mkTracker (startTime (tracker s)) (f (metrics (tracker s))))).

Definition newExecutionTracker : M State unit :=
  fun s =>
    (Returned tt,
     mkState (NewDate :: history s)
             (mkTracker (clock env (history s)) (mkMetrics 0 0 0 0 0 []))).

Definition incrementCalendars : M State unit :=
  updateMetrics (fun m =>
    mkMetrics (S (calendarsProcessed m)) (eventsFound m) (emailsSent m)
              (emailsFailed m) (retriesPerformed m) (errors m)).

Definition addEvents (count : nat) : M State unit :=
  updateMetrics (fun m =>
    mkMetrics (calendarsProcessed m) (eventsFound m + count) (emailsSent m)
              (emailsFailed m) (retriesPerformed m) (errors m)).

Definition incrementEmailsSent : M State unit :=
  updateMetrics (fun m =>
    mkMetrics (calendarsProcessed m) (eventsFound m) (S (emailsSent m))
              (emailsFailed m) (retriesPerformed m) (errors m)).

Definition incrementEmailsFailed : M State unit :=
  updateMetrics (fun m =>
    mkMetrics (calendarsProcessed m) (eventsFound m) (emailsSent m)
              (S (emailsFailed m)) (retriesPerformed m) (errors m)).

Definition incrementRetries : M State unit :=
  updateMetrics (fun m =>
    mkMetrics (calendarsProcessed m) (eventsFound m) (emailsSent m)
              (emailsFailed m) (S (retriesPerformed m)) (errors m)).

Definition addError (error : Error) (context : string) : M State unit :=
  timestamp <- newDate ;;
  updateMetrics (fun m =>
    mkMetrics (calendarsProcessed m) (eventsFound m) (emailsSent m)
              (emailsFailed m) (retriesPerformed m)
              (errors m ++ [mkErrorRecord (message error) context timestamp])).

End Services.

(* ================================================================= *)
(** ** Batched calendar fetch *)

Record CalendarGroup : Type := mkGroup {
  groupCalendarId : string;
  groupDateRange : DateRange;
  groupRecipients : list Recipient
}.

(** The two shapes of a cache entry: [{calendar, events, success: true,
    error: null}] and [{calendar: null, events: [], success: false, error}]. *)
Inductive FetchResult : Type :=
| Fetched : Calendar -> list CalendarEvent -> FetchResult
| Failed : string -> FetchResult.

Record CacheEntry : Type := mkEntry {
  fetched : FetchResult;
  entryRecipients : list Recipient;
  entryDateRange : DateRange
}.

Definition success (data : CacheEntry) : bool :=
  match fetched data with Fetched _ _ => true | Failed _ => false end.

Definition events (data : CacheEntry) : list CalendarEvent :=
  match fetched data with Fetched _ evs => evs | Failed _ => [] end.

Section Fetch.
Variable env : Env.

(** The frequency gate of one recipient; [shouldSendEmail] reads the
    clock. *)
Definition isActive (recipient : Recipient) : M State bool :=
  today <- newDate env ;;
  ret (shouldSendEmail (zone env) today
         (orDefault (frequency (preferences recipient)) "daily")).

(** The body of [activeRecipients.forEach]: one recipient joins its
    group, which is created empty when the key is new. [addToGroup] reads
    the clock for the date range; [joinGroup] is the rest of the body. *)
Definition joinGroup (calendarGroups : Obj.t CalendarGroup)
    (recipient : Recipient) (dateRange : DateRange) : Obj.t CalendarGroup :=
  let groupKey := groupKeyOf (calendarId recipient) dateRange in
  let calendarGroups :=
    if Obj.has groupKey calendarGroups then calendarGroups
    else Obj.set groupKey (mkGroup (calendarId recipient) dateRange []) calendarGroups in
  match Obj.get groupKey calendarGroups with
  | Some group =>
      Obj.set groupKey
        (mkGroup (groupCalendarId group) (groupDateRange group)
                 (groupRecipients group ++ [recipient]))
        calendarGroups
  | None => calendarGroups
  end.

Definition addToGroup (calendarGroups : Obj.t CalendarGroup) (recipient : Recipient)
  : M State (Obj.t CalendarGroup) :=
  now <- newDate env ;;
  let dateRange :=
    calculateDateRange (zone env) now
      (orDefault (dateRange (preferences recipient)) "today") in
  ret (joinGroup calendarGroups recipient dateRange).

Definition lookupCalendar (calendarId : string) : M State Calendar :=
  calendar <- getCalendarById env calendarId ;;
  match calendar with
  | None =>
      throw (mkError ("Calendar with ID " ++ Str.quoted calendarId ++ " not found."))
  | Some calendar => ret calendar
  end.

(** The body of the loop over the group keys: one group is fetched, and
    its cache entry built on either path. *)
Definition fetchGroup (group : CalendarGroup) : M State CacheEntry :=
  let calendarId := groupCalendarId group in
  let dateRange := groupDateRange group in
  let recipientsForGroup := groupRecipients group in
  tryCatch
    (targetCalendar <-
       retryOperation env (lookupCalendar calendarId)
         defaultMaxRetries defaultBaseDelay ;;
     events <-
       retryOperation env
         (getEvents env targetCalendar (startDate dateRange) (endDate dateRange))
         defaultMaxRetries defaultBaseDelay ;;
     incrementCalendars ;;
     addEvents (List.length events) ;;
     ret (mkEntry (Fetched targetCalendar events) recipientsForGroup dateRange))
    (fun e =>
       addError env e ("Accessing calendar " ++ calendarId) ;;
       ret (mkEntry (Failed (message e)) recipientsForGroup dateRange)).

Definition fetchCalendarDataBatched (recipients : list Recipient)
  : M State (Obj.t CacheEntry) :=
  activeRecipients <- filterM isActive recipients ;;
  calendarGroups <- foldM addToGroup activeRecipients [] ;;
  foldM (fun calendarCache '(groupKey, group) =>
           data <- fetchGroup group ;;
           ret (Obj.set groupKey data calendarCache))
        calendarGroups [].

End Fetch.

(* ================================================================= *)
(** ** Reconciliation per recipient and the delivery queue *)

Record CalendarSource : Type := mkSource {
  sourceCalendar : Calendar;
  sourceEvents : list CalendarEvent
}.

Record SourceError : Type := mkSourceError {
  failedCalendarId : string;
  failedError : string
}.

Record RecipientData : Type := mkRecipientData {
  recipient : Recipient;
  calendars : list CalendarSource;
  recipientDateRange : DateRange;
  hasErrors : bool;
  recipientErrors : list SourceError
}.

(** The body of [data.recipients.forEach] inside the loop over the cache. *)
Definition reconcileOne (data : CacheEntry)
    (recipientData : Obj.t RecipientData) (recipient : Recipient)
  : Obj.t RecipientData :=
  let recipientData :=
    if Obj.has (email recipient) recipientData then recipientData
    else Obj.set (email recipient)
           (mkRecipientData recipient [] (entryDateRange data) false [])
           recipientData in
  match Obj.get (email recipient) recipientData with
  | Some (mkRecipientData representative calendars dateRange hasErrors errors) =>
      match fetched data with
      | Fetched calendar events =>
          Obj.set (email recipient)
            (mkRecipientData representative
               (calendars ++ [mkSource calendar events])
               dateRange hasErrors errors)
            recipientData
      | Failed error =>
          Obj.set (email recipient)
            (mkRecipientData representative calendars dateRange true
               (errors ++ [mkSourceError "Unknown" error]))
            recipientData
      end
  | None => recipientData
  end.

Definition reconcile (calendarData : Obj.t CacheEntry) : Obj.t RecipientData :=
  fold_left
    (fun recipientData '(_, data) =>
       fold_left (reconcileOne data) (entryRecipients data) recipientData)
    calendarData [].

(** [allEvents.sort((a, b) => a.getStartTime() - b.getStartTime())]: a
    stable sort on the start time. *)
Fixpoint insertByStart (e : CalendarEvent) (l : list CalendarEvent) : list CalendarEvent :=
  match l with
  | [] => [e]
  | x :: r =>
      if (getStartTime e <=? getStartTime x)%Z then e :: l
      else x :: insertByStart e r
  end.

Definition sortByStart (l : list CalendarEvent) : list CalendarEvent :=
  fold_right insertByStart [] l.

(** [recipientEmail.split('@')[0]] *)
Definition localPart (recipientEmail : string) : string :=
  hd EmptyString (Str.split "@" recipientEmail).

Definition errorNoticeSubject : string :=
  "Calendar Summary Error: Calendars Not Found".

Definition errorNotice (recipientEmail : string) (data : RecipientData) : EmailData :=
  mkEmail recipientEmail errorNoticeSubject
    ("Hello " ++ localPart recipientEmail ++ "," ++ Str.nl ++ Str.nl
     ++ "Your daily calendar summary could not be generated because calendars were not found or accessible. Please check the Calendar IDs in the configuration sheet."
     ++ Str.nl ++ Str.nl ++ "Errors: "
     ++ Str.join ", " (map failedError (recipientErrors data)))%string
    None.

(** The events handed to the template for a recipient with a successful
    source: merged, filtered when keywords are set, sorted. *)
Definition summaryEvents (data : RecipientData) : list CalendarEvent :=
  let allEvents := flat_map sourceEvents (calendars data) in
  let allEvents :=
    match filterKeywords (preferences (recipient data)) with
    | Some keywords => filterEventsByKeywords allEvents (Some keywords)
    | None => allEvents
    end in
  sortByStart allEvents.

Definition calendarDisplayName (data : RecipientData) : string :=
  let calendarNames := map (fun calData => getName (sourceCalendar calData)) (calendars data) in
  if 1 <? List.length calendarNames
  then (Str.ofNat (List.length calendarNames) ++ " calendars")%string
  else nth 0 calendarNames "undefined".

Definition summarySubject (data : RecipientData) : string :=
  let d := description (recipientDateRange data) in
  if String.eqb d "today" then "Your Events for the Day"
  else ("Your Events " ++ Str.capitalize d)%string.

Section Queue.
Variable env : Env.

Definition summaryEmail (recipientEmail : string) (data : RecipientData) : EmailData :=
  let emailContent :=
    generateEmailBody env recipientEmail (calendarDisplayName data)
      (summaryEvents data) (preferences (recipient data))
      (recipientDateRange data) in
  mkEmail recipientEmail (summarySubject data) (textBody emailContent)
          (Some (htmlBody emailContent)).

(** The body of the loop over the recipient emails: the message queued
    for one recipient. *)
Definition emailFor (recipientEmail : string) (data : RecipientData) : EmailData :=
  if hasErrors data && (List.length (calendars data) =? 0)
  then errorNotice recipientEmail data
  else summaryEmail recipientEmail data.

Definition buildEmailQueue (recipientData : Obj.t RecipientData) : list EmailData :=
  map (fun '(recipientEmail, data) => emailFor recipientEmail data) recipientData.

End Queue.

(* ================================================================= *)
(** ** Batched sending *)

Definition BATCH_SIZE : nat := 10.
Definition DELAY_BETWEEN_BATCHES : Q := inject_Z 100.

(** [emailQueue.slice(i, j)] *)
Definition slice {A} (i j : nat) (l : list A) : list A :=
  firstn (j - i) (skipn i l).

Section Send.
Variable env : Env.

(** The primary channel, wrapped in the retry policy. *)
Definition sendPrimary (emailData : EmailData) : M State unit :=
  retryOperation env
    (gmailSendEmail env (to emailData) (subject emailData) (body emailData)
                    (options emailData))
    defaultMaxRetries defaultBaseDelay.

(** The fallback channel, wrapped in the retry policy. *)
Definition sendFallback (emailData : EmailData) : M State unit :=
  retryOperation env
    (mailSendEmail env (to emailData) (subject emailData) (body emailData))
    defaultMaxRetries defaultBaseDelay.

(** The body of [batch.forEach]. *)
Definition sendOne (emailData : EmailData) : M State unit :=
  tryCatch
    (sendPrimary emailData ;;
     incrementEmailsSent)
    (fun e =>
       addError env e ("Sending email to " ++ to emailData) ;;
       tryCatch
         (sendFallback emailData ;;
          incrementEmailsSent)
         (fun fallbackError =>
            incrementEmailsFailed ;;
            addError env fallbackError ("Fallback email to " ++ to emailData))).

(** The loop [for (i = 0; i < emailQueue.length; i += BATCH_SIZE)] from
    [i] on; [fuel] bounds the number of batches left. *)
Fixpoint batchLoop (fuel i : nat) (emailQueue : list EmailData) : M State unit :=
  match fuel with
  | O => ret tt
  | S fuel' =>
      if i <? List.length emailQueue then
        let batch := slice i (i + BATCH_SIZE) emailQueue in
        forEach batch sendOne ;;
        (if i + BATCH_SIZE <? List.length emailQueue
         then sleep DELAY_BETWEEN_BATCHES else ret tt) ;;
        batchLoop fuel' (i + BATCH_SIZE) emailQueue
      else ret tt
  end.

(** No queue has more batches than messages. *)
Definition sendEmailsBatched (emailQueue : list EmailData) : M State unit :=
  batchLoop (List.length emailQueue) 0 emailQueue.

End Send.

(* ================================================================= *)
(** ** The run summary and the report to the administrator *)

Record QuotaUsage : Type := mkQuota {
  calendarReads : nat;
  emailSends : nat;
  sheetReads : nat;
  totalApiCalls : nat
}.

Record ExecutionSummary : Type := mkSummary {
  executionTimeMs : Z;
  executionTimeFormatted : string;
  summaryMetrics : Metrics;
  quotaUsage : QuotaUsage;
  summarySuccess : bool
}.

Definition getQuotaUsageEstimate (m : Metrics) : QuotaUsage :=
  let calendarReads := calendarsProcessed m * 2 in
  let emailSends := emailsSent m + emailsFailed m in
  let sheetReads := 1 in
  mkQuota calendarReads emailSends sheetReads (calendarReads + emailSends + sheetReads).

Definition formatDuration (ms : Z) : string :=
  let seconds := (ms / 1000)%Z in
  let minutes := (seconds / 60)%Z in
  if (0 <? minutes)%Z
  then (Str.ofZ minutes ++ "m " ++ Str.ofZ (Z.rem seconds 60) ++ "s")%string
  else (Str.ofZ seconds ++ "s")%string.

Section Summary.
Variable env : Env.

Definition getExecutionTime : M State Z :=
  now <- newDate env ;;
  fun s => (Returned (now - startTime (tracker s))%Z, s).

Definition getSummary : M State ExecutionSummary :=
  executionTime <- getExecutionTime ;;
  fun s =>
    let m := metrics (tracker s) in
    (Returned
       (mkSummary executionTime (formatDuration executionTime) m
          (getQuotaUsageEstimate m)
          ((List.length (errors m) =? 0) && (emailsFailed m =? 0))),
     s).
End Summary.

(** The numbered error lines of the report; [index] counts from 0. *)
Fixpoint errorLines (index : nat) (errs : list ErrorRecord) : string :=
  match errs with
  | [] => EmptyString
  | error :: rest =>
      (Str.ofNat (index + 1) ++ ". [" ++ errContext error ++ "] "
       ++ errMessage error ++ Str.nl ++ errorLines (S index) rest)%string
  end.

Definition generateAdminSummary (summary : ExecutionSummary) : string :=
  let metrics := summaryMetrics summary in
  let quota := quotaUsage summary in
  (("Daily Calendar Summary Script - Execution Report" ++ Str.nl ++ Str.nl)
   ++ ("Status: " ++ (if summarySuccess summary then "✅ SUCCESS" else "❌ FAILED") ++ Str.nl)
   ++ ("Execution Time: " ++ executionTimeFormatted summary ++ Str.nl ++ Str.nl)
   ++ ("📊 METRICS:" ++ Str.nl)
   ++ ("• Calendars Processed: " ++ Str.ofNat (calendarsProcessed metrics) ++ Str.nl)
   ++ ("• Events Found: " ++ Str.ofNat (eventsFound metrics) ++ Str.nl)
   ++ ("• Emails Sent: " ++ Str.ofNat (emailsSent metrics) ++ Str.nl)
   ++ ("• Email Failures: " ++ Str.ofNat (emailsFailed metrics) ++ Str.nl)
   ++ ("• Retries Performed: " ++ Str.ofNat (retriesPerformed metrics) ++ Str.nl ++ Str.nl)
   ++ ("🔧 QUOTA USAGE ESTIMATE:" ++ Str.nl)
   ++ ("• Calendar API Reads: " ++ Str.ofNat (calendarReads quota) ++ Str.nl)
   ++ ("• Email Sends: " ++ Str.ofNat (emailSends quota) ++ Str.nl)
   ++ ("• Sheet Reads: " ++ Str.ofNat (sheetReads quota) ++ Str.nl)
   ++ ("• Total API Calls: " ++ Str.ofNat (totalApiCalls quota) ++ Str.nl ++ Str.nl)
   ++ (if (0 <? List.length (errors metrics))%nat
       then "🚨 ERRORS (" ++ Str.ofNat (List.length (errors metrics)) ++ "):" ++ Str.nl
            ++ errorLines 0 (errors metrics) ++ Str.nl
       else "")
   ++ (Str.nl ++ "🤖 Generated by Calendar Summary Script"))%string.

(* ================================================================= *)
(** ** Loading the configuration and the main function *)

Section Main.
Variable env : Env.
Import Configuration.

Definition spreadsheetIdMissing : Error :=
  mkError
    (Str.nl ++ "❌ SPREADSHEET_ID not configured!" ++ Str.nl ++ Str.nl
     ++ "Please run the setup process:" ++ Str.nl
     ++ "1. Execute runInitialSetup() function once" ++ Str.nl
     ++ "2. Or manually set the property: Config.set('SPREADSHEET_ID', 'your-sheet-id')"
     ++ Str.nl ++ Str.nl
     ++ "For security reasons, the spreadsheet ID should never be hardcoded in the source code."
     ++ Str.nl)%string.

Definition sheetNotFound (sheetName spreadsheetId : string) : Error :=
  mkError
    ("Configuration sheet named " ++ Str.quoted sheetName
     ++ " not found in spreadsheet ID " ++ Str.quoted spreadsheetId ++ ".")%string.

(** [loadConfiguration()]: the configuration, [null] after a reported
    failure, or a thrown error when no spreadsheet id is configured. *)
Definition loadConfiguration : M State (option Config) :=
  let SPREADSHEET_ID := orDefault (configGet env "SPREADSHEET_ID") "" in
  let CONFIG_SHEET_NAME :=
    match configGet env "CONFIG_SHEET_NAME" with
    | Some name => name
    | None => "Config"
    end in
  if negb (Str.truthy SPREADSHEET_ID) then throw spreadsheetIdMissing
  else
    configSheet <-
      tryCatch
        (sheet <- openConfigSheet env SPREADSHEET_ID CONFIG_SHEET_NAME ;;
         match sheet with
         | None => throw (sheetNotFound CONFIG_SHEET_NAME SPREADSHEET_ID)
         | Some configData => ret (Some configData)
         end)
        (fun e =>
           mailSendEmail env (activeUserEmail env)
             "CRITICAL: Calendar Summary Script Failure"
             ("The daily calendar summary script failed to access its configuration sheet. Please check the SPREADSHEET_ID and CONFIG_SHEET_NAME in the script. Error: "
              ++ message e) ;;
           ret None) ;;
    match configSheet with
    | None => ret None
    | Some configData =>
        if List.length configData <? 2 then ret None
        else
          let headers := hd [] configData in
          let cols := columnsOf headers in
          if (emailColumnIndex cols =? -1)%Z || (calendarIdColumnIndex cols =? -1)%Z
          then
            mailSendEmail env (activeUserEmail env)
              "ERROR: Calendar Summary Script - Missing Columns"
              ("The daily calendar summary script failed because the configuration sheet is missing required columns. Please ensure 'Recipient Email' and 'Calendar ID' columns exist in sheet "
               ++ Str.quoted CONFIG_SHEET_NAME ++ ".") ;;
            ret None
          else
            ret (Some (mkConfig (parseRecipients configData)
                                SPREADSHEET_ID CONFIG_SHEET_NAME))
    end.

(** The guarded block of [sendDailyEventSummary]. Its value tells whether
    control goes on to the report: [false] is the [return] taken when no
    configuration could be loaded. *)
Definition mainExecution : M State bool :=
  config <- loadConfiguration ;;
  match config with
  | None =>
      addError env (mkError "Failed to load configuration") "Configuration loading" ;;
      ret false
  | Some config =>
      calendarData <- fetchCalendarDataBatched env (recipients config) ;;
      let recipientData := reconcile calendarData in
      let emailQueue := buildEmailQueue env recipientData in
      (if 0 <? List.length emailQueue
       then sendEmailsBatched env emailQueue else ret tt) ;;
      ret true
  end.

(** [sendDailyEventSummary()]. The function returns nothing; the
    embedding hands back the summary the report was built from, when one
    was built. *)
Definition sendDailyEventSummary : M State (option ExecutionSummary) :=
  newExecutionTracker env ;;
  newDate env ;;
  goOn <-
    tryCatch mainExecution
      (fun error => addError env error "Main execution" ;; ret true) ;;
  if goOn : bool then
    summary <- getSummary env ;;
    let adminSummaryBody := generateAdminSummary summary in
    tryCatch
      (mailSendEmail env (activeUserEmail env)
         ("Calendar Summary Script Report - "
          ++ (if summarySuccess summary then "SUCCESS" else "FAILED"))
         adminSummaryBody)
      (fun e => ret tt) ;;
    ret (Some summary)
  else ret None.

(** A run starts with no call made. The tracker of the initial state is
    replaced at once. *)
Definition initialState : State :=
  mkState [] (mkTracker 0 (mkMetrics 0 0 0 0 0 [])).

End Main.

(* ================================================================= *)
(** * Vocabulary of the properties *)

(** [needle] occurs in [s]. *)
Definition Substring (needle s : string) : Prop :=
  exists before after, s = (before ++ needle ++ after)%string.

(** The preference strings [calculateDateRange] has a case for. *)
Definition recognizedRanges : list string :=
  ["today"; "tomorrow"; "next 3 days"; "next3days"; "this week"; "thisweek";
   "next week"; "nextweek"; "weekdays only"; "weekdays"].

(** US Central time in 2023: UTC-6, and UTC-5 from March 12, 08:00 UTC to
    November 5, 07:00 UTC. A local time inside the skipped hour is read with
    the offset in force before the change. *)
Definition centralTime2023 : JsDate.TimeZone :=
  JsDate.mkTimeZone
    (fun t => if (t <? 1678608000000)%Z then (t - 21600000)%Z
              else if (t <? 1699167600000)%Z then (t - 18000000)%Z
              else (t - 21600000)%Z)
    (fun l => if (l <? 1678590000000)%Z then (l + 21600000)%Z
              else if (l <? 1699149600000)%Z then (l + 18000000)%Z
              else (l + 21600000)%Z).

(** *** Keyword filter *)

(** The searchable text of an event. *)
Definition eventText (event : CalendarEvent) : string :=
  (Str.toLowerCase (getTitle event) ++ " " ++ Str.toLowerCase (getDescription event)
   ++ " " ++ Str.toLowerCase (getLocation event))%string.

(** Tokens without a leading ['-']. *)
Definition includeTokens (keywords : list string) : list string :=
  filter (fun k => negb (Str.startsWith "-" k)) keywords.

(** Tokens with a leading ['-'], the ['-'] stripped. *)
Definition excludeTokens (keywords : list string) : list string :=
  map Str.substring1 (filter (fun k => Str.startsWith "-" k) keywords).

(** The retention rule of the code: tokens are lower-cased before they are
    looked for. *)
Definition Retained (keywords : list string) (event : CalendarEvent) : Prop :=
  (includeTokens keywords = []
   \/ forall k, In k (includeTokens keywords) ->
                Substring (Str.toLowerCase k) (eventText event))
  /\ (forall k, In k (excludeTokens keywords) ->
                ~ Substring (Str.toLowerCase k) (eventText event)).

(** The retention rule in the words of the specification: the tokens are
    looked for as they are given. *)
Definition RetainedAsWritten (keywords : list string) (event : CalendarEvent) : Prop :=
  (includeTokens keywords = []
   \/ forall k, In k (includeTokens keywords) -> Substring k (eventText event))
  /\ (forall k, In k (excludeTokens keywords) -> ~ Substring k (eventText event)).

(** The predicate [events.filter] is called with. *)
Definition retained (keywords : list string) (event : CalendarEvent) : bool :=
  ((List.length (map Str.toLowerCase (includeTokens keywords)) =? 0)
   || forallb (fun keyword => Str.includes keyword (eventText event))
              (map Str.toLowerCase (includeTokens keywords)))
  && forallb (fun keyword => negb (Str.includes keyword (eventText event)))
             (map (fun k => Str.toLowerCase (Str.substring1 k))
                  (filter (fun k => Str.startsWith "-" k) keywords)).

Definition importantMeeting : CalendarEvent :=
  mkEvent "IMPORTANT Meeting" "" "" 0 0.

(** *** Counting the attempts of a retried operation *)

(** The operation, with a counter of its invocations beside the state. *)
Definition counting {St A} (m : M St A) : M (St * nat) A :=
  fun '(s, n) => let '(r, s') := m s in (r, (s', S n)).

(** A computation that leaves the counter alone. *)
Definition uncounted {St A} (m : M St A) : M (St * nat) A :=
  fun '(s, n) => let '(r, s') := m s in (r, (s', n)).

(** The same retry loop, run on the counted operation. *)
Definition countedRetry (env : Env) {A} (operation : M State A)
    (maxRetries : nat) (baseDelay : Z) : M (State * nat) A :=
  Retry.retryOperationWith (fun ms => uncounted (sleep ms))
    (uncounted (mathRandom env)) (counting operation) maxRetries baseDelay.

(** How many times [retryOperation] invokes the operation from state [s]. *)
Definition attemptsOf (env : Env) {A} (operation : M State A)
    (maxRetries : nat) (baseDelay : Z) (s : State) : nat :=
  snd (snd (countedRetry env operation maxRetries baseDelay (s, 0))).

(** The retry loop of the program, from a given attempt on. *)
Definition retryFrom (env : Env) {A} (operation : M State A)
    (maxRetries : nat) (baseDelay : Z) (attempt : nat) (lastError : Error)
  : M State A :=
  Retry.retryLoop sleep (mathRandom env) operation maxRetries baseDelay
    (S maxRetries - attempt) attempt lastError.

(** The state in which the next attempt starts: [Math.random] was read and
    the backoff slept. *)
Definition afterBackoff (env : Env) (baseDelay : Z) (attempt : nat) (s1 : State) : State :=
  record
    (UtilitiesSleep (Retry.backoffDelay baseDelay attempt (random env (history s1))))
    (record MathRandom s1).

(* ================================================================= *)
(** * A concrete environment

    One calendar that answers, one that is unknown and one whose service
    always times out; a primary mail channel that refuses one address; a
    clock that advances by a millisecond per call. *)

Definition teamCalendar : Calendar := mkCalendar "test@example.com" "Test Calendar".

Definition standup : CalendarEvent :=
  mkEvent "Daily Standup" "Daily team standup meeting" "Conference Room A"
          1673859600000 1673861400000.

Definition clientLunch : CalendarEvent :=
  mkEvent "Lunch with Client" "Important client meeting over lunch"
          "Downtown Restaurant" 1673850000000 1673853600000.

Definition demoSheet : list (list string) :=
  [ ["Recipient Email"; "Calendar ID"; "Frequency"; "Filter Keywords"];
    ["active@example.com"; "test@example.com"; "daily"; "meeting"];
    ["fail@example.com"; "test@example.com"; "daily"; ""];
    ["other@example.com"; "missing@example.com"; "daily"; ""];
    ["weekend@example.com"; "test@example.com"; "weekends"; ""] ].

Definition demoEnv : Env :=
  mkEnv (JsDate.fixedOffset 0)
    (fun h => (1673827200000 + Z.of_nat (List.length h))%Z)
    (fun _ => 1 # 2)
    (fun _ id =>
       if String.eqb id "test@example.com" then Returned (Some teamCalendar)
       else if String.eqb id "flaky@example.com"
       then Thrown (mkError "Service error: timeout")
       else Returned None)
    (fun _ _ _ _ => Returned [standup; clientLunch])
    (fun _ to _ _ _ =>
       if String.eqb to "fail@example.com"
       then Thrown (mkError "Gmail service temporarily unavailable")
       else Returned tt)
    (fun _ to _ _ =>
       if String.eqb to "lost@example.com"
       then Thrown (mkError "Mail service refused the message")
       else Returned tt)
    (fun key => if String.eqb key "SPREADSHEET_ID" then Some "sheet-id" else None)
    (fun _ _ _ => Returned (Some demoSheet))
    "admin@example.com"
    (fun to name evs _ _ =>
       mkContent "<html>"
         ("Hello " ++ localPart to ++ ", " ++ Str.ofNat (List.length evs)
          ++ " events from " ++ name)).

(* ================================================================= *)
(** * Vocabulary of the delivery properties *)

(** The messages the primary channel accepted, in a history: the calls to
    [GmailApp.sendEmail] that returned. *)
Fixpoint gmailDeliveries (env : Env) (h : list Call) : nat :=
  match h with
  | [] => 0
  | GmailSendEmail to subject body options :: before =>
      match gmailSend env before to subject body options with
      | Returned _ => S (gmailDeliveries env before)
      | Thrown _ => gmailDeliveries env before
      end
  | _ :: before => gmailDeliveries env before
  end.

(** The messages the fallback channel accepted: the calls to
    [MailApp.sendEmail] that returned. *)
Fixpoint mailDeliveries (env : Env) (h : list Call) : nat :=
  match h with
  | [] => 0
  | MailSendEmail to subject body :: before =>
      match mailSend env before to subject body with
      | Returned _ => S (mailDeliveries env before)
      | Thrown _ => mailDeliveries env before
      end
  | _ :: before => mailDeliveries env before
  end.

Definition metricsOf (s : State) : Metrics := metrics (tracker s).

(** What a stretch of sending did to the run, from state [s] to state [s']:
    [viaPrimary] messages were accepted by the primary channel, [viaFallback]
    by the fallback channel, and [failed] by neither. *)
Record Delivered (env : Env) (s s' : State)
       (viaPrimary viaFallback failed : nat) : Prop := mkDelivered {
  primaryAccepted :
    gmailDeliveries env (history s') = gmailDeliveries env (history s) + viaPrimary;
  fallbackAccepted :
    mailDeliveries env (history s') = mailDeliveries env (history s) + viaFallback;
  sentCounted :
    emailsSent (metricsOf s') = emailsSent (metricsOf s) + viaPrimary + viaFallback;
  failedCounted :
    emailsFailed (metricsOf s') = emailsFailed (metricsOf s) + failed;
  errorsRecorded :
    List.length (errors (metricsOf s'))
    = List.length (errors (metricsOf s)) + viaFallback + 2 * failed;
  calendarsKept : calendarsProcessed (metricsOf s') = calendarsProcessed (metricsOf s);
  eventsKept : eventsFound (metricsOf s') = eventsFound (metricsOf s);
  retriesKept : retriesPerformed (metricsOf s') = retriesPerformed (metricsOf s)
}.

Definition mailToFail : EmailData :=
  mkEmail "fail@example.com" "Your Events for the Day" "Hello" (Some "<html>").

(** The state in which the fallback is tried: the failure of the primary
    channel has been recorded. *)
Definition afterPrimaryFailure (env : Env) (emailData : EmailData)
    (e : Error) (s1 : State) : State :=
  snd (addError env e ("Sending email to " ++ to emailData) s1).

(* ================================================================= *)
(** * Vocabulary of the run properties *)

(** The retry counter of the tracker. *)
Definition retriesOf (s : State) : nat := retriesPerformed (metricsOf s).

(** A computation that leaves the retry counter as it found it, however it
    ends. *)
Definition KeepsRetries {A} (m : M State A) : Prop :=
  forall s, retriesOf (snd (m s)) = retriesOf s.

(** The line of the report that shows the retry counter at zero. *)
Definition retriesLineZero : string :=
  ("• Retries Performed: 0" ++ Str.nl)%string.

(** The subject of the report to the administrator. *)
Definition reportSubject (summary : ExecutionSummary) : string :=
  ("Calendar Summary Script Report - "
   ++ (if summarySuccess summary then "SUCCESS" else "FAILED"))%string.

(* ================================================================= *)
(** * Vocabulary of the reconciliation properties *)

(** The calendar sources of a recipient email: the cache entries that list
    a recipient with that email, in cache order, once per listing. *)
Definition sourcesOf (recipientEmail : string) (calendarData : Obj.t CacheEntry)
  : list CacheEntry :=
  flat_map
    (fun '(_, data) =>
       map (fun _ => data)
           (filter (fun r => String.eqb (email r) recipientEmail)
                   (entryRecipients data)))
    calendarData.

(** The sources that were fetched, as the reconciled record keeps them. *)
Definition succeeded (sources : list CacheEntry) : list CalendarSource :=
  flat_map
    (fun data =>
       match fetched data with
       | Fetched calendar evs => [mkSource calendar evs]
       | Failed _ => []
       end)
    sources.

(** The sources that failed, as the reconciled record keeps them. *)
Definition failures (sources : list CacheEntry) : list SourceError :=
  flat_map
    (fun data =>
       match fetched data with
       | Fetched _ _ => []
       | Failed error => [mkSourceError "Unknown" error]
       end)
    sources.

(** The pairs the two nested loops of the reconciliation visit, in order. *)
Definition occurrences (calendarData : Obj.t CacheEntry)
  : list (CacheEntry * Recipient) :=
  flat_map (fun '(_, data) => map (pair data) (entryRecipients data)) calendarData.

Definition sourcesIn (recipientEmail : string) (visited : list (CacheEntry * Recipient))
  : list CacheEntry :=
  map fst (filter (fun p => String.eqb (email (snd p)) recipientEmail) visited).

(** What the record of a recipient email holds once the pairs [visited]
    have been processed. *)
Definition Reconciled (recipientEmail : string)
    (visited : list (CacheEntry * Recipient)) (entry : option RecipientData) : Prop :=
  match entry with
  | None => sourcesIn recipientEmail visited = []
  | Some d =>
      sourcesIn recipientEmail visited <> []
      /\ calendars d = succeeded (sourcesIn recipientEmail visited)
      /\ recipientErrors d = failures (sourcesIn recipientEmail visited)
      /\ hasErrors d
         = existsb (fun data => negb (success data)) (sourcesIn recipientEmail visited)
      /\ email (recipient d) = recipientEmail
  end.

(** A cache with two groups for one recipient email: the first calendar
    was fetched, the second failed. *)
Definition demoRange : DateRange := mkDateRange 1673827200000 1673913600000 "today".

Definition twoCalendarCache : Obj.t CacheEntry :=
  [ ("test@example.com|1673827200000|1673913600000",
     mkEntry (Fetched teamCalendar [standup; clientLunch])
             [mkRecipient "multi@example.com" "test@example.com" noPreferences true 0 2]
             demoRange);
    ("missing@example.com|1673827200000|1673913600000",
     mkEntry (Failed "Calendar not found")
             [mkRecipient "multi@example.com" "missing@example.com" noPreferences true 1 2]
             demoRange) ].

(* ================================================================= *)
(** * Vocabulary of the batching properties *)

(** The date range each active recipient is given: the clock is read once
    per recipient, after the calls in [h]. *)
Fixpoint rangesFrom (env : Env) (h : list Call) (active : list Recipient)
  : list (Recipient * DateRange) :=
  match active with
  | [] => []
  | r :: rest =>
      (r, calculateDateRange (zone env) (clock env h)
            (orDefault (dateRange (preferences r)) "today"))
      :: rangesFrom env (NewDate :: h) rest
  end.

(** The group key of a recipient with its date range. *)
Definition keyOf (p : Recipient * DateRange) : string :=
  groupKeyOf (calendarId (fst p)) (snd p).

(** The recipients whose key is [groupKey], in order. *)
Definition membersOf (groupKey : string) (keyed : list (Recipient * DateRange))
  : list Recipient :=
  map fst (filter (fun p => String.eqb (keyOf p) groupKey) keyed).

(** The distinct keys of a list, in order of first occurrence. *)
Definition distinct (keys : list string) : list string :=
  fold_left
    (fun seen k => if existsb (String.eqb k) seen then seen else seen ++ [k])
    keys [].

(** Calls to [CalendarApp.getCalendarById] in a history. *)
Definition lookups (h : list Call) : nat :=
  List.length (filter (fun c => match c with GetCalendarById _ => true | _ => false end) h).

(** Calls to [calendar.getEvents] in a history. *)
Definition eventReads (h : list Call) : nat :=
  List.length (filter (fun c => match c with GetEvents _ _ _ => true | _ => false end) h).

(** Backoffs slept in a history: one before each repeated attempt. *)
Definition sleeps (h : list Call) : nat :=
  List.length (filter (fun c => match c with UtilitiesSleep _ => true | _ => false end) h).

(** Three recipients, two of them on the same calendar and date range. *)
Definition threeRecipients : list Recipient :=
  [ mkRecipient "user1@example.com" "test@example.com" noPreferences false 0 1;
    mkRecipient "user2@example.com" "test@example.com" noPreferences false 0 1;
    mkRecipient "user3@example.com" "missing@example.com" noPreferences false 0 1 ].

(** The character occurs in the string. *)
Fixpoint occurs (c : ascii) (s : string) : Prop :=
  match s with
  | EmptyString => False
  | String d r => d = c \/ occurs c r
  end.

(** What the groups hold once the recipients [visited] have joined. *)
Definition Grouped (visited : list (Recipient * DateRange))
           (calendarGroups : Obj.t CalendarGroup) : Prop :=
  Obj.keys calendarGroups = distinct (map keyOf visited)
  /\ forall k,
       match Obj.get k calendarGroups with
       | None => membersOf k visited = []
       | Some group =>
           groupRecipients group = membersOf k visited
           /\ membersOf k visited <> []
           /\ groupKeyOf (groupCalendarId group) (groupDateRange group) = k
       end.

(** A stretch of the run that makes no calendar call, sleeps no backoff and
    leaves the tracker alone. *)
Definition Quiet (s s' : State) : Prop :=
  tracker s' = tracker s
  /\ lookups (history s') = lookups (history s)
  /\ eventReads (history s') = eventReads (history s)
  /\ sleeps (history s') = sleeps (history s).

(** What fetching [groups] groups cost, from state [s] to state [s']: one
    calendar lookup per group and at most one event read, and one repeated
    call for each backoff the retry policy slept. *)
Record FetchCost (s s' : State) (groups retriedLookups retriedReads : nat) : Prop :=
  mkFetchCost {
    lookupsMade :
      lookups (history s') = lookups (history s) + groups + retriedLookups;
    readsMade :
      eventReads (history s') <= eventReads (history s) + groups + retriedReads;
    backoffsSlept :
      sleeps (history s') = sleeps (history s) + retriedLookups + retriedReads;
    lookupsRetried : retriedLookups <= 3 * groups;
    readsRetried : retriedReads <= 3 * groups
  }.

(** A cache entry stands for a group: same key, recipients and range. *)
Definition entryOf (g : string * CalendarGroup) (c : string * CacheEntry) : Prop :=
  fst c = fst g
  /\ entryRecipients (snd c) = groupRecipients (snd g)
  /\ entryDateRange (snd c) = groupDateRange (snd g).

(* ================================================================= *)
(** * Vocabulary of the validation properties *)

(** Every character class of the pattern lies inside [allowed]. *)
Fixpoint classesWithin (allowed : ascii -> bool) (r : RegExp.regex) : Prop :=
  match r with
  | RegExp.Void | RegExp.Eps => True
  | RegExp.Class p => forall c, p c = true -> allowed c = true
  | RegExp.Seq a b | RegExp.Alt a b => classesWithin allowed a /\ classesWithin allowed b
  | RegExp.Star a => classesWithin allowed a
  end.

(** The characters an address may be made of. *)
Definition addressChar (c : ascii) : bool :=
  Validation.localChar c || Ascii.eqb c "@".

(** The sheet of the repository's test for several calendars per row. *)
Definition multiCalendarSheet : list (list string) :=
  [ ["Recipient Email"; "Calendar ID"];
    ["user@example.com"; "cal1@gmail.com,cal2@gmail.com,cal3@gmail.com"] ].

(* ================================================================= *)
(** * Fixtures of the repository's tests *)

(** The nine mock events, with midnight of 16 January 2023 UTC as "today". *)
Definition mockEvents : list CalendarEvent :=
  let today := 1673827200000%Z in
  let hour := 3600000%Z in
  [ mkEvent "Daily Standup" "Daily team standup meeting" "Conference Room A"
            (today + 9 * hour) (today + 9 * hour + 1800000);
    mkEvent "Lunch with Client" "Important client meeting over lunch"
            "Downtown Restaurant" (today + 12 * hour) (today + 13 * hour);
    mkEvent "Project Review" "Quarterly project review session" "Meeting Room B"
            (today + 15 * hour) (today + 16 * hour);
    mkEvent "Personal Appointment" "Personal medical appointment" "Medical Center"
            (today + 18 * hour) (today + 19 * hour);
    mkEvent "Company Holiday" "Company-wide holiday" "" today (today + 24 * hour);
    mkEvent "Phone Interview" "Remote phone interview with candidate" ""
            (today + 14 * hour) (today + 15 * hour);
    mkEvent "Quick Sync" "" "Office" (today + 10 * hour) (today + 10 * hour + 1800000);
    mkEvent "Cancelled Meeting" "This meeting has been cancelled" "Cancelled Location"
            (today + 11 * hour) (today + 12 * hour);
    mkEvent "Optional Team Building" "Optional team building activity" "Break Room"
            (today + 17 * hour) (today + 18 * hour) ]%Z.

(** Midnight UTC of Monday 2 January 2023 and of the six days after it. *)
Definition testWeek : list Z :=
  map (fun d => (1672617600000 + d * 86400000)%Z) [0; 1; 2; 3; 4; 5; 6]%Z.

Definition validEmails : list string :=
  [ "user@example.com"; "user.name@example.com"; "user+tag@example.com";
    "user_name@example-domain.com"; "user123@domain123.co.uk" ].

Definition invalidEmails : list string :=
  [ "user@"; "@example.com"; "user..double.dot@example.com"; "user @example.com";
    "user@example"; "user@.com"; "user@example."; ".user@example.com" ].

(* ================================================================= *)
(** * Vocabulary of the date-window properties *)

(** Local midnight of the day of the instant [T], in a zone that is
    [offset] milliseconds ahead of UTC. *)
Definition localMidnight (offset T : Z) : Z :=
  (T - (T + offset) mod JsDate.msPerDay)%Z.

(** A number of whole days, in milliseconds. *)
Definition days (n : Z) : Z := (n * JsDate.msPerDay)%Z.

(** The decomposition [DateFromDay] makes of a day number: the day [doe]
    of a 400-year era that starts on a first of March, the year [yoeOf doe]
    of the era, which starts on the day [startOf] of it, and the day of the
    month [dayOf] of a day of such a year. *)
Definition doeOf (d : Z) : Z := ((d + 719468) mod 146097)%Z.

Definition yoeOf (doe : Z) : Z :=
  ((doe - doe / 1460 + doe / 36524 - doe / 146096) / 365)%Z.

Definition startOf (yoe : Z) : Z := (365 * yoe + yoe / 4 - yoe / 100)%Z.

Definition dayOf (doy : Z) : Z :=
  (doy - (153 * ((5 * doy + 2) / 153) + 2) / 5 + 1)%Z.

(** The days of a week from the instant [T] on which the frequency gate
    lets a message through. *)
Definition sendDays (tz : JsDate.TimeZone) (T : Z) (frequency : string) : nat :=
  List.length
    (filter (fun d => shouldSendEmail tz (T + days d)%Z frequency)
            [0; 1; 2; 3; 4; 5; 6]%Z).


(* ================================================================= *)
(** * Vocabulary of the transient-error properties *)

(** Letter case as the [i] flag sees it on the patterns of the program: an
    ASCII capital stands for its lower-case letter. *)
Definition foldChar (c : ascii) : ascii :=
  if Str.isUpper c then Str.toLowerChar c else c.

Definition foldCase (s : string) : string := Str.map foldChar s.

(** The line terminators [.] does not match: LF and CR. *)
Definition isLineBreak (c : ascii) : bool :=
  (Str.code c =? 10) || (Str.code c =? 13).

(** A text without a line terminator. *)
Fixpoint oneLine (s : string) : bool :=
  match s with
  | EmptyString => true
  | String c r => negb (isLineBreak c) && oneLine r
  end.

(** The phrases that make an error transient wherever they occur. *)
Definition transientPhrases : list string :=
  ["service is currently unavailable"; "temporary failure"; "rate limit"; "timeout"].

(** The pairs of words that make an error transient when the second
    follows the first on the same line. *)
Definition transientPairs : list (string * string) :=
  [("quota", "exceeded"); ("network", "error"); ("internal", "error");
   ("service", "error")].

(** A message that reads as a transient failure, letter case apart. *)
Definition Transient (msg : string) : Prop :=
  (exists phrase, In phrase transientPhrases /\ Substring phrase (foldCase msg))
  \/ (exists first second between,
        In (first, second) transientPairs
        /\ oneLine between = true
        /\ Substring (first ++ between ++ second) (foldCase msg)).

(* ================================================================= *)
(** * Vocabulary of the backoff properties *)

(** The milliseconds slept in a history. *)
Fixpoint sleptMs (h : list Call) : Q :=
  match h with
  | [] => 0
  | UtilitiesSleep ms :: before => ms + sleptMs before
  | _ :: before => sleptMs before
  end.

(** The backoff without its jitter, over [d] attempts from [attempt] on:
    the sum of [baseDelay * 2^i]. *)
Fixpoint backoffFloor (baseDelay : Z) (attempt d : nat) : Z :=
  match d with
  | O => 0
  | S d' => baseDelay * 2 ^ Z.of_nat attempt + backoffFloor baseDelay (S attempt) d'
  end.

(* ================================================================= *)
(** * Vocabulary of the accounting properties *)

(** A computation that leaves an observation of the state as it found it,
    however it ends. *)
Definition Keeps {X A : Type} (f : State -> X) (m : M State A) : Prop :=
  forall s, f (snd (m s)) = f s.

(** The messages the two mail channels have accepted so far. *)
Definition deliveries (env : Env) (s : State) : nat * nat :=
  (gmailDeliveries env (history s), mailDeliveries env (history s)).

(** The tracker, with the messages accepted so far. *)
Definition ledger (env : Env) (s : State) : ExecutionTracker * (nat * nat) :=
  (tracker s, deliveries env s).

(** The entries of a cache that were fetched, the events they hold, and the
    error texts of the entries that failed, in cache order. *)
Definition fetchedEntries (cache : Obj.t CacheEntry) : nat :=
  List.length (filter (fun c => success (snd c)) cache).

Definition eventsIn (cache : Obj.t CacheEntry) : nat :=
  list_sum (map (fun c => List.length (events (snd c))) cache).

Definition failureTexts (cache : Obj.t CacheEntry) : list string :=
  flat_map
    (fun c => match fetched (snd c) with
              | Fetched _ _ => []
              | Failed error => [error]
              end)
    cache.

(** What fetching the entries [entries] did to the tracker, from state [s]
    to state [s']: the mail channels were not used. *)
Record Tallied (env : Env) (s s' : State) (entries : Obj.t CacheEntry) : Prop :=
  mkTallied {
    calendarsTallied :
      calendarsProcessed (metricsOf s')
      = calendarsProcessed (metricsOf s) + fetchedEntries entries;
    eventsTallied :
      eventsFound (metricsOf s') = eventsFound (metricsOf s) + eventsIn entries;
    errorsTallied :
      map errMessage (errors (metricsOf s'))
      = map errMessage (errors (metricsOf s)) ++ failureTexts entries;
    sentUntouched : emailsSent (metricsOf s') = emailsSent (metricsOf s);
    failedUntouched : emailsFailed (metricsOf s') = emailsFailed (metricsOf s);
    retriesUntouched : retriesPerformed (metricsOf s') = retriesPerformed (metricsOf s);
    startUntouched : startTime (tracker s') = startTime (tracker s);
    mailUntouched : deliveries env s' = deliveries env s
  }.

(** The state in which the guarded block of a run starts: the tracker is
    new and the clock was read for the log. *)
Definition afterStart (env : Env) (s0 : State) : State :=
  record NewDate (snd (newExecutionTracker env s0)).

(** The demonstration environment, with another configuration store and
    another answer when the sheet is opened. *)
Definition demoEnvWith (configuration : string -> option string)
    (sheet : outcome (option (list (list string)))) : Env :=
  mkEnv (zone demoEnv) (clock demoEnv) (random demoEnv) (calendarById demoEnv)
        (eventsOf demoEnv) (gmailSend demoEnv) (mailSend demoEnv)
        configuration (fun _ _ _ => sheet)
        (activeUserEmail demoEnv) (generateEmailBody demoEnv).

(** The name of the configuration sheet a run looks for. *)
Definition configSheetName (env : Env) : string :=
  match configGet env "CONFIG_SHEET_NAME" with
  | Some name => name
  | None => "Config"
  end.

(** The notice sent to the owner when the sheet cannot be reached. *)
Definition criticalNotice (env : Env) (e : Error) : Call :=
  MailSendEmail (activeUserEmail env)
    "CRITICAL: Calendar Summary Script Failure"
    ("The daily calendar summary script failed to access its configuration sheet. Please check the SPREADSHEET_ID and CONFIG_SHEET_NAME in the script. Error: "
     ++ message e).

(** What a mail channel answers to a call, after the calls in [h]. *)
Definition mailAnswer (env : Env) (h : list Call) (c : Call) : outcome unit :=
  match c with
  | MailSendEmail to subject body => mailSend env h to subject body
  | GmailSendEmail to subject body options => gmailSend env h to subject body options
  | _ => Returned tt
  end.

(** The summary [getSummary] builds in a state. *)
Definition summaryAt (env : Env) (s : State) : ExecutionSummary :=
  let executionTime := (clock env (history s) - startTime (tracker s))%Z in
  let m := metrics (tracker s) in
  mkSummary executionTime (formatDuration executionTime) m
    (getQuotaUsageEstimate m)
    ((List.length (errors m) =? 0) && (emailsFailed m =? 0)).

(** The messages GmailApp has accepted so far. *)
Definition viaGmail (env : Env) (s : State) : nat := gmailDeliveries env (history s).

(* ================================================================= *)
(** * Vocabulary of the further reconciliation properties *)

(** One event starts no later than another. *)
Definition startsNoLater (a b : CalendarEvent) : Prop :=
  (getStartTime a <= getStartTime b)%Z.

(** The events of a list that start at the instant [t], in order. *)
Definition startingAt (t : Z) (l : list CalendarEvent) : list CalendarEvent :=
  filter (fun e => (getStartTime e =? t)%Z) l.

(** The events of a recipient before they are sorted: the events of the
    fetched sources, one source after the other, filtered when the
    recipient has keywords. *)
Definition mergedEvents (data : RecipientData) : list CalendarEvent :=
  let allEvents := flat_map sourceEvents (calendars data) in
  match filterKeywords (preferences (recipient data)) with
  | Some keywords => filterEventsByKeywords allEvents (Some keywords)
  | None => allEvents
  end.

(** The first pair of the reconciliation loops that names a recipient
    email. *)
Definition firstNaming (recipientEmail : string)
    (visited : list (CacheEntry * Recipient)) : option (CacheEntry * Recipient) :=
  find (fun p => String.eqb (email (snd p)) recipientEmail) visited.

(** What the records hold once the pairs [visited] have been processed:
    the emails in order of first appearance, each record with the recipient
    and the date range of the pair that named its email first. *)
Definition FirstKept (visited : list (CacheEntry * Recipient))
           (recipientData : Obj.t RecipientData) : Prop :=
  Obj.keys recipientData = distinct (map (fun p => email (snd p)) visited)
  /\ forall e,
       match Obj.get e recipientData with
       | None => firstNaming e visited = None
       | Some d =>
           exists first,
             firstNaming e visited = Some first
             /\ recipient d = snd first
             /\ recipientDateRange d = entryDateRange (fst first)
       end.

(* ================================================================= *)
(** * Vocabulary of the sending-order properties *)

(** The call that hands a message to GmailApp. *)
Definition gmailCall (emailData : EmailData) : Call :=
  GmailSendEmail (to emailData) (subject emailData) (body emailData)
                 (options emailData).

(** The pause after the message at position [i] (from 0) of a queue of
    [total] messages: one after every tenth message but the last. *)
Definition pauseAfter (i total : nat) : list Call :=
  if (S i mod BATCH_SIZE =? 0) && (S i <? total)
  then [UtilitiesSleep DELAY_BETWEEN_BATCHES] else [].

(** The calls of a queue that goes out at the first attempt, from the
    message at position [i] on: one call per message, in order, and the
    pauses. *)
Fixpoint sendTrace (i total : nat) (emailQueue : list EmailData) : list Call :=
  match emailQueue with
  | [] => []
  | emailData :: rest =>
      gmailCall emailData :: pauseAfter i total ++ sendTrace (S i) total rest
  end.

(** GmailApp accepts every message. *)
Definition GmailAccepts (env : Env) : Prop :=
  forall h to subject body options,
    gmailSend env h to subject body options = Returned tt.

(** The demonstration environment with a GmailApp that accepts every
    message. *)
Definition acceptingEnv : Env :=
  mkEnv (zone demoEnv) (clock demoEnv) (random demoEnv) (calendarById demoEnv)
        (eventsOf demoEnv) (fun _ _ _ _ _ => Returned tt) (mailSend demoEnv)
        (configGet demoEnv) (openSheet demoEnv)
        (activeUserEmail demoEnv) (generateEmailBody demoEnv).

(** A state after [n] more messages were counted as sent and the calls
    [calls] (latest first) were made. *)
Definition sentMore (n : nat) (calls : list Call) (s : State) : State :=
  mkState (calls ++ history s)
    (mkTracker (startTime (tracker s))
       (let m := metrics (tracker s) in
        mkMetrics (calendarsProcessed m) (eventsFound m) (n + emailsSent m)
                  (emailsFailed m) (retriesPerformed m) (errors m))).

(* ================================================================= *)
(** * The configuration manager (Config.js) *)

Module ConfigurationManager.

(** The two stores behind [PropertiesService]. A key that was never set
    answers [null]. *)
Record Properties : Type := mkProperties {
  scriptProperties : Obj.t string;
  userProperties : Obj.t string
}.

(** An entry of the cache: [{ value, timestamp }]. *)
Record Cached : Type := mkCached {
  value : string;
  timestamp : Z
}.

(** The manager with the stores it reads: the cache of the instance, the
    properties, and how many answers the outside world has given so far
    (clock reads and calls of [PropertiesService]). *)
Record Manager : Type := mkManager {
  cache : Obj.t Cached;
  properties : Properties;
  asked : nat
}.

(** The outside world: what [Date.now()] answers, and whether a call of
    [PropertiesService] throws, by the number of answers given before. *)
Record World : Type := mkWorld {
  dateNow : nat -> Z;
  propertiesFault : nat -> option Error
}.

(** [new ConfigurationManager()] *)
Definition newManager (stores : Properties) : Manager := mkManager [] stores 0.

Definition cacheTimeout : Z := 5 * 60 * 1000.

Definition cacheKeyOf (key : string) : string := ("config_" ++ key)%string.

(** [if (value)] on a string or [null]. *)
Definition truthyValue (value : option string) : bool :=
  match value with
  | Some text => Str.truthy text
  | None => false
  end.

(** [map.delete(key)] *)
Definition mapDelete {V} (key : string) (map : Obj.t V) : Obj.t V :=
  filter (fun entry => negb (String.eqb key (fst entry))) map.

Section Methods.
Variable world : World.

Definition answered (s : Manager) : Manager :=
  mkManager (cache s) (properties s) (S (asked s)).

Definition DateNow : M Manager Z :=
  fun s => (Returned (dateNow world (asked s)), answered s).

(** [PropertiesService.get...Properties().getProperty(key)] *)
Definition getProperty (store : Properties -> Obj.t string) (key : string)
  : M Manager (option string) :=
  fun s =>
    match propertiesFault world (asked s) with
    | Some error => (Thrown error, answered s)
    | None => (Returned (Obj.get key (store (properties s))), answered s)
    end.

(** [PropertiesService.get...Properties().setProperty(key, value)] *)
Definition setProperty (userSpecific : bool) (key value : string) : M Manager unit :=
  fun s =>
    match propertiesFault world (asked s) with
    | Some error => (Thrown error, answered s)
    | None =>
        let stores := properties s in
        (Returned tt,
         mkManager (cache s)
           (if userSpecific
            then mkProperties (scriptProperties stores)
                              (Obj.set key value (userProperties stores))
            else mkProperties (Obj.set key value (scriptProperties stores))
                              (userProperties stores))
           (S (asked s)))
    end.

Definition cacheSet (cacheKey : string) (entry : Cached) : M Manager unit :=
  fun s => (Returned tt,
            mkManager (Obj.set cacheKey entry (cache s)) (properties s) (asked s)).

Definition cacheDelete (cacheKey : string) : M Manager unit :=
  fun s => (Returned tt,
            mkManager (mapDelete cacheKey (cache s)) (properties s) (asked s)).

Definition getFromProperties (key : string) : M Manager (option string) :=
  tryCatch
    (value <- getProperty scriptProperties key ;;
     if truthyValue value then ret value
     else
       value <- getProperty userProperties key ;;
       if truthyValue value then ret value
       else ret None)
    (fun error => ret None).

Definition getGoogleCloudProjectId : M Manager (option string) :=
  tryCatch
    (projectId <- getFromProperties "GOOGLE_CLOUD_PROJECT_ID" ;;
     if negb (truthyValue projectId) then ret None
     else ret projectId)
    (fun error => ret None).

(** The call of the Secret Manager API is not written yet: with or
    without a project id the answer is [null]. *)
Definition getFromSecretManager (key : string) : M Manager (option string) :=
  tryCatch
    (projectId <- getGoogleCloudProjectId ;;
     if negb (truthyValue projectId) then ret None
     else ret None)
    (fun error => ret None).

(** One of the two guarded blocks of [get]: [Some value] when the block
    returns [value] from [get], [None] when control goes on after it. *)
Definition fromSource (source : string -> M Manager (option string))
    (key : string) : M Manager (option string) :=
  tryCatch
    (value <- source key ;;
     match value with
     | Some text =>
         now <- DateNow ;;
         cacheSet (cacheKeyOf key) (mkCached text now) ;;
         ret (Some text)
     | None => ret None
     end)
    (fun error => ret None).

(** [get] after the cache gave nothing. *)
Definition getFromSources (key : string) (defaultValue : option string)
  : M Manager (option string) :=
  found <- fromSource getFromSecretManager key ;;
  match found with
  | Some text => ret (Some text)
  | None =>
      found <- fromSource getFromProperties key ;;
      match found with
      | Some text => ret (Some text)
      | None => ret defaultValue
      end
  end.

Definition get (key : string) (defaultValue : option string)
  : M Manager (option string) :=
  fun s =>
    match Obj.get (cacheKeyOf key) (cache s) with
    | Some cached =>
        (now <- DateNow ;;
         if (now - timestamp cached <? cacheTimeout)%Z
         then ret (Some (value cached))
         else getFromSources key defaultValue) s
    | None => getFromSources key defaultValue s
    end.

Definition set (key value : string) (userSpecific : bool) : M Manager unit :=
  tryCatch
    (setProperty userSpecific key value ;;
     cacheDelete (cacheKeyOf key))
    (fun error => throw error).

Definition clearCache : M Manager unit :=
  fun s => (Returned tt, mkManager [] (properties s) (asked s)).

Record ValidationResult : Type := mkValidationResult {
  valid : bool;
  missing : list string;
  available : list string;
  validationMessage : string
}.

Definition required : list string := ["SPREADSHEET_ID"; "CONFIG_SHEET_NAME"].

Definition validateConfiguration : M Manager ValidationResult :=
  lists <- foldM (fun lists key =>
                    value <- get key None ;;
                    if negb (truthyValue value)
                    then ret (fst lists ++ [key], snd lists)
                    else ret (fst lists, snd lists ++ [key]))
                 required ([], []) ;;
  let missing := fst lists in
  let available := snd lists in
  ret (mkValidationResult
         (List.length missing =? 0)
         missing available
         (if 0 <? List.length missing
          then ("Missing required configuration: " ++ Str.join ", " missing)%string
          else "All required configuration is available")).

Definition shownKeys : list string :=
  ["SPREADSHEET_ID"; "CONFIG_SHEET_NAME"; "GOOGLE_CLOUD_PROJECT_ID";
   "ADMIN_EMAIL_OVERRIDE"].

(** What [getAllConfiguration] shows for a key. *)
Definition shown (key : string) (value : option string) : option string :=
  match value with
  | Some text =>
      if Str.includes "ID" key && Str.truthy text
      then Some (String.substring 0 8 text ++ "...")%string
      else Some text
  | None => None
  end.

Definition getAllConfiguration : M Manager (Obj.t (option string)) :=
  foldM (fun config key =>
           value <- get key None ;;
           ret (Obj.set key (shown key value) config))
        shownKeys [].

(** [setupSpreadsheetId]; the global [Config] is the manager of the
    state. *)
Definition setupSpreadsheetId (spreadsheetId : string) : M Manager unit :=
  if negb (Str.truthy spreadsheetId) || (String.length spreadsheetId <? 20)
  then throw (mkError "Invalid spreadsheet ID provided")
  else set "SPREADSHEET_ID" spreadsheetId false.

Definition setupConfigSheetName (sheetName : string) : M Manager unit :=
  set "CONFIG_SHEET_NAME" sheetName false.

Definition setupGoogleCloudProject (projectId : string) : M Manager unit :=
  if negb (Str.truthy projectId)
  then throw (mkError "Project ID is required")
  else set "GOOGLE_CLOUD_PROJECT_ID" projectId false.

End Methods.

(** *** Vocabulary of the properties of the manager *)

(** The value the stores hold for a key: the script property unless it is
    missing or empty, then the user property unless it is missing or
    empty. *)
Definition stored (key : string) (stores : Properties) : option string :=
  if truthyValue (Obj.get key (scriptProperties stores))
  then Obj.get key (scriptProperties stores)
  else if truthyValue (Obj.get key (userProperties stores))
       then Obj.get key (userProperties stores)
       else None.

(** [PropertiesService] answers every call. *)
Definition ServiceUp (world : World) : Prop :=
  forall n, propertiesFault world n = None.

(** The cache entry of a key, when the clock read that [get] is about to
    make falls within the five minutes after the entry was written. *)
Definition fresh (world : World) (key : string) (s : Manager) : option Cached :=
  match Obj.get (cacheKeyOf key) (cache s) with
  | Some cached =>
      if (dateNow world (asked s) - timestamp cached <? cacheTimeout)%Z
      then Some cached else None
  | None => None
  end.

(** The stores after a change made elsewhere. *)
Definition changedElsewhere (stores : Properties) (s : Manager) : Manager :=
  mkManager (cache s) stores (asked s).

(** A use of the manager by the script, or a change of the stores made
    elsewhere (the editor, another run). *)
Inductive Use : Type :=
| UseGet (key : string) (defaultValue : option string)
| UseSet (key value : string) (userSpecific : bool)
| UseClearCache
| Elsewhere (stores : Properties).

Definition useOnce (world : World) (s : Manager) (use : Use) : Manager :=
  match use with
  | UseGet key defaultValue => snd (get world key defaultValue s)
  | UseSet key value userSpecific => snd (set world key value userSpecific s)
  | UseClearCache => snd (clearCache s)
  | Elsewhere stores => changedElsewhere stores s
  end.

(** The manager after a series of uses. *)
Definition afterUses (world : World) (uses : list Use) (s : Manager) : Manager :=
  fold_left (useOnce world) uses s.

(** Every value in the cache is a non-empty string. *)
Definition CacheHoldsValues (s : Manager) : Prop :=
  Forall (fun entry => Str.truthy (value (snd entry)) = true) (cache s).

(** How many calls of [PropertiesService] the lookup of a key takes when
    the service answers: one when the script property decides, two
    otherwise. *)
Definition reads (key : string) (stores : Properties) : nat :=
  if truthyValue (Obj.get key (scriptProperties stores)) then 1 else 2.

(** [n] more answers of the outside world, and nothing else. *)
Definition asks (n : nat) (s : Manager) : Manager :=
  mkManager (cache s) (properties s) (n + asked s).

(** A computation that returns, whatever the service does, [null] or a
    non-empty string, and leaves cache and stores as they are. *)
Definition Quiet (m : M Manager (option string)) : Prop :=
  forall s, exists v n,
    m s = (Returned v, asks n s) /\ (v = None \/ truthyValue v = true).

(** The state after [get] stored a value it found, [n] answers after it
    was called. *)
Definition cachedAt (world : World) (key text : string) (n : nat) (s : Manager)
  : Manager :=
  mkManager (Obj.set (cacheKeyOf key) (mkCached text (dateNow world (n + asked s)))
                     (cache s))
            (properties s) (S n + asked s).

(** The calls of [PropertiesService] that [get] makes for a key when the
    cache gives nothing. *)
Definition lookups (key : string) (stores : Properties) : nat :=
  reads key stores + reads "GOOGLE_CLOUD_PROJECT_ID" stores.

(** Whether [get] reads the clock for the cache check. *)
Definition checks (key : string) (s : Manager) : nat :=
  if Obj.has (cacheKeyOf key) (cache s) then 1 else 0.

(** A key for which the stores hold a value. *)
Definition configured (stores : Properties) (key : string) : bool :=
  truthyValue (stored key stores).

(** A world for the examples: the clock advances by one second from one
    read to the next and the service answers every call. *)
Definition steadyWorld : World :=
  mkWorld (fun n => (1000 * Z.of_nat n)%Z) (fun _ => None).

(** A world whose clock advances by five minutes from one read to the
    next. *)
Definition slowWorld : World :=
  mkWorld (fun n => (300000 * Z.of_nat n)%Z) (fun _ => None).

Definition demoStores : Properties :=
  mkProperties [("SPREADSHEET_ID", "1AbCdEfGhIjKlMnOpQrStUvWxYz0123456789")]
               [("CONFIG_SHEET_NAME", "Recipients");
                ("SPREADSHEET_ID", "user-level-id")].

End ConfigurationManager.

(* ================================================================= *)
(** * Vocabulary of the quota estimate *)

Definition isCalendarCall (c : Call) : bool :=
  match c with
  | GetCalendarById _ | GetEvents _ _ _ => true
  | _ => false
  end.

Definition isMailCall (c : Call) : bool :=
  match c with
  | GmailSendEmail _ _ _ _ | MailSendEmail _ _ _ => true
  | _ => false
  end.

(** The calls of [CalendarApp] and of a calendar made so far, and the
    calls of [GmailApp.sendEmail] and [MailApp.sendEmail]. *)
Definition calendarCalls (s : State) : nat :=
  List.length (filter isCalendarCall (history s)).

Definition mailCalls (s : State) : nat :=
  List.length (filter isMailCall (history s)).

(** The calls cover what the tracker counts: on top of [c0] calendar calls
    there were two for each calendar processed and [k] more, and on top of
    [m0] mail calls one for each message counted as sent or failed and [j]
    more. *)
Definition Covered (c0 m0 k j : nat) (s : State) : Prop :=
  c0 + (calendarsProcessed (metrics (tracker s)) * 2 + k) <= calendarCalls s
  /\ m0 + (emailsSent (metrics (tracker s)) + emailsFailed (metrics (tracker s)) + j)
     <= mailCalls s.

(** From a state where [P] holds, the computation ends in a state where
    [Q] holds of the value it returns, or [R] when it throws. *)
Definition Triple {A} (P : State -> Prop) (m : M State A)
    (Q : A -> State -> Prop) (R : State -> Prop) : Prop :=
  forall s, P s ->
    match m s with
    | (Returned a, s') => Q a s'
    | (Thrown _, s') => R s'
    end.

(** What the estimate of a reported summary is compared with: the calls
    made on top of [c0] calendar calls and [m0] mail calls. *)
Definition Estimated (c0 m0 : nat) (r : option ExecutionSummary) (s : State) : Prop :=
  match r with
  | Some summary =>
      c0 + calendarReads (quotaUsage summary) <= calendarCalls s
      /\ m0 + emailSends (quotaUsage summary) + 1 <= mailCalls s
  | None => True
  end.

(* ================================================================= *)
(** * The plain-text message *)

Module Template.

(** [Intl], as far as the templates use it:
    [date.toLocaleTimeString('en-US', { hour: '2-digit', minute: '2-digit', hour12 })]
    in the time zone of the script, and the same with a [timeZone] option,
    which throws a [RangeError] on a zone it does not know. *)
Record Intl : Type := mkIntl {
  timeString : Z -> bool -> string;
  timeStringIn : string -> Z -> bool -> outcome string
}.

Section Templates.
Variable intl : Intl.

(** [formatEventTime(startTime, timezone, use24Hour)] *)
Definition formatEventTime (startTime : Z) (timezone : option string)
    (use24Hour : bool) : string :=
  let hour12 := negb use24Hour in
  let attempt :=
    match timezone with
    | Some zoneName =>
        if Str.truthy zoneName then timeStringIn intl zoneName startTime hour12
        else Returned (timeString intl startTime hour12)
    | None => Returned (timeString intl startTime hour12)
    end in
  match attempt with
  | Returned text => text
  | Thrown e => timeString intl startTime hour12
  end.

(** [preferences.use24Hour || false] *)
Definition use24HourOf (preferences : Preferences) : bool :=
  match use24Hour preferences with
  | Some flag => flag
  | None => false
  end.

(** One turn of [events.forEach] in [generateEmailBody]: the line of an
    event is appended to the text. *)
Definition appendEvent (preferences : Preferences) (textBody : string)
    (event : CalendarEvent) : string :=
  let startTime := getStartTime event in
  let eventTitle := getTitle event in
  let location := getLocation event in
  let formattedStartTime :=
    formatEventTime startTime (timezone preferences) (use24HourOf preferences) in
  let textBody := (textBody ++ "• " ++ formattedStartTime ++ " - " ++ eventTitle)%string in
  let textBody :=
    if Str.truthy location then (textBody ++ " (" ++ location ++ ")")%string
    else textBody in
  (textBody ++ Str.nl)%string.

(** The [textBody] of the object [generateEmailBody] returns. *)
Definition generateTextBody (recipientEmail calendarName : string)
    (events : list CalendarEvent) (preferences : Preferences)
    (dateRange : option DateRange) : string :=
  let recipientName := hd EmptyString (Str.split "@" recipientEmail) in
  let dateText :=
    match dateRange with
    | Some range => ("for " ++ description range)%string
    | None => "for today"
    end in
  let textBody :=
    ("Hello " ++ recipientName ++ "," ++ Str.nl ++ Str.nl
     ++ "Here are your events " ++ dateText ++ " from "
     ++ Str.quoted calendarName ++ ":" ++ Str.nl ++ Str.nl)%string in
  let textBody :=
    if List.length events =? 0
    then (textBody ++ "No events found for today.")%string
    else fold_left (appendEvent preferences) events textBody in
  let textBody :=
    match timezone preferences with
    | Some zoneName =>
        if Str.truthy zoneName
        then (textBody ++ Str.nl ++ "(Times shown in " ++ zoneName ++ " timezone)"
              ++ Str.nl)%string
        else textBody
    | None => textBody
    end in
  (textBody ++ Str.nl ++ Str.nl ++ "Best regards," ++ Str.nl
   ++ "Your Google Calendar")%string.

End Templates.

(** The preferences without the time zone. *)
Definition withoutTimezone (preferences : Preferences) : Preferences :=
  mkPreferences None (use24Hour preferences) (dateRange preferences)
                (frequency preferences) (filterKeywords preferences).

(** The note on the time zone, and the end of every message. *)
Definition timezoneNote (zoneName : string) : string :=
  (Str.nl ++ "(Times shown in " ++ zoneName ++ " timezone)" ++ Str.nl)%string.

Definition closing : string :=
  (Str.nl ++ Str.nl ++ "Best regards," ++ Str.nl ++ "Your Google Calendar")%string.

(** An [Intl] for the examples: it knows the zone [UTC] only, and writes
    the minutes since the epoch. *)
Definition demoIntl : Intl :=
  mkIntl (fun t hour12 => Str.ofZ (t / 60000))
         (fun zoneName t hour12 =>
            if String.eqb zoneName "UTC" then Returned (Str.ofZ (t / 60000))
            else Thrown (mkError "Invalid time zone specified")).

End Template.

(* ================================================================= *)
(** * Vocabulary of the lookup of an unknown calendar *)

(** The message of the error thrown for a calendar [CalendarApp] does not
    know. *)
Definition notFoundMessage (calendarId : string) : string :=
  ("Calendar with ID " ++ Str.quoted calendarId ++ " not found.")%string.

(** [CalendarApp] knows no calendar of this id. *)
Definition UnknownCalendar (env : Env) (calendarId : string) : Prop :=
  forall h, calendarById env h calendarId = Returned None.
(* ================================================================= *)
(** * Properties *)

(** ** Substrings *)

Lemma prefix_true_iff (p s : string) :
  String.prefix p s = true <-> exists after, s = (p ++ after)%string.
Proof.
  revert s. induction p as [|c p IH]; intros s.
  - split; [intros _; now exists s | intros _; now destruct s].
  - destruct s as [|d s]; simpl.
    + split; [discriminate | intros [after H]; discriminate].
    + destruct (ascii_dec c d) as [->|Hne].
      * fold (String.prefix p s). rewrite IH. split; intros [after H]; exists after.
        -- now rewrite H.
        -- now inversion H.
      * split; [discriminate | intros [after H]; inversion H; congruence].
Qed.

Lemma includes_true_iff (needle s : string) :
  Str.includes needle s = true <-> Substring needle s.
Proof.
  unfold Substring. induction s as [|c s IH].
  - change (Str.includes needle EmptyString)
      with (String.prefix needle EmptyString || false).
    rewrite orb_false_r, prefix_true_iff. split.
    + intros [after H]. now exists EmptyString, after.
    + intros [before [after H]]. destruct before; simpl in H.
      * now exists after.
      * discriminate.
  - change (Str.includes needle (String c s))
      with (String.prefix needle (String c s) || Str.includes needle s).
    rewrite orb_true_iff, prefix_true_iff, IH. split.
    + intros [[after H] | [before [after H]]].
      * now exists EmptyString, after.
      * exists (String c before), after. simpl. now rewrite H.
    + intros [before [after H]]. destruct before as [|d before]; simpl in H.
      * left. now exists after.
      * right. inversion H. now exists before, after.
Qed.

Lemma includes_false_iff (needle s : string) :
  Str.includes needle s = false <-> ~ Substring needle s.
Proof.
  rewrite <- includes_true_iff. destruct (Str.includes needle s); split; intros H;
    try reflexivity; try discriminate; try (intros H'; discriminate).
  exfalso. now apply H.
Qed.

(** ** Date ranges *)

Section DateRangeFacts.
Variable tz : JsDate.TimeZone.
Local Open Scope Z_scope.

Lemma MakeDay_next (lt k : Z) :
  JsDate.MakeDate (JsDate.MakeDayInMonthOf lt (JsDate.DateFromTime lt + k))
                  (JsDate.TimeWithinDay lt)
  = lt + k * JsDate.msPerDay.
Proof.
  unfold JsDate.MakeDate, JsDate.MakeDayInMonthOf, JsDate.TimeWithinDay, JsDate.Day.
  pose proof (Z.div_mod lt JsDate.msPerDay) as H.
  assert (JsDate.msPerDay <> 0) as Hnz by (unfold JsDate.msPerDay; lia).
  specialize (H Hnz). lia.
Qed.

(** Adding [k] to the day of the month moves the local time by [k] days. *)
Lemma setDate_getDate_plus (t k : Z) :
  JsDate.setDate tz t (JsDate.getDate tz t + k)
  = JsDate.UTC tz (JsDate.LocalTime tz t + k * JsDate.msPerDay).
Proof.
  unfold JsDate.setDate, JsDate.getDate. cbv zeta. now rewrite MakeDay_next.
Qed.

End DateRangeFacts.

Lemma oneOf_false_sub (x : string) (l l' : list string) :
  oneOf x l = false -> (forall y, In y l' -> In y l) -> oneOf x l' = false.
Proof.
  unfold oneOf. intros H Hsub.
  destruct (existsb (String.eqb x) l') eqn:E; [|reflexivity].
  apply existsb_exists in E. destruct E as [y [Hy Hxy]].
  assert (existsb (String.eqb x) l = true) as H'.
  { apply existsb_exists. exists y. split; [now apply Hsub | exact Hxy]. }
  congruence.
Qed.

(** C7, as amended. [calculateDateRange('today')] at the instant [T] returns
    as [startDate] the instant [T] truncated to local midnight, as [endDate]
    the instant one calendar day later in local time, and the description
    ['today']. [endDate] is [startDate] plus 24 hours whenever the zone has
    the same offset from UTC at both instants, as in every zone with a fixed
    offset. A preference string that is not among the recognized ones gives
    the result of ['today']. *)
Theorem calculateDateRange_today (tz : JsDate.TimeZone) (T offset : Z) :
  (let r := calculateDateRange tz T "today" in
   startDate r = JsDate.UTC tz (JsDate.MakeDate (JsDate.Day (JsDate.LocalTime tz T)) 0)
   /\ endDate r = JsDate.UTC tz (JsDate.LocalTime tz (startDate r) + JsDate.msPerDay)%Z
   /\ description r = "today"
   /\ (JsDate.LocalTime tz (startDate r) = (startDate r + offset)%Z ->
       JsDate.UTC tz (startDate r + offset + JsDate.msPerDay)%Z
       = (startDate r + JsDate.msPerDay)%Z ->
       endDate r = (startDate r + 24 * 60 * 60 * 1000)%Z))
  /\ (let r := calculateDateRange (JsDate.fixedOffset offset) T "today" in
      startDate r = (T - (T + offset) mod JsDate.msPerDay)%Z
      /\ endDate r = (startDate r + 24 * 60 * 60 * 1000)%Z)
  /\ (forall other : string,
        oneOf other recognizedRanges = false ->
        calculateDateRange tz T other = calculateDateRange tz T "today").
Proof.
  split; [|split].
  - cbv zeta. unfold calculateDateRange. simpl oneOf. cbv iota.
    cbn [startDate endDate description].
    split; [reflexivity|].
    assert (JsDate.setDate tz (JsDate.setHoursZero tz T)
              (JsDate.getDate tz (JsDate.setHoursZero tz T) + 1)
            = JsDate.UTC tz
                (JsDate.LocalTime tz (JsDate.setHoursZero tz T) + JsDate.msPerDay)%Z)
      as Hend by now rewrite setDate_getDate_plus.
    split; [exact Hend|]. split; [reflexivity|].
    intros Hlocal Hutc. rewrite Hend, Hlocal, Hutc. reflexivity.
  - cbv zeta. unfold calculateDateRange. simpl oneOf. cbv iota.
    cbn [startDate endDate].
    rewrite setDate_getDate_plus.
    unfold JsDate.setHoursZero, JsDate.fixedOffset, JsDate.MakeDate, JsDate.Day.
    cbn [JsDate.LocalTime JsDate.UTC].
    pose proof (Z.div_mod (T + offset) JsDate.msPerDay) as H.
    assert (JsDate.msPerDay <> 0)%Z as Hnz by (unfold JsDate.msPerDay; lia).
    specialize (H Hnz). unfold JsDate.msPerDay in *. split; lia.
  - intros other H. unfold calculateDateRange.
    rewrite !(oneOf_false_sub other recognizedRanges _ H);
      try (intros y Hy; simpl in Hy |- *; intuition auto).
    reflexivity.
Qed.

(** At noon UTC on 13 March 2023 in US Central time: an unrecognized string
    gives the result of ['today'], and the window is 24 hours long, the zone
    keeping UTC-5 at both ends. *)
Lemma calculateDateRange_today_witness :
  (oneOf "invalid_range" recognizedRanges = false
   /\ calculateDateRange centralTime2023 1678708800000 "invalid_range"
      = calculateDateRange centralTime2023 1678708800000 "today")
  /\ endDate (calculateDateRange centralTime2023 1678708800000 "today")
     = (startDate (calculateDateRange centralTime2023 1678708800000 "today")
        + 24 * 60 * 60 * 1000)%Z.
Proof.
  split.
  - split; [reflexivity|].
    apply (proj2 (proj2 (calculateDateRange_today centralTime2023 1678708800000 0))).
    reflexivity.
  - apply (proj2 (proj2 (proj2 (proj1
             (calculateDateRange_today centralTime2023 1678708800000 (-18000000)))))).
    + reflexivity.
    + reflexivity.
Defined.

(** At noon UTC on 12 March 2023 in US Central time, the day the clocks go
    forward, the window of ['today'] runs from 06:00 UTC to 05:00 UTC of the
    next day: 23 hours. *)
Lemma today_window_can_be_23_hours :
  let r := calculateDateRange centralTime2023 1678622400000 "today" in
  startDate r = 1678600800000%Z
  /\ endDate r = 1678683600000%Z
  /\ endDate r <> (startDate r + 24 * 60 * 60 * 1000)%Z.
Proof. vm_compute. repeat split; congruence. Qed.

(** C8. At every instant and in every time zone, ['weekdays'] and
    ['weekdays only'] give the start and end dates of ['today']; only the
    description differs, ['today (weekdays only)'] instead of ['today']. So
    on one calendar the group key of a ['weekdays'] recipient is the group
    key of a ['today'] recipient. *)
Theorem weekdays_range_is_today_range (tz : JsDate.TimeZone) (now : Z) (calendarId : string) :
  let today := calculateDateRange tz now "today" in
  let weekdays := calculateDateRange tz now "weekdays" in
  let weekdaysOnly := calculateDateRange tz now "weekdays only" in
  startDate weekdays = startDate today /\ endDate weekdays = endDate today
  /\ startDate weekdaysOnly = startDate today /\ endDate weekdaysOnly = endDate today
  /\ description today = "today"
  /\ description weekdays = "today (weekdays only)"
  /\ description weekdaysOnly = "today (weekdays only)"
  /\ groupKeyOf calendarId weekdays = groupKeyOf calendarId today
  /\ groupKeyOf calendarId weekdaysOnly = groupKeyOf calendarId today.
Proof. cbv zeta. repeat split. Qed.

(** ** Keyword filter *)

Lemma retained_iff (keywords : list string) (event : CalendarEvent) :
  retained keywords event = true <-> Retained keywords event.
Proof.
  unfold retained, Retained, excludeTokens.
  rewrite andb_true_iff, orb_true_iff, !forallb_forall, Nat.eqb_eq, length_map.
  split; intros [Hinc Hexc]; split.
  - destruct Hinc as [H|H].
    + left. now apply length_zero_iff_nil.
    + right. intros k Hk. apply includes_true_iff, H, in_map, Hk.
  - intros k Hk. apply in_map_iff in Hk. destruct Hk as [k0 [<- Hk0]].
    apply includes_false_iff, negb_true_iff, Hexc.
    apply in_map_iff. now exists k0.
  - destruct Hinc as [H|H].
    + left. now rewrite H.
    + right. intros k Hk. apply in_map_iff in Hk. destruct Hk as [k0 [<- Hk0]].
      apply includes_true_iff, H, Hk0.
  - intros k Hk. apply in_map_iff in Hk. destruct Hk as [k0 [<- Hk0]].
    apply negb_true_iff, includes_false_iff, Hexc, in_map, Hk0.
Qed.

Lemma filterEventsByKeywords_filter (events : list CalendarEvent) (keywords : list string) :
  filterEventsByKeywords events (Some keywords) = filter (retained keywords) events.
Proof.
  destruct keywords as [|k keywords].
  - simpl. induction events as [|e events IH]; [reflexivity|].
    simpl. now rewrite <- IH.
  - reflexivity.
Qed.

Lemma toLowerCase_substring1 (k : string) :
  Str.toLowerCase (Str.substring1 k) = Str.substring1 (Str.toLowerCase k).
Proof. now destruct k. Qed.

Lemma Retained_as_written (keywords : list string) (event : CalendarEvent) :
  (forall k, In k keywords -> Str.toLowerCase k = k) ->
  (Retained keywords event <-> RetainedAsWritten keywords event).
Proof.
  intros Hlow.
  assert (forall k, In k (includeTokens keywords) -> Str.toLowerCase k = k) as Hinc.
  { intros k Hk. apply Hlow. unfold includeTokens in Hk. now apply filter_In in Hk. }
  assert (forall k, In k (excludeTokens keywords) -> Str.toLowerCase k = k) as Hexc.
  { intros k Hk. unfold excludeTokens in Hk. apply in_map_iff in Hk.
    destruct Hk as [k0 [<- Hk0]]. apply filter_In in Hk0. destruct Hk0 as [Hk0 _].
    rewrite toLowerCase_substring1. now rewrite (Hlow k0 Hk0). }
  unfold Retained, RetainedAsWritten. split; intros [H1 H2]; split.
  - destruct H1 as [H1|H1]; [now left | right].
    intros k Hk. rewrite <- (Hinc k Hk). now apply H1.
  - intros k Hk. rewrite <- (Hexc k Hk). now apply H2.
  - destruct H1 as [H1|H1]; [now left | right].
    intros k Hk. rewrite (Hinc k Hk). now apply H1.
  - intros k Hk. rewrite (Hexc k Hk). now apply H2.
Qed.

(** C6, as amended. [filterEventsByKeywords] keeps, in order, the events
    for which the include tokens (those without a leading ['-']) are none, or
    are each, once lower-cased, a substring of the lower-cased text "title
    description location"; and of which no exclude token (leading ['-']
    stripped), once lower-cased, is a substring. For tokens that are already
    lower-case this is the rule as the specification words it. An empty or
    absent keyword list returns the events unchanged. *)
Theorem filterEventsByKeywords_retains
    (events : list CalendarEvent) (keywords : list string) :
  filterEventsByKeywords events (Some keywords) = filter (retained keywords) events
  /\ (forall event, retained keywords event = true <-> Retained keywords event)
  /\ (forall event,
        In event (filterEventsByKeywords events (Some keywords))
        <-> In event events /\ Retained keywords event)
  /\ ((forall k, In k keywords -> Str.toLowerCase k = k) ->
      forall event,
        In event (filterEventsByKeywords events (Some keywords))
        <-> In event events /\ RetainedAsWritten keywords event)
  /\ filterEventsByKeywords events (Some []) = events
  /\ filterEventsByKeywords events None = events.
Proof.
  split; [apply filterEventsByKeywords_filter|].
  split; [intros event; apply retained_iff|].
  split; [|split; [|split; reflexivity]].
  - intros event. rewrite filterEventsByKeywords_filter, filter_In, retained_iff.
    reflexivity.
  - intros Hlow event.
    rewrite filterEventsByKeywords_filter, filter_In, retained_iff.
    now rewrite (Retained_as_written keywords event Hlow).
Qed.

(** With the lower-case tokens ['important'] and ['-cancelled'], the rule
    as written decides which events are kept. *)
Lemma filterEventsByKeywords_retains_witness :
  (forall k, In k ["important"; "-cancelled"] -> Str.toLowerCase k = k)
  /\ (In importantMeeting
         (filterEventsByKeywords [importantMeeting; standup]
            (Some ["important"; "-cancelled"]))
      <-> In importantMeeting [importantMeeting; standup]
          /\ RetainedAsWritten ["important"; "-cancelled"] importantMeeting).
Proof.
  assert (forall k, In k ["important"; "-cancelled"] -> Str.toLowerCase k = k) as Hlow.
  { intros k [<-|[<-|[]]]; reflexivity. }
  split; [exact Hlow|].
  apply (proj1 (proj2 (proj2 (proj2
           (filterEventsByKeywords_retains [importantMeeting; standup]
              ["important"; "-cancelled"])))) Hlow importantMeeting).
Defined.

(** The token ['IMPORTANT'] keeps the event titled "IMPORTANT Meeting",
    although it is no substring of the lower-cased text. *)
Lemma upper_case_token_is_matched :
  In importantMeeting (filterEventsByKeywords [importantMeeting] (Some ["IMPORTANT"]))
  /\ ~ RetainedAsWritten ["IMPORTANT"] importantMeeting.
Proof.
  split; [left; reflexivity|].
  intros [[H|H] _]; [discriminate|].
  specialize (H "IMPORTANT" (or_introl eq_refl)).
  apply includes_true_iff in H. discriminate.
Qed.

(** ** Regular expressions: the matcher decides the language *)

Module RegExpFacts.
Import RegExp.

Lemma nullable_lang (r : regex) : nullable r = true <-> lang r [].
Proof.
  induction r as [| |p|a IHa b IHb|a IHa b IHb|a IHa]; simpl.
  - split; [discriminate | intros H; inversion H].
  - split; [constructor | reflexivity].
  - split; [discriminate | intros H; inversion H].
  - rewrite andb_true_iff, IHa, IHb. split.
    + intros [Ha Hb]. change (@nil ascii) with (@nil ascii ++ []). now constructor.
    + intros H. inversion H; subst.
      match goal with
      | E : _ ++ _ = [] |- _ => apply app_eq_nil in E; destruct E; subst
      end.
      now split.
  - rewrite orb_true_iff, IHa, IHb. split.
    + intros [H|H]; [now apply LAltL | now apply LAltR].
    + intros H. inversion H; subst; [now left | now right].
  - split; [constructor | reflexivity].
Qed.

Lemma star_app (a : regex) (u v : list ascii) :
  lang a u -> lang (Star a) v -> lang (Star a) (u ++ v).
Proof.
  intros Hu Hv. destruct u as [|c u]; [exact Hv | now apply LStarCons].
Qed.

Lemma deriv_lang (r : regex) (c : ascii) (w : list ascii) :
  lang (deriv c r) w <-> lang r (c :: w).
Proof.
  revert w. induction r as [| |p|a IHa b IHb|a IHa b IHb|a IHa]; intros w; simpl.
  - split; intros H; inversion H.
  - split; intros H; inversion H.
  - destruct (p c) eqn:E.
    + split; intros H; inversion H; subst; [now constructor | constructor].
    + split; intros H; inversion H; subst; congruence.
  - assert (forall w, lang (Seq (deriv c a) b) w ->
                      lang (Seq a b) (c :: w)) as Hfwd.
    { intros w' H. inversion H; subst.
      match goal with
      | Hu : lang (deriv c a) ?u, Hv : lang b ?v |- _ =>
          apply IHa in Hu; change (c :: u ++ v) with ((c :: u) ++ v);
          now constructor
      end. }
    assert (forall w, lang (Seq a b) (c :: w) ->
                      lang (Seq (deriv c a) b) w
                      \/ (lang a [] /\ lang b (c :: w))) as Hbwd.
    { intros w' H. inversion H; subst.
      match goal with
      | Hu : lang a ?u, Hv : lang b ?v, Heq : ?u ++ ?v = c :: w' |- _ =>
          destruct u as [|d u]; simpl in Heq;
          [ right; subst v; now split
          | inversion Heq; subst; left; constructor;
            [now apply IHa | exact Hv] ]
      end. }
    destruct (nullable a) eqn:E.
    + split.
      * intros H. inversion H; subst.
        -- now apply Hfwd.
        -- apply nullable_lang in E.
           change (c :: w) with ([] ++ c :: w). constructor; [exact E | now apply IHb].
      * intros H. apply Hbwd in H. destruct H as [H|[_ H]].
        -- now apply LAltL.
        -- apply LAltR. now apply IHb.
    + split.
      * apply Hfwd.
      * intros H. apply Hbwd in H. destruct H as [H|[H _]]; [exact H|].
        apply nullable_lang in H. congruence.
  - split; intros H; inversion H; subst.
    + apply LAltL. now apply IHa.
    + apply LAltR. now apply IHb.
    + apply LAltL. now apply IHa.
    + apply LAltR. now apply IHb.
  - split.
    + intros H. inversion H; subst.
      match goal with
      | Hu : lang (deriv c a) ?u, Hv : lang (Star a) ?v |- _ =>
          apply IHa in Hu; change (c :: u ++ v) with ((c :: u) ++ v);
          now constructor
      end.
    + intros H. inversion H; subst.
      match goal with
      | Hu : lang a (c :: ?u), Hv : lang (Star a) ?v |- _ =>
          constructor; [now apply IHa | exact Hv]
      end.
Qed.

Lemma matches_lang (r : regex) (s : string) :
  matches r s = true <-> lang r (list_ascii_of_string s).
Proof.
  revert r. induction s as [|c s IH]; intros r; simpl.
  - apply nullable_lang.
  - rewrite IH. apply deriv_lang.
Qed.

End RegExpFacts.

Lemma list_of_append (a b : string) :
  list_ascii_of_string (a ++ b)%string
  = list_ascii_of_string a ++ list_ascii_of_string b.
Proof. induction a as [|c a IH]; simpl; [reflexivity | now rewrite IH]. Qed.

Module ValidationFacts.
Import RegExp RegExpFacts Validation.

Lemma lang_within (allowed : ascii -> bool) (r : regex) (w : list ascii) :
  classesWithin allowed r -> lang r w -> Forall (fun c => allowed c = true) w.
Proof.
  intros Hr Hw. induction Hw; simpl in Hr.
  - constructor.
  - constructor; [now apply Hr | constructor].
  - apply Forall_app. split; [apply IHHw1 | apply IHHw2]; tauto.
  - apply IHHw; tauto.
  - apply IHHw; tauto.
  - constructor.
  - apply Forall_app. split; [apply IHHw1 | apply IHHw2]; tauto.
Qed.

Lemma alnum_address c : Str.isAlnum c = true -> addressChar c = true.
Proof. unfold addressChar, localChar. now intros ->. Qed.

Lemma letter_address c : Str.isLetter c = true -> addressChar c = true.
Proof. intros H. apply alnum_address. unfold Str.isAlnum. now rewrite H. Qed.

Lemma emailRegex_within : classesWithin addressChar emailRegex.
Proof.
  unfold emailRegex, opt, alnum, chr. cbn [classesWithin].
  repeat split; intros c H;
    try (now apply alnum_address); try (now apply letter_address).
  - unfold addressChar. now rewrite H.
  - apply Ascii.eqb_eq in H. now subst c.
  - unfold addressChar, localChar, domainChar in *.
    apply orb_true_iff in H. destruct H as [H|H].
    + apply orb_true_iff in H. destruct H as [H|H].
      * now rewrite H.
      * rewrite H. now rewrite !orb_true_r.
    + rewrite H. now rewrite !orb_true_r.
  - apply Ascii.eqb_eq in H. now subst c.
Qed.

Lemma emailRegex_chars (s : string) :
  matches emailRegex s = true ->
  Forall (fun c => addressChar c = true) (list_ascii_of_string s).
Proof.
  intros H. apply matches_lang in H.
  exact (lang_within addressChar emailRegex _ emailRegex_within H).
Qed.

(** An address never holds a comma. *)
Lemma emailRegex_no_comma (s : string) :
  Substring "," s -> matches emailRegex s = false.
Proof.
  intros [before [after ->]].
  destruct (matches emailRegex (before ++ "," ++ after)) eqn:E; [|reflexivity].
  apply emailRegex_chars in E. rewrite list_of_append in E.
  apply Forall_app in E. destruct E as [_ E]. simpl in E.
  inversion E; subst. discriminate.
Qed.

Lemma lang_lit (x : string) (w : list ascii) :
  lang (lit x) w <-> w = list_ascii_of_string x.
Proof.
  revert w. induction x as [|c x IH]; intros w; simpl.
  - split; intros H; [now inversion H | subst; constructor].
  - split.
    + intros H. inversion H; subst.
      match goal with
      | Hc : lang (chr c) _, Hx : lang (lit x) _ |- _ =>
          inversion Hc; subst; apply IH in Hx; subst
      end.
      match goal with
      | Hc : Ascii.eqb c _ = true |- _ => apply Ascii.eqb_eq in Hc; now subst
      end.
    + intros ->. change (c :: list_ascii_of_string x)
        with ([c] ++ list_ascii_of_string x).
      constructor; [constructor; apply Ascii.eqb_refl | now apply IH].
Qed.

Lemma lang_any (w : list ascii) : lang (Star anyChar) w.
Proof.
  induction w as [|c w IH]; [constructor|].
  change (c :: w) with ([c] ++ w). apply LStarCons; [now constructor | exact IH].
Qed.

(** An unanchored literal pattern is a substring test. *)
Lemma search_lit (x s : string) :
  search (lit x) s = true <-> Substring x s.
Proof.
  unfold search. rewrite matches_lang. split.
  - intros H. inversion H; subst.
    match goal with
    | H2 : lang (Seq (lit x) _) _ |- _ => inversion H2; subst
    end.
    match goal with
    | Hx : lang (lit x) _ |- _ => apply lang_lit in Hx; subst
    end.
    match goal with
    | E : ?u ++ _ ++ ?v = list_ascii_of_string s |- _ =>
        exists (string_of_list_ascii u), (string_of_list_ascii v);
        rewrite <- (string_of_list_ascii_of_string s), <- E
    end.
    rewrite <- (string_of_list_ascii_of_string x) at 2.
    clear. 
    assert (forall a b, string_of_list_ascii (a ++ b)
                        = (string_of_list_ascii a ++ string_of_list_ascii b)%string) as Happ.
    { induction a as [|c a IH]; intros b; simpl; [reflexivity | now rewrite IH]. }
    now rewrite !Happ.
  - intros [before [after ->]]. rewrite !list_of_append.
    constructor; [apply lang_any|].
    constructor; [now apply lang_lit | apply lang_any].
Qed.

(** The first argument is refused whenever it holds a doubled dot. *)
Lemma email_doubled_dot_rejected (email calendarId : string) :
  Substring ".." email -> isValid (validateRecipientData email calendarId) = false.
Proof.
  intros H. apply search_lit in H. unfold validateRecipientData, consecutiveDots.
  rewrite H. now rewrite !orb_true_r.
Qed.

End ValidationFacts.

(** C9. The claim asks that a doubled dot be refused in both arguments of
    [validateRecipientData]. The code tests it on the first only: the
    calendar id ["a..b@example.com"] holds a doubled dot and the result is
    valid, without an error; the same string as the email is refused. *)
Theorem calendar_id_doubled_dot_accepted :
  Substring ".." "a..b@example.com"
  /\ Validation.validateRecipientData "user@example.com" "a..b@example.com"
     = Validation.mkValidation true []
  /\ Validation.isValid
       (Validation.validateRecipientData "a..b@example.com" "calendar@gmail.com")
     = false.
Proof.
  split; [now exists "a", "b@example.com" | split; reflexivity].
Qed.

(** C2. The claim asks for N records from a row with N valid calendar ids.
    The code first validates the whole calendar cell as one address: a row
    whose calendar cell holds a comma, as every row with several calendar
    ids does, contributes no record at all. *)
Theorem multi_calendar_row_dropped
    (cols : Configuration.Columns) (row : list string) (calendarId : string) :
  Configuration.cell row (Configuration.calendarIdColumnIndex cols) = Some calendarId ->
  Substring "," calendarId ->
  Configuration.parseRow cols row = [].
Proof.
  intros Hcell Hcomma. unfold Configuration.parseRow. rewrite Hcell.
  destruct (Configuration.cell row (Configuration.emailColumnIndex cols))
    as [recipientEmail|]; [|reflexivity].
  destruct (negb (Str.truthy recipientEmail) || negb (Str.truthy calendarId));
    [reflexivity|].
  assert (Validation.isValid (Validation.validateRecipientData recipientEmail calendarId)
          = false) as ->; [|reflexivity].
  unfold Validation.validateRecipientData.
  rewrite (ValidationFacts.emailRegex_no_comma calendarId Hcomma).
  cbn [negb]. rewrite orb_true_r.
  destruct (negb (Str.truthy recipientEmail) || _ || _); reflexivity.
Qed.

Lemma multi_calendar_row_dropped_witness :
  Configuration.parseRow
    (Configuration.columnsOf ["Recipient Email"; "Calendar ID"])
    ["user@example.com"; "cal1@gmail.com,cal2@gmail.com,cal3@gmail.com"]
  = [].
Proof.
  apply (multi_calendar_row_dropped _ _
           "cal1@gmail.com,cal2@gmail.com,cal3@gmail.com").
  - reflexivity.
  - now exists "cal1@gmail.com", "cal2@gmail.com,cal3@gmail.com".
Defined.

(** The sheet of the repository's own test for several calendars: three
    calendar ids are listed, none yields a record. *)
Lemma multi_calendar_sheet_yields_nothing :
  Configuration.splitCalendarIds "cal1@gmail.com,cal2@gmail.com,cal3@gmail.com"
  = ["cal1@gmail.com"; "cal2@gmail.com"; "cal3@gmail.com"]
  /\ Configuration.parseRecipients multiCalendarSheet = [].
Proof. split; reflexivity. Qed.

(** ** The retry loop *)

Section RetryFacts.
Variable env : Env.
Context {A : Type}.
Variable operation : M State A.
Variable maxRetries : nat.
Variable baseDelay : Z.

Local Abbreviation loop :=
  (Retry.retryLoop sleep (mathRandom env) operation maxRetries baseDelay).
Local Abbreviation counted :=
  (Retry.retryLoop (fun ms => uncounted (sleep ms)) (uncounted (mathRandom env))
     (counting operation) maxRetries baseDelay).

Local Abbreviation slept := (afterBackoff env baseDelay).

(** One iteration of the loop. *)
Lemma loop_step fuel attempt lastError s :
  loop (S fuel) attempt lastError s
  = match operation s with
    | (Returned a, s1) => (Returned a, s1)
    | (Thrown e, s1) =>
        if negb (Retry.isRetryableError e) || (attempt =? maxRetries)
        then (Thrown e, s1)
        else loop fuel (S attempt) e (slept attempt s1)
    end.
Proof.
  simpl. unfold tryCatch.
  destruct (operation s) as [[a|e] s1]; [reflexivity|].
  destruct (negb (Retry.isRetryableError e) || (attempt =? maxRetries)); reflexivity.
Qed.

Lemma counted_step fuel attempt lastError s n :
  counted (S fuel) attempt lastError (s, n)
  = match operation s with
    | (Returned a, s1) => (Returned a, (s1, S n))
    | (Thrown e, s1) =>
        if negb (Retry.isRetryableError e) || (attempt =? maxRetries)
        then (Thrown e, (s1, S n))
        else counted fuel (S attempt) e (slept attempt s1, S n)
    end.
Proof.
  simpl. unfold tryCatch, counting.
  destruct (operation s) as [[a|e] s1]; [reflexivity|].
  destruct (negb (Retry.isRetryableError e) || (attempt =? maxRetries)); reflexivity.
Qed.

Lemma retryLoop_returned fuel attempt lastError s a s1 :
  operation s = (Returned a, s1) ->
  loop (S fuel) attempt lastError s = (Returned a, s1).
Proof. intros H. now rewrite loop_step, H. Qed.

Lemma retryLoop_not_retryable fuel attempt lastError s e s1 :
  operation s = (Thrown e, s1) ->
  Retry.isRetryableError e = false ->
  loop (S fuel) attempt lastError s = (Thrown e, s1).
Proof. intros H He. now rewrite loop_step, H, He. Qed.

Lemma retryLoop_last_attempt fuel lastError s e s1 :
  operation s = (Thrown e, s1) ->
  loop (S fuel) maxRetries lastError s = (Thrown e, s1).
Proof.
  intros H. rewrite loop_step, H, Nat.eqb_refl. now rewrite orb_true_r.
Qed.

Lemma retryLoop_retry fuel attempt lastError s e s1 :
  operation s = (Thrown e, s1) ->
  Retry.isRetryableError e = true ->
  attempt <> maxRetries ->
  loop (S fuel) attempt lastError s = loop fuel (S attempt) e (slept attempt s1).
Proof.
  intros H He Hlt. rewrite loop_step, H, He.
  apply Nat.eqb_neq in Hlt. now rewrite Hlt.
Qed.

(** The counted loop runs as the loop does, and counts beside it. *)
Lemma counted_agrees fuel attempt lastError s n :
  fst (counted fuel attempt lastError (s, n)) = fst (loop fuel attempt lastError s)
  /\ fst (snd (counted fuel attempt lastError (s, n)))
     = snd (loop fuel attempt lastError s).
Proof.
  revert attempt lastError s n. induction fuel as [|fuel IH]; intros.
  - now split.
  - rewrite counted_step, loop_step.
    destruct (operation s) as [[a|e] s1]; [now split|].
    destruct (negb (Retry.isRetryableError e) || (attempt =? maxRetries));
      [now split|].
    apply IH.
Qed.

Lemma counted_bounds fuel attempt lastError s n :
  snd (snd (counted fuel attempt lastError (s, n))) <= n + fuel
  /\ (0 < fuel -> n < snd (snd (counted fuel attempt lastError (s, n)))).
Proof.
  revert attempt lastError s n.
  induction fuel as [|fuel IH]; intros attempt lastError s n.
  - simpl. split; lia.
  - rewrite counted_step.
    destruct (operation s) as [[a|e] s1]; [simpl; split; lia|].
    destruct (negb (Retry.isRetryableError e) || (attempt =? maxRetries));
      [simpl; split; lia|].
    destruct (IH (S attempt) e (slept attempt s1) (S n)) as [IH1 IH2].
    split; [lia|]. intros _. destruct fuel as [|fuel].
    + simpl. lia.
    + specialize (IH2 ltac:(lia)). lia.
Qed.

(** When every invocation fails with a transient error, the operation is
    invoked once per iteration the loop has left, and the loop throws. *)
Lemma counted_exhausts fuel attempt lastError s n :
  (forall s', exists e s'', operation s' = (Thrown e, s'')
                            /\ Retry.isRetryableError e = true) ->
  attempt + fuel = S maxRetries ->
  snd (snd (counted fuel attempt lastError (s, n))) = n + fuel
  /\ (0 < fuel -> exists e s', loop fuel attempt lastError s = (Thrown e, s')
                               /\ Retry.isRetryableError e = true).
Proof.
  intros Hfail. revert attempt lastError s n.
  induction fuel as [|fuel IH]; intros attempt lastError s n Hsum.
  - split; [simpl; lia | lia].
  - rewrite counted_step, loop_step.
    destruct (Hfail s) as [e [s1 [Hop He]]]. rewrite Hop, He. cbn [negb orb].
    destruct (attempt =? maxRetries) eqn:E.
    + apply Nat.eqb_eq in E. assert (fuel = 0) as -> by lia.
      split; [simpl; lia|]. intros _. now exists e, s1.
    + apply Nat.eqb_neq in E.
      destruct (IH (S attempt) e (slept attempt s1) (S n) ltac:(lia)) as [IH1 IH2].
      split; [lia|]. intros _. apply IH2. lia.
Qed.

End RetryFacts.

Lemma backoffDelay_bounds (baseDelay : Z) (attempt : nat) (rnd : Q) :
  (0 <= rnd)%Q -> (rnd < 1)%Q ->
  (inject_Z (baseDelay * 2 ^ Z.of_nat attempt) <= Retry.backoffDelay baseDelay attempt rnd)%Q
  /\ (Retry.backoffDelay baseDelay attempt rnd
      < inject_Z (baseDelay * 2 ^ Z.of_nat attempt) + 1000)%Q.
Proof.
  intros H0 H1. unfold Retry.backoffDelay.
  set (b := inject_Z (baseDelay * 2 ^ Z.of_nat attempt)).
  split.
  - rewrite <- (Qplus_0_r b) at 1. apply Qplus_le_r.
    apply Qmult_le_0_compat; [exact H0 | discriminate].
  - apply Qplus_lt_r. 
    setoid_replace (1000:Q) with (1 * 1000)%Q at 2 by reflexivity.
    apply Qmult_lt_compat_r; [reflexivity | exact H1].
Qed.



(** ** Batched sending *)

Lemma bind_returned {St X Y} (m : M St X) (k : X -> M St Y) s a s1 :
  m s = (Returned a, s1) -> bind m k s = k a s1.
Proof. intros H. unfold bind. now rewrite H. Qed.

Lemma bind_thrown {St X Y} (m : M St X) (k : X -> M St Y) s e s1 :
  m s = (Thrown e, s1) -> bind m k s = (Thrown e, s1).
Proof. intros H. unfold bind. now rewrite H. Qed.

Section SendFacts.
Variable env : Env.

Lemma Delivered_refl s : Delivered env s s 0 0 0.
Proof. constructor; lia. Qed.

Lemma Delivered_trans s1 s2 s3 p f x p' f' x' :
  Delivered env s1 s2 p f x -> Delivered env s2 s3 p' f' x' ->
  Delivered env s1 s3 (p + p') (f + f') (x + x').
Proof. intros [] []. constructor; lia. Qed.

(** A retried primary send: accepted once when it returns, never when it
    throws; the tracker is not touched. *)
Lemma retry_gmail to subject body options fuel attempt lastError s :
  let op := gmailSendEmail env to subject body options in
  let r := Retry.retryLoop sleep (mathRandom env) op defaultMaxRetries
             defaultBaseDelay fuel attempt lastError s in
  tracker (snd r) = tracker s
  /\ mailDeliveries env (history (snd r)) = mailDeliveries env (history s)
  /\ gmailDeliveries env (history (snd r))
     = gmailDeliveries env (history s)
       + match fst r with Returned _ => 1 | Thrown _ => 0 end.
Proof.
  cbv zeta. revert attempt lastError s.
  induction fuel as [|fuel IH]; intros attempt lastError s.
  - simpl. repeat split; lia.
  - rewrite loop_step.
    assert (gmailSendEmail env to subject body options s
            = (gmailSend env (history s) to subject body options,
               record (GmailSendEmail to subject body options) s)) as ->
      by reflexivity.
    destruct (gmailSend env (history s) to subject body options) as [[]|e] eqn:E.
    + simpl. rewrite E. repeat split; lia.
    + destruct (negb (Retry.isRetryableError e) || (attempt =? defaultMaxRetries)).
      * simpl. rewrite E. repeat split; lia.
      * specialize (IH (S attempt) e
          (afterBackoff env defaultBaseDelay attempt
             (record (GmailSendEmail to subject body options) s))).
        destruct IH as [IH1 [IH2 IH3]].
        rewrite IH1, IH2, IH3. simpl. rewrite E. repeat split; lia.
Qed.

Lemma retry_mail to subject body fuel attempt lastError s :
  let op := mailSendEmail env to subject body in
  let r := Retry.retryLoop sleep (mathRandom env) op defaultMaxRetries
             defaultBaseDelay fuel attempt lastError s in
  tracker (snd r) = tracker s
  /\ gmailDeliveries env (history (snd r)) = gmailDeliveries env (history s)
  /\ mailDeliveries env (history (snd r))
     = mailDeliveries env (history s)
       + match fst r with Returned _ => 1 | Thrown _ => 0 end.
Proof.
  cbv zeta. revert attempt lastError s.
  induction fuel as [|fuel IH]; intros attempt lastError s.
  - simpl. repeat split; lia.
  - rewrite loop_step.
    assert (mailSendEmail env to subject body s
            = (mailSend env (history s) to subject body,
               record (MailSendEmail to subject body) s)) as ->
      by reflexivity.
    destruct (mailSend env (history s) to subject body) as [[]|e] eqn:E.
    + simpl. rewrite E. repeat split; lia.
    + destruct (negb (Retry.isRetryableError e) || (attempt =? defaultMaxRetries)).
      * simpl. rewrite E. repeat split; lia.
      * specialize (IH (S attempt) e
          (afterBackoff env defaultBaseDelay attempt
             (record (MailSendEmail to subject body) s))).
        destruct IH as [IH1 [IH2 IH3]].
        rewrite IH1, IH2, IH3. simpl. rewrite E. repeat split; lia.
Qed.

Lemma sendPrimary_effect emailData s :
  let r := sendPrimary env emailData s in
  tracker (snd r) = tracker s
  /\ mailDeliveries env (history (snd r)) = mailDeliveries env (history s)
  /\ gmailDeliveries env (history (snd r))
     = gmailDeliveries env (history s)
       + match fst r with Returned _ => 1 | Thrown _ => 0 end.
Proof. apply retry_gmail. Qed.

Lemma sendFallback_effect emailData s :
  let r := sendFallback env emailData s in
  tracker (snd r) = tracker s
  /\ gmailDeliveries env (history (snd r)) = gmailDeliveries env (history s)
  /\ mailDeliveries env (history (snd r))
     = mailDeliveries env (history s)
       + match fst r with Returned _ => 1 | Thrown _ => 0 end.
Proof. apply retry_mail. Qed.

(** The three ways one message can go. *)
Lemma sendOne_cases emailData s :
  match sendPrimary env emailData s with
  | (Returned _, s1) =>
      sendOne env emailData s = incrementEmailsSent s1
  | (Thrown e, s1) =>
      match sendFallback env emailData (afterPrimaryFailure env emailData e s1) with
      | (Returned _, s2) =>
          sendOne env emailData s = incrementEmailsSent s2
      | (Thrown fallbackError, s2) =>
          sendOne env emailData s
          = (incrementEmailsFailed ;;
             addError env fallbackError ("Fallback email to " ++ to emailData)) s2
      end
  end.
Proof.
  destruct (sendPrimary env emailData s) as [[[]|e] s1] eqn:Hp.
  - unfold sendOne, tryCatch, bind. now rewrite Hp.
  - destruct (sendFallback env emailData (afterPrimaryFailure env emailData e s1))
      as [[[]|fe] s2] eqn:Hf.
    + unfold sendOne, tryCatch, bind. rewrite Hp.
      change (addError env e ("Sending email to " ++ to emailData) s1)
        with (@Returned unit tt, afterPrimaryFailure env emailData e s1).
      cbv beta iota. now rewrite Hf.
    + unfold sendOne, tryCatch, bind. rewrite Hp.
      change (addError env e ("Sending email to " ++ to emailData) s1)
        with (@Returned unit tt, afterPrimaryFailure env emailData e s1).
      cbv beta iota. now rewrite Hf.
Qed.

Lemma sendOne_delivered emailData s :
  fst (sendOne env emailData s) = Returned tt
  /\ match sendPrimary env emailData s with
     | (Returned _, _) => Delivered env s (snd (sendOne env emailData s)) 1 0 0
     | (Thrown e, s1) =>
         match sendFallback env emailData (afterPrimaryFailure env emailData e s1) with
         | (Returned _, _) => Delivered env s (snd (sendOne env emailData s)) 0 1 0
         | (Thrown _, _) => Delivered env s (snd (sendOne env emailData s)) 0 0 1
         end
     end.
Proof.
  pose proof (sendOne_cases emailData s) as Hc.
  pose proof (sendPrimary_effect emailData s) as Hp. cbv zeta in Hp.
  destruct (sendPrimary env emailData s) as [[[]|e] s1]; simpl in Hp.
  - rewrite Hc. destruct Hp as [Ht [Hm Hg]].
    split; [reflexivity|]. constructor; unfold metricsOf; simpl; rewrite ?Ht; lia.
  - destruct Hp as [Ht [Hm Hg]].
    pose proof (sendFallback_effect emailData (afterPrimaryFailure env emailData e s1))
      as Hf. cbv zeta in Hf.
    destruct (sendFallback env emailData (afterPrimaryFailure env emailData e s1))
      as [[[]|fe] s2]; simpl in Hf; destruct Hf as [Ht2 [Hg2 Hm2]]; rewrite Hc.
    + split; [reflexivity|].
      constructor; unfold metricsOf; simpl; rewrite ?Ht2; simpl; rewrite ?Ht;
        rewrite ?length_app; simpl; lia.
    + split; [reflexivity|].
      constructor; unfold metricsOf; simpl; rewrite ?Ht2; simpl; rewrite ?Ht;
        rewrite ?length_app; simpl; rewrite ?length_app; simpl; lia.
Qed.

Lemma sendOne_accounts emailData s :
  fst (sendOne env emailData s) = Returned tt
  /\ exists p f x, p + f + x = 1
                   /\ Delivered env s (snd (sendOne env emailData s)) p f x.
Proof.
  destruct (sendOne_delivered emailData s) as [Hr Hd]. split; [exact Hr|].
  destruct (sendPrimary env emailData s) as [[[]|e] s1].
  - now exists 1, 0, 0.
  - destruct (sendFallback env emailData (afterPrimaryFailure env emailData e s1))
      as [[[]|fe] s2].
    + now exists 0, 1, 0.
    + now exists 0, 0, 1.
Qed.

Lemma forEach_sendOne_accounts batch s :
  fst (forEach batch (sendOne env) s) = Returned tt
  /\ exists p f x, p + f + x = List.length batch
                   /\ Delivered env s (snd (forEach batch (sendOne env) s)) p f x.
Proof.
  revert s. induction batch as [|m batch IH]; intros s.
  - split; [reflexivity|]. exists 0, 0, 0. split; [reflexivity | apply Delivered_refl].
  - simpl.
    destruct (sendOne_accounts m s) as [Hr [p [f [x [Hsum Hd]]]]].
    destruct (sendOne env m s) as [r s1] eqn:Hone. simpl in Hr, Hd. subst r.
    rewrite (bind_returned _ _ s tt s1 Hone).
    destruct (IH s1) as [Hr' [p' [f' [x' [Hsum' Hd']]]]].
    split; [exact Hr'|].
    exists (p + p'), (f + f'), (x + x'). split; [lia|].
    eapply Delivered_trans; eassumption.
Qed.

Lemma slice_length {X} (i j : nat) (l : list X) :
  List.length (slice i j l) = Nat.min (j - i) (List.length l - i).
Proof. unfold slice. now rewrite length_firstn, length_skipn. Qed.

Lemma batchLoop_accounts fuel i emailQueue s :
  List.length emailQueue - i <= fuel ->
  fst (batchLoop env fuel i emailQueue s) = Returned tt
  /\ exists p f x, p + f + x = List.length emailQueue - i
                   /\ Delivered env s (snd (batchLoop env fuel i emailQueue s)) p f x.
Proof.
  revert i s. induction fuel as [|fuel IH]; intros i s Hfuel.
  - simpl. split; [reflexivity|]. exists 0, 0, 0. split; [lia | apply Delivered_refl].
  - simpl. destruct (i <? List.length emailQueue) eqn:E.
    + apply Nat.ltb_lt in E.
      destruct (forEach_sendOne_accounts (slice i (i + BATCH_SIZE) emailQueue) s)
        as [Hr [p [f [x [Hsum Hd]]]]].
      destruct (forEach (slice i (i + BATCH_SIZE) emailQueue) (sendOne env) s)
        as [r s1] eqn:Hfe. simpl in Hr, Hd. subst r.
      rewrite slice_length in Hsum.
      rewrite (bind_returned _ _ s tt s1 Hfe).
      assert (exists s2,
                (if i + BATCH_SIZE <? List.length emailQueue
                 then sleep DELAY_BETWEEN_BATCHES else ret tt) s1
                = (Returned tt, s2)
                /\ Delivered env s1 s2 0 0 0) as [s2 [Hs2 Hd2]].
      { destruct (i + BATCH_SIZE <? List.length emailQueue).
        - eexists. split; [reflexivity|]. constructor; unfold metricsOf; simpl; lia.
        - eexists. split; [reflexivity|]. apply Delivered_refl. }
      rewrite (bind_returned _ _ s1 tt s2 Hs2).
      destruct (IH (i + BATCH_SIZE) s2) as [Hr' [p' [f' [x' [Hsum' Hd']]]]].
      { unfold BATCH_SIZE. lia. }
      split; [exact Hr'|].
      exists (p + 0 + p'), (f + 0 + f'), (x + 0 + x'). split.
      * unfold BATCH_SIZE in *. lia.
      * eapply Delivered_trans; [|exact Hd'].
        eapply Delivered_trans; eassumption.
    + apply Nat.ltb_ge in E. split; [reflexivity|].
      exists 0, 0, 0. split; [lia | apply Delivered_refl].
Qed.

End SendFacts.

(** C4, as amended. [sendEmailsBatched] never throws, and every message
    of the queue moves exactly one counter: [emailsSent] when the primary or
    the fallback channel accepts it, [emailsFailed] when neither does. Each
    failure of the primary channel records an error before the fallback is
    tried: a message delivered by the fallback leaves one error record, a
    message that fails on both channels leaves two. Per message, the three
    cases are told apart by what the two retried sends return. *)
Theorem sendEmailsBatched_accounting (env : Env) (emailQueue : list EmailData) (s : State) :
  fst (sendEmailsBatched env emailQueue s) = Returned tt
  /\ (exists viaPrimary viaFallback failed,
        viaPrimary + viaFallback + failed = List.length emailQueue
        /\ Delivered env s (snd (sendEmailsBatched env emailQueue s))
                     viaPrimary viaFallback failed)
  /\ (forall emailData s0,
        fst (sendOne env emailData s0) = Returned tt
        /\ match sendPrimary env emailData s0 with
           | (Returned _, _) =>
               Delivered env s0 (snd (sendOne env emailData s0)) 1 0 0
           | (Thrown e, s1) =>
               match sendFallback env emailData
                       (afterPrimaryFailure env emailData e s1) with
               | (Returned _, _) =>
                   Delivered env s0 (snd (sendOne env emailData s0)) 0 1 0
               | (Thrown _, _) =>
                   Delivered env s0 (snd (sendOne env emailData s0)) 0 0 1
               end
           end).
Proof.
  split; [|split].
  - apply batchLoop_accounts. lia.
  - destruct (batchLoop_accounts env (List.length emailQueue) 0 emailQueue s)
      as [_ [p [f [x [Hsum Hd]]]]]; [lia|].
    exists p, f, x. split; [lia | exact Hd].
  - intros emailData s0. apply sendOne_delivered.
Qed.

(** A message refused by the primary channel and accepted by the fallback
    is counted as sent, and leaves an error record. *)
Lemma fallback_delivery_records_error :
  let s' := snd (sendEmailsBatched demoEnv [mailToFail] initialState) in
  gmailDeliveries demoEnv (history s') = 0
  /\ mailDeliveries demoEnv (history s') = 1
  /\ emailsSent (metricsOf s') = 1
  /\ emailsFailed (metricsOf s') = 0
  /\ map errContext (errors (metricsOf s')) = ["Sending email to fail@example.com"].
Proof. vm_compute. repeat split. Qed.

(** ** The retry counter *)

Section RetriesFacts.
Variable env : Env.

Lemma keeps_ret {A} (a : A) : KeepsRetries (ret a).
Proof. intros s. reflexivity. Qed.

Lemma keeps_throw {A} (e : Error) : KeepsRetries (@throw State A e).
Proof. intros s. reflexivity. Qed.

Lemma keeps_bind {A B} (m : M State A) (k : A -> M State B) :
  KeepsRetries m -> (forall a, KeepsRetries (k a)) -> KeepsRetries (bind m k).
Proof.
  intros Hm Hk s. unfold bind. specialize (Hm s).
  destruct (m s) as [[a|e] s1]; simpl in *; [|exact Hm].
  now rewrite Hk.
Qed.

Lemma keeps_tryCatch {A} (m : M State A) (handler : Error -> M State A) :
  KeepsRetries m -> (forall e, KeepsRetries (handler e)) ->
  KeepsRetries (tryCatch m handler).
Proof.
  intros Hm Hh s. unfold tryCatch. specialize (Hm s).
  destruct (m s) as [[a|e] s1]; simpl in *; [exact Hm|].
  now rewrite Hh.
Qed.

Lemma keeps_forEach {A} (l : list A) (f : A -> M State unit) :
  (forall x, KeepsRetries (f x)) -> KeepsRetries (forEach l f).
Proof.
  intros Hf. induction l as [|x l IH]; simpl.
  - apply keeps_ret.
  - apply keeps_bind; [apply Hf | intros _; exact IH].
Qed.

Lemma keeps_filterM {A} (p : A -> M State bool) (l : list A) :
  (forall x, KeepsRetries (p x)) -> KeepsRetries (filterM p l).
Proof.
  intros Hp. induction l as [|x l IH]; simpl.
  - apply keeps_ret.
  - apply keeps_bind; [apply Hp | intros keep].
    apply keeps_bind; [exact IH | intros rest; apply keeps_ret].
Qed.

Lemma keeps_foldM {A B} (f : B -> A -> M State B) (l : list A) (b : B) :
  (forall b x, KeepsRetries (f b x)) -> KeepsRetries (foldM f l b).
Proof.
  intros Hf. revert b. induction l as [|x l IH]; intros b; simpl.
  - apply keeps_ret.
  - apply keeps_bind; [apply Hf | intros b'; apply IH].
Qed.

(** Calls to the outside world do not reach the tracker. *)
Lemma keeps_newDate : KeepsRetries (newDate env).
Proof. intros s. reflexivity. Qed.

Lemma keeps_mathRandom : KeepsRetries (mathRandom env).
Proof. intros s. reflexivity. Qed.

Lemma keeps_sleep ms : KeepsRetries (sleep ms).
Proof. intros s. reflexivity. Qed.

Lemma keeps_getCalendarById id : KeepsRetries (getCalendarById env id).
Proof. intros s. reflexivity. Qed.

Lemma keeps_getEvents c a b : KeepsRetries (getEvents env c a b).
Proof. intros s. reflexivity. Qed.

Lemma keeps_gmailSendEmail t sb b o : KeepsRetries (gmailSendEmail env t sb b o).
Proof. intros s. reflexivity. Qed.

Lemma keeps_mailSendEmail t sb b : KeepsRetries (mailSendEmail env t sb b).
Proof. intros s. reflexivity. Qed.

Lemma keeps_openConfigSheet i n : KeepsRetries (openConfigSheet env i n).
Proof. intros s. reflexivity. Qed.

(** The tracker methods the pipeline calls. *)
Lemma keeps_incrementCalendars : KeepsRetries incrementCalendars.
Proof. intros s. reflexivity. Qed.

Lemma keeps_addEvents n : KeepsRetries (addEvents n).
Proof. intros s. reflexivity. Qed.

Lemma keeps_incrementEmailsSent : KeepsRetries incrementEmailsSent.
Proof. intros s. reflexivity. Qed.

Lemma keeps_incrementEmailsFailed : KeepsRetries incrementEmailsFailed.
Proof. intros s. reflexivity. Qed.

Lemma keeps_addError e context : KeepsRetries (addError env e context).
Proof. intros s. reflexivity. Qed.

(** Only [incrementRetries] moves the counter. *)
Lemma incrementRetries_moves s :
  retriesOf (snd (incrementRetries s)) = S (retriesOf s).
Proof. reflexivity. Qed.

Lemma keeps_retryLoop {A} (operation : M State A) maxRetries baseDelay
      fuel attempt lastError :
  KeepsRetries operation ->
  KeepsRetries (Retry.retryLoop sleep (mathRandom env) operation maxRetries
                  baseDelay fuel attempt lastError).
Proof.
  intros Hop. revert attempt lastError.
  induction fuel as [|fuel IH]; intros attempt lastError; simpl.
  - apply keeps_throw.
  - apply keeps_tryCatch; [exact Hop | intros e].
    destruct (negb (Retry.isRetryableError e) || (attempt =? maxRetries)).
    + apply keeps_throw.
    + apply keeps_bind; [apply keeps_mathRandom | intros rnd].
      apply keeps_bind; [apply keeps_sleep | intros _; apply IH].
Qed.

Lemma keeps_retryOperation {A} (operation : M State A) maxRetries baseDelay :
  KeepsRetries operation ->
  KeepsRetries (retryOperation env operation maxRetries baseDelay).
Proof. apply keeps_retryLoop. Qed.

Lemma keeps_fetchGroup group : KeepsRetries (fetchGroup env group).
Proof.
  unfold fetchGroup. apply keeps_tryCatch.
  - apply keeps_bind.
    + apply keeps_retryOperation. unfold lookupCalendar.
      apply keeps_bind; [apply keeps_getCalendarById | intros [c|]].
      * apply keeps_ret.
      * apply keeps_throw.
    + intros c. apply keeps_bind.
      * apply keeps_retryOperation, keeps_getEvents.
      * intros evs. apply keeps_bind; [apply keeps_incrementCalendars | intros _].
        apply keeps_bind; [apply keeps_addEvents | intros _; apply keeps_ret].
  - intros e. apply keeps_bind; [apply keeps_addError | intros _; apply keeps_ret].
Qed.

Lemma keeps_fetchCalendarDataBatched recipients :
  KeepsRetries (fetchCalendarDataBatched env recipients).
Proof.
  unfold fetchCalendarDataBatched.
  apply keeps_bind.
  - apply keeps_filterM. intros r. unfold isActive.
    apply keeps_bind; [apply keeps_newDate | intros t; apply keeps_ret].
  - intros active. apply keeps_bind.
    + apply keeps_foldM. intros groups r. unfold addToGroup.
      apply keeps_bind; [apply keeps_newDate | intros t; apply keeps_ret].
    + intros groups. apply keeps_foldM. intros cache [k g].
      apply keeps_bind; [apply keeps_fetchGroup | intros d; apply keeps_ret].
Qed.

Lemma keeps_sendOne emailData : KeepsRetries (sendOne env emailData).
Proof.
  unfold sendOne. apply keeps_tryCatch.
  - apply keeps_bind.
    + apply keeps_retryOperation, keeps_gmailSendEmail.
    + intros _. apply keeps_incrementEmailsSent.
  - intros e. apply keeps_bind; [apply keeps_addError | intros _].
    apply keeps_tryCatch.
    + apply keeps_bind.
      * apply keeps_retryOperation, keeps_mailSendEmail.
      * intros _. apply keeps_incrementEmailsSent.
    + intros fe. apply keeps_bind; [apply keeps_incrementEmailsFailed | intros _].
      apply keeps_addError.
Qed.

Lemma keeps_sendEmailsBatched emailQueue :
  KeepsRetries (sendEmailsBatched env emailQueue).
Proof.
  unfold sendEmailsBatched. generalize (List.length emailQueue) at 1. intros fuel.
  generalize 0. induction fuel as [|fuel IH]; intros i; simpl.
  - apply keeps_ret.
  - destruct (i <? List.length emailQueue); [|apply keeps_ret].
    apply keeps_bind; [apply keeps_forEach, keeps_sendOne | intros _].
    apply keeps_bind; [|intros _; apply IH].
    destruct (i + BATCH_SIZE <? List.length emailQueue);
      [apply keeps_sleep | apply keeps_ret].
Qed.

Lemma keeps_loadConfiguration : KeepsRetries (loadConfiguration env).
Proof.
  unfold loadConfiguration.
  destruct (negb (Str.truthy (orDefault (configGet env "SPREADSHEET_ID") "")));
    [apply keeps_throw|].
  apply keeps_bind.
  - apply keeps_tryCatch.
    + apply keeps_bind; [apply keeps_openConfigSheet | intros [data|]].
      * apply keeps_ret.
      * apply keeps_throw.
    + intros e. apply keeps_bind; [apply keeps_mailSendEmail | intros _; apply keeps_ret].
  - intros [configData|]; [|apply keeps_ret].
    destruct (List.length configData <? 2); [apply keeps_ret|].
    destruct (_ || _).
    + apply keeps_bind; [apply keeps_mailSendEmail | intros _; apply keeps_ret].
    + apply keeps_ret.
Qed.

Lemma keeps_mainExecution : KeepsRetries (mainExecution env).
Proof.
  unfold mainExecution.
  apply keeps_bind; [apply keeps_loadConfiguration | intros [config|]].
  - apply keeps_bind; [apply keeps_fetchCalendarDataBatched | intros calendarData].
    apply keeps_bind; [|intros _; apply keeps_ret].
    destruct (0 <? _); [apply keeps_sendEmailsBatched | apply keeps_ret].
  - apply keeps_bind; [apply keeps_addError | intros _; apply keeps_ret].
Qed.

End RetriesFacts.

Lemma append_assoc (a b c : string) :
  ((a ++ b) ++ c = a ++ (b ++ c))%string.
Proof. induction a as [|x a IH]; simpl; [reflexivity | now rewrite IH]. Qed.

Lemma Substring_app_r (x a b : string) :
  Substring x b -> Substring x (a ++ b).
Proof.
  intros [before [after ->]]. exists (a ++ before)%string, after.
  now rewrite append_assoc.
Qed.

Lemma Substring_app_l (x a b : string) :
  Substring x a -> Substring x (a ++ b).
Proof.
  intros [before [after ->]]. exists before, (after ++ b)%string.
  now rewrite !append_assoc.
Qed.

Lemma report_shows_zero_retries (summary : ExecutionSummary) :
  retriesPerformed (summaryMetrics summary) = 0 ->
  Substring retriesLineZero (generateAdminSummary summary).
Proof.
  intros H. unfold generateAdminSummary. cbv zeta. rewrite H.
  do 8 apply Substring_app_r. apply Substring_app_l.
  exists EmptyString, Str.nl. reflexivity.
Qed.

Section RunFacts.
Variable env : Env.

Lemma guarded_main_returns s :
  exists goOn,
    fst (tryCatch (mainExecution env)
           (fun error => addError env error "Main execution" ;; ret true) s)
    = Returned goOn.
Proof.
  unfold tryCatch. destruct (mainExecution env s) as [[b|e] s1].
  - now exists b.
  - now exists true.
Qed.

Lemma keeps_guarded_main :
  KeepsRetries
    (tryCatch (mainExecution env)
       (fun error => addError env error "Main execution" ;; ret true)).
Proof.
  apply keeps_tryCatch; [apply keeps_mainExecution | intros e].
  apply keeps_bind; [apply keeps_addError | intros _; apply keeps_ret].
Qed.

End RunFacts.

(** C10. After every run of [sendDailyEventSummary] the retry counter of
    the tracker is 0. When the run reaches the report, the summary it is
    built from has [retriesPerformed = 0], the report holds the line
    "Retries Performed: 0", and the last call of the run is
    [MailApp.sendEmail] with that report. No computation of the pipeline moves the
    counter; only [incrementRetries], which nothing calls, would. *)
Theorem retries_counter_stays_zero (env : Env) (s0 : State) :
  let r := sendDailyEventSummary env s0 in
  retriesOf (snd r) = 0
  /\ (fst r = Returned None
      \/ exists summary,
           fst r = Returned (Some summary)
           /\ retriesPerformed (summaryMetrics summary) = 0
           /\ Substring retriesLineZero (generateAdminSummary summary)
           /\ hd_error (history (snd r))
              = Some (MailSendEmail (activeUserEmail env) (reportSubject summary)
                                    (generateAdminSummary summary))).
Proof.
  cbv zeta. unfold sendDailyEventSummary.
  set (s1 := snd (newExecutionTracker env s0)).
  rewrite (bind_returned (newExecutionTracker env) _ s0 tt s1 eq_refl).
  rewrite (bind_returned (newDate env) _ s1 _ (record NewDate s1) eq_refl).
  set (guarded := tryCatch (mainExecution env) _).
  destruct (guarded_main_returns env (record NewDate s1)) as [goOn Hgo].
  pose proof (keeps_guarded_main env (record NewDate s1)) as Hkeep.
  fold guarded in Hgo, Hkeep.
  destruct (guarded (record NewDate s1)) as [r3 s3] eqn:Hg.
  simpl in Hgo, Hkeep. subst r3.
  rewrite (bind_returned _ _ _ goOn s3 Hg).
  assert (retriesOf s3 = 0) as H3 by (rewrite Hkeep; reflexivity).
  destruct goOn.
  - unfold getSummary, getExecutionTime.
    unfold bind, tryCatch, newDate, mailSendEmail. simpl.
    destruct (mailSend env _ _ _ _); simpl.
    + split; [exact H3|]. right. eexists. split; [reflexivity|].
      split; [exact H3|]. split; [|reflexivity].
      apply report_shows_zero_retries. exact H3.
    + split; [exact H3|]. right. eexists. split; [reflexivity|].
      split; [exact H3|]. split; [|reflexivity].
      apply report_shows_zero_retries. exact H3.
  - split; [exact H3 | now left].
Qed.

(** A run in which calls were retried: the backoff slept three times, and
    the counter shows none. *)
Lemma retries_happen_uncounted :
  let s' := snd (fetchCalendarDataBatched demoEnv
                   [mkRecipient "fl@example.com" "flaky@example.com"
                                noPreferences false 0 1]
                   initialState) in
  List.length
    (filter (fun c => match c with UtilitiesSleep _ => true | _ => false end)
            (history s')) = 3
  /\ retriesOf s' = 0.
Proof. vm_compute. split; reflexivity. Qed.

(** ** Objects used as maps *)

Module ObjFacts.
Section Facts.
Context {V : Type}.
Implicit Types (o : Obj.t V) (k : string) (v : V).

Lemma get_set_same k v o : Obj.get k (Obj.set k v o) = Some v.
Proof.
  induction o as [|[k' v'] o IH]; simpl.
  - now rewrite String.eqb_refl.
  - destruct (String.eqb k k') eqn:E; simpl; rewrite E; [reflexivity | exact IH].
Qed.

Lemma get_set_other k k' v o :
  k' <> k -> Obj.get k' (Obj.set k v o) = Obj.get k' o.
Proof.
  intros Hne. induction o as [|[k0 v0] o IH]; simpl.
  - apply String.eqb_neq in Hne. now rewrite Hne.
  - destruct (String.eqb k k0) eqn:E; simpl.
    + apply String.eqb_eq in E. subst k0.
      apply String.eqb_neq in Hne. now rewrite Hne.
    + now rewrite IH.
Qed.

Lemma has_true k o : Obj.has k o = true <-> In k (Obj.keys o).
Proof.
  unfold Obj.has, Obj.keys. induction o as [|[k0 v0] o IH]; simpl.
  - split; [discriminate | tauto].
  - destruct (String.eqb k k0) eqn:E.
    + apply String.eqb_eq in E. subst. split; auto.
    + apply String.eqb_neq in E. rewrite IH. split; [auto|].
      intros [H|H]; [congruence | exact H].
Qed.

Lemma has_false k o : Obj.has k o = false <-> ~ In k (Obj.keys o).
Proof.
  rewrite <- has_true. destruct (Obj.has k o).
  - split; [discriminate | intros H; exfalso; now apply H].
  - split; [intros _ H; discriminate | reflexivity].
Qed.

Lemma keys_set k v o :
  Obj.keys (Obj.set k v o)
  = if Obj.has k o then Obj.keys o else Obj.keys o ++ [k].
Proof.
  unfold Obj.has, Obj.keys. induction o as [|[k0 v0] o IH]; simpl.
  - reflexivity.
  - destruct (String.eqb k k0) eqn:E; simpl; [reflexivity|].
    rewrite IH. now destruct (Obj.get k o).
Qed.

Lemma get_in k v o : Obj.get k o = Some v -> In (k, v) o.
Proof.
  induction o as [|[k0 v0] o IH]; simpl; [discriminate|].
  destruct (String.eqb k k0) eqn:E.
  - apply String.eqb_eq in E. subst. intros H. inversion H. now left.
  - intros H. right. now apply IH.
Qed.

Lemma in_get k v o : NoDup (Obj.keys o) -> In (k, v) o -> Obj.get k o = Some v.
Proof.
  unfold Obj.keys. induction o as [|[k0 v0] o IH]; simpl; [tauto|].
  intros Hnd [H|H].
  - inversion H; subst. now rewrite String.eqb_refl.
  - inversion Hnd; subst. destruct (String.eqb k k0) eqn:E.
    + apply String.eqb_eq in E. subst. exfalso.
      match goal with Hn : ~ In _ _ |- _ => apply Hn end.
      change k0 with (fst (k0, v)). now apply in_map.
    + now apply IH.
Qed.

Lemma set_NoDup k v o : NoDup (Obj.keys o) -> NoDup (Obj.keys (Obj.set k v o)).
Proof.
  intros H. rewrite keys_set. destruct (Obj.has k o) eqn:E; [exact H|].
  apply has_false in E. apply NoDup_app_remove_l with (l := []).
  simpl. apply Permutation_NoDup with (l := k :: Obj.keys o).
  - apply Permutation_cons_append.
  - now constructor.
Qed.

Lemma get_none k o : Obj.get k o = None <-> ~ In k (Obj.keys o).
Proof.
  rewrite <- has_false. unfold Obj.has. destruct (Obj.get k o); split;
    intros H; congruence.
Qed.

End Facts.
End ObjFacts.

(** A loop keeps what it establishes at every step. *)
Lemma fold_left_invariant {X Y} (f : Y -> X -> Y) (P : list X -> Y -> Prop)
      (l : list X) (init : Y) :
  P [] init ->
  (forall visited x acc, P visited acc -> P (visited ++ [x]) (f acc x)) ->
  P l (fold_left f l init).
Proof.
  intros H0 Hstep.
  assert (forall visited acc, P visited acc ->
                              P (visited ++ l) (fold_left f l acc)) as H.
  { induction l as [|x l IH]; intros visited acc Hacc; simpl.
    - now rewrite app_nil_r.
    - replace (visited ++ x :: l) with ((visited ++ [x]) ++ l)
        by now rewrite <- app_assoc.
      apply IH, Hstep, Hacc. }
  apply (H [] init H0).
Qed.

(** ** Reconciliation *)

Section ReconcileFacts.
Import ObjFacts.

Lemma reconcile_as_one_loop (calendarData : Obj.t CacheEntry) :
  reconcile calendarData
  = fold_left (fun acc p => reconcileOne (fst p) acc (snd p))
              (occurrences calendarData) [].
Proof.
  unfold reconcile, occurrences. generalize (@nil (string * RecipientData)).
  induction calendarData as [|[k data] rest IH]; intros init; simpl.
  - reflexivity.
  - rewrite fold_left_app, IH. f_equal.
    generalize init. generalize (entryRecipients data).
    induction l as [|r l IHl]; intros acc; simpl; [reflexivity | apply IHl].
Qed.

Lemma sourcesOf_occurrences (recipientEmail : string) (calendarData : Obj.t CacheEntry) :
  sourcesOf recipientEmail calendarData
  = sourcesIn recipientEmail (occurrences calendarData).
Proof.
  unfold sourcesOf, sourcesIn, occurrences.
  induction calendarData as [|[k data] rest IH]; simpl; [reflexivity|].
  rewrite filter_app, map_app, IH. f_equal.
  induction (entryRecipients data) as [|r l IHl]; simpl; [reflexivity|].
  destruct (String.eqb (email r) recipientEmail); simpl; now rewrite IHl.
Qed.

Lemma sourcesIn_snoc e visited data r :
  sourcesIn e (visited ++ [(data, r)])
  = sourcesIn e visited ++ (if String.eqb (email r) e then [data] else []).
Proof.
  unfold sourcesIn. rewrite filter_app, map_app. simpl.
  now destruct (String.eqb (email r) e).
Qed.

Lemma succeeded_snoc l data :
  succeeded (l ++ [data])
  = succeeded l ++ match fetched data with
                   | Fetched calendar evs => [mkSource calendar evs]
                   | Failed _ => []
                   end.
Proof. unfold succeeded. rewrite flat_map_app. simpl. now rewrite app_nil_r. Qed.

Lemma failures_snoc l data :
  failures (l ++ [data])
  = failures l ++ match fetched data with
                  | Fetched _ _ => []
                  | Failed error => [mkSourceError "Unknown" error]
                  end.
Proof. unfold failures. rewrite flat_map_app. simpl. now rewrite app_nil_r. Qed.

(** Processing one pair leaves the other emails alone. *)
Lemma reconcileOne_other data acc r e :
  e <> email r -> Obj.get e (reconcileOne data acc r) = Obj.get e acc.
Proof.
  intros Hne. unfold reconcileOne.
  set (acc1 := if Obj.has (email r) acc then acc else Obj.set (email r) _ acc).
  assert (Obj.get e acc1 = Obj.get e acc) as H1.
  { unfold acc1. destruct (Obj.has (email r) acc); [reflexivity|].
    now apply get_set_other. }
  destruct (Obj.get (email r) acc1) as [[rep cals dr he errs]|]; [|exact H1].
  destruct (fetched data); rewrite get_set_other; auto.
Qed.

Lemma reconcileOne_keys data acc r :
  NoDup (Obj.keys acc) -> NoDup (Obj.keys (reconcileOne data acc r)).
Proof.
  intros H. unfold reconcileOne.
  set (acc1 := if Obj.has (email r) acc then acc else Obj.set (email r) _ acc).
  assert (NoDup (Obj.keys acc1)) as H1.
  { unfold acc1. destruct (Obj.has (email r) acc); [exact H|]. now apply set_NoDup. }
  destruct (Obj.get (email r) acc1) as [[rep cals dr he errs]|]; [|exact H1].
  destruct (fetched data); now apply set_NoDup.
Qed.

Lemma reconcileOne_same data acc r visited :
  Reconciled (email r) visited (Obj.get (email r) acc) ->
  Reconciled (email r) (visited ++ [(data, r)])
             (Obj.get (email r) (reconcileOne data acc r)).
Proof.
  intros Hinv. unfold reconcileOne.
  set (acc1 := if Obj.has (email r) acc then acc else Obj.set (email r) _ acc).
  assert (exists d, Obj.get (email r) acc1 = Some d
                    /\ calendars d = succeeded (sourcesIn (email r) visited)
                    /\ recipientErrors d = failures (sourcesIn (email r) visited)
                    /\ hasErrors d
                       = existsb (fun data => negb (success data))
                                 (sourcesIn (email r) visited)
                    /\ email (recipient d) = email r) as [d [Hget [Hc [He [Hh Hr]]]]].
  { unfold acc1, Obj.has. destruct (Obj.get (email r) acc) as [d|] eqn:E.
    - exists d. simpl in Hinv. destruct Hinv as [_ H]. now split.
    - eexists. rewrite get_set_same. split; [reflexivity|].
      simpl in Hinv. rewrite Hinv. simpl. auto. }
  rewrite Hget. destruct d as [rep cals dr he errs]. simpl in Hc, He, Hh, Hr.
  unfold Reconciled.
  rewrite sourcesIn_snoc, String.eqb_refl, succeeded_snoc, failures_snoc, existsb_app.
  cbn [existsb]. unfold success at 2.
  destruct (fetched data) as [calendar evs|error]; rewrite get_set_same; simpl;
    subst; rewrite ?app_nil_r, ?orb_false_r, ?orb_true_r;
    (split; [intros H; apply app_eq_nil in H; destruct H; discriminate | auto]).
Qed.

Lemma reconcile_invariant (calendarData : Obj.t CacheEntry) :
  NoDup (Obj.keys (reconcile calendarData))
  /\ forall e, Reconciled e (occurrences calendarData)
                          (Obj.get e (reconcile calendarData)).
Proof.
  rewrite reconcile_as_one_loop.
  apply (fold_left_invariant
           (fun acc p => reconcileOne (fst p) acc (snd p))
           (fun visited acc =>
              NoDup (Obj.keys acc)
              /\ forall e, Reconciled e visited (Obj.get e acc))).
  - split; [constructor | intros e; reflexivity].
  - intros visited [data r] acc [Hnd Hinv]. simpl. split.
    + now apply reconcileOne_keys.
    + intros e. destruct (String.eqb e (email r)) eqn:E.
      * apply String.eqb_eq in E. subst e. apply reconcileOne_same, Hinv.
      * apply String.eqb_neq in E. rewrite reconcileOne_other by exact E.
        specialize (Hinv e). unfold Reconciled in *.
        rewrite sourcesIn_snoc.
        assert (String.eqb (email r) e = false) as ->
          by (apply String.eqb_neq; congruence).
        now rewrite app_nil_r.
Qed.

End ReconcileFacts.

Section QueueFacts.
Variable env : Env.

Lemma succeeded_nil_iff (l : list CacheEntry) :
  succeeded l = [] <-> Forall (fun src => success src = false) l.
Proof.
  unfold succeeded. induction l as [|d l IH]; simpl.
  - split; [constructor | reflexivity].
  - destruct (fetched d) eqn:E; simpl.
    + split; [discriminate|]. intros H. inversion H; subst.
      match goal with Hd : success d = false |- _ =>
        unfold success in Hd; rewrite E in Hd; discriminate end.
    + rewrite IH. split; [|intros H; now inversion H].
      intros H. constructor; [|exact H]. unfold success. now rewrite E.
Qed.

Lemma in_succeeded (l : list CacheEntry) (src : CalendarSource) :
  In src (succeeded l) ->
  exists data, In data l /\ success data = true
               /\ events data = sourceEvents src.
Proof.
  unfold succeeded, success, events. intros H. apply in_flat_map in H.
  destruct H as [data [Hin H]]. exists data. split; [exact Hin|].
  destruct (fetched data); simpl in H; [|contradiction].
  destruct H as [<-|[]]. now split.
Qed.

Lemma all_failed_has_errors (l : list CacheEntry) :
  l <> [] -> Forall (fun src => success src = false) l ->
  existsb (fun data => negb (success data)) l = true.
Proof.
  intros Hne H. destruct l as [|d l]; [congruence|].
  inversion H; subst. simpl. 
  match goal with Hd : success d = false |- _ => now rewrite Hd end.
Qed.

Lemma insertByStart_in e x l : In x (insertByStart e l) -> x = e \/ In x l.
Proof.
  induction l as [|y l IH]; simpl.
  - intros [H|[]]; auto.
  - destruct (getStartTime e <=? getStartTime y)%Z; simpl.
    + intros [H|H]; auto.
    + intros [H|H]; auto. destruct (IH H); auto.
Qed.

Lemma sortByStart_in x l : In x (sortByStart l) -> In x l.
Proof.
  unfold sortByStart. induction l as [|e l IH]; simpl; [tauto|].
  intros H. apply insertByStart_in in H. destruct H; auto.
Qed.

Lemma summaryEvents_in (d : RecipientData) (ev : CalendarEvent) :
  In ev (summaryEvents d) ->
  exists src, In src (calendars d) /\ In ev (sourceEvents src).
Proof.
  unfold summaryEvents. intros H. apply sortByStart_in in H.
  assert (In ev (flat_map sourceEvents (calendars d))) as H'.
  { destruct (filterKeywords (preferences (recipient d))) as [kws|]; [|exact H].
    rewrite filterEventsByKeywords_filter in H. now apply filter_In in H. }
  apply in_flat_map in H'. exact H'.
Qed.

Lemma emailFor_errorNotice_iff recipientEmail (d : RecipientData) :
  emailFor env recipientEmail d = errorNotice recipientEmail d
  <-> hasErrors d = true /\ calendars d = [].
Proof.
  unfold emailFor. destruct (hasErrors d); simpl.
  - destruct (calendars d); simpl.
    + tauto.
    + split; [discriminate | intros [_ H]; discriminate].
  - split; [discriminate | intros [H _]; discriminate].
Qed.

Lemma emailFor_summary recipientEmail (d : RecipientData) :
  calendars d <> [] ->
  emailFor env recipientEmail d = summaryEmail env recipientEmail d.
Proof.
  intros H. unfold emailFor. destruct (calendars d); [congruence|].
  simpl. now rewrite andb_false_r.
Qed.

Lemma queue_recipients (recipientData : Obj.t RecipientData) :
  map to (buildEmailQueue env recipientData) = Obj.keys recipientData.
Proof.
  unfold buildEmailQueue, Obj.keys. rewrite map_map. apply map_ext.
  intros [e d]. unfold emailFor. now destruct (_ && _).
Qed.

End QueueFacts.

(** C3. The reconciliation keeps one record, and queues one message, per
    recipient email that occurs in the cache. The record holds the fetched
    sources of that email as [calendars], the failed ones as errors, and
    [hasErrors] tells whether one failed. The message is the error notice
    exactly when every source of the email failed; when one succeeded it is
    the summary, and every event handed to the template comes from a fetched
    source. With two sources, one fetched and one failed, [hasErrors] is
    true, there is one calendar source, and the message is the summary. *)
Theorem reconciliation_routes
    (env : Env) (calendarData : Obj.t CacheEntry) (recipientEmail : string) :
  let sources := sourcesOf recipientEmail calendarData in
  let recipientData := reconcile calendarData in
  NoDup (Obj.keys recipientData)
  /\ map to (buildEmailQueue env recipientData) = Obj.keys recipientData
  /\ (In recipientEmail (Obj.keys recipientData) <-> sources <> [])
  /\ forall data,
       In (recipientEmail, data) recipientData ->
       In (emailFor env recipientEmail data) (buildEmailQueue env recipientData)
       /\ calendars data = succeeded sources
       /\ recipientErrors data = failures sources
       /\ hasErrors data = existsb (fun src => negb (success src)) sources
       /\ (emailFor env recipientEmail data = errorNotice recipientEmail data
           <-> Forall (fun src => success src = false) sources)
       /\ (Forall (fun src => success src = false) sources ->
           hasErrors data = true /\ calendars data = [])
       /\ (Exists (fun src => success src = true) sources ->
           emailFor env recipientEmail data = summaryEmail env recipientEmail data
           /\ forall ev,
                In ev (summaryEvents data) ->
                exists src, In src sources /\ success src = true
                            /\ In ev (events src))
       /\ (forall ok bad,
             sources = [ok; bad] \/ sources = [bad; ok] ->
             success ok = true -> success bad = false ->
             hasErrors data = true
             /\ List.length (calendars data) = 1
             /\ emailFor env recipientEmail data
                = summaryEmail env recipientEmail data).
Proof.
  cbv zeta. destruct (reconcile_invariant calendarData) as [Hnd Hinv].
  split; [exact Hnd|]. split; [apply queue_recipients|]. split.
  - specialize (Hinv recipientEmail). rewrite sourcesOf_occurrences.
    destruct (Obj.get recipientEmail (reconcile calendarData)) as [d|] eqn:E.
    + simpl in Hinv. split; [tauto|]. intros _.
      apply ObjFacts.get_in in E. change recipientEmail with (fst (recipientEmail, d)).
      now apply in_map.
    + simpl in Hinv. apply ObjFacts.get_none in E. split; [tauto | congruence].
  - intros data Hin.
    pose proof (ObjFacts.in_get _ _ _ Hnd Hin) as Hget.
    specialize (Hinv recipientEmail). rewrite Hget in Hinv. simpl in Hinv.
    rewrite <- sourcesOf_occurrences in Hinv.
    destruct Hinv as [Hne [Hc [He [Hh Hr]]]].
    assert (Forall (fun src => success src = false)
                   (sourcesOf recipientEmail calendarData) ->
            hasErrors data = true /\ calendars data = []) as Hall.
    { intros Hf. split.
      - rewrite Hh. now apply all_failed_has_errors.
      - rewrite Hc. now apply succeeded_nil_iff. }
    assert (forall src, In src (sourcesOf recipientEmail calendarData) ->
                        success src = true -> calendars data <> []) as Hsome.
    { intros src Hsrc Hok Hnil. rewrite Hc in Hnil.
      apply succeeded_nil_iff in Hnil. rewrite Forall_forall in Hnil.
      specialize (Hnil src Hsrc). congruence. }
    split; [|split; [exact Hc|split; [exact He|split; [exact Hh|]]]].
    { unfold buildEmailQueue.
      change (emailFor env recipientEmail data)
        with ((fun '(e, d) => emailFor env e d) (recipientEmail, data)).
      now apply in_map. }
    split; [|split; [exact Hall|split]].
    + split.
      * intros H. apply emailFor_errorNotice_iff in H. destruct H as [_ H].
        rewrite Hc in H. now apply succeeded_nil_iff.
      * intros H. apply emailFor_errorNotice_iff. now apply Hall.
    + intros H. apply Exists_exists in H. destruct H as [src [Hsrc Hok]]. split.
      * apply emailFor_summary. now apply (Hsome src).
      * intros ev Hev. apply summaryEvents_in in Hev.
        destruct Hev as [src' [Hsrc' Hev]]. rewrite Hc in Hsrc'.
        apply in_succeeded in Hsrc'. destruct Hsrc' as [d [Hd [Hdok Hevs]]].
        exists d. rewrite Hevs. auto.
    + intros ok bad H Hok Hbad. split; [|split].
      * rewrite Hh. destruct H as [-> | ->]; simpl; rewrite Hok, Hbad; reflexivity.
      * rewrite Hc. unfold succeeded, success in *.
        destruct H as [-> | ->]; simpl;
          destruct (fetched ok), (fetched bad); try discriminate; reflexivity.
      * apply emailFor_summary. apply (Hsome ok); [|assumption].
        destruct H as [-> | ->]; simpl; auto.
Qed.

Lemma reconciliation_routes_witness :
  exists data,
    In ("multi@example.com", data) (reconcile twoCalendarCache)
    /\ hasErrors data = true
    /\ List.length (calendars data) = 1
    /\ emailFor demoEnv "multi@example.com" data
       = summaryEmail demoEnv "multi@example.com" data.
Proof.
  eexists. split; [left; reflexivity|].
  refine (proj2 (proj2 (proj2 (proj2 (proj2 (proj2 (proj2
            (proj2 (proj2 (proj2
               (reconciliation_routes demoEnv twoCalendarCache "multi@example.com"))) _ _))))))) _ _ _ _ _).
  - left. reflexivity.
  - left. reflexivity.
  - reflexivity.
  - reflexivity.
Defined.

(** ** Group keys *)

Section KeyFacts.

Lemma occurs_middle (c : ascii) (a b : string) :
  occurs c (a ++ String c b).
Proof. induction a as [|d a IH]; simpl; auto. Qed.

Lemma digits_no_bar (d : Decimal.uint) :
  ~ occurs "|" (NilEmpty.string_of_uint d).
Proof.
  induction d; simpl; [intros [] | ..];
    (intros [H|H]; [discriminate | auto]).
Qed.

Lemma ofZ_no_bar (z : Z) : ~ occurs "|" (Str.ofZ z).
Proof.
  unfold Str.ofZ. destruct (Z.to_int z) as [d|d]; simpl.
  - apply digits_no_bar.
  - intros [H|H]; [discriminate | now apply digits_no_bar in H].
Qed.

Lemma ofZ_inj (a b : Z) : Str.ofZ a = Str.ofZ b -> a = b.
Proof.
  unfold Str.ofZ. intros H.
  assert (Z.to_int a = Z.to_int b) as H'.
  { pose proof (NilEmpty.isi (Z.to_int a)) as Ha.
    pose proof (NilEmpty.isi (Z.to_int b)) as Hb.
    rewrite H in Ha. congruence. }
  rewrite <- (DecimalZ.of_to a), <- (DecimalZ.of_to b). now rewrite H'.
Qed.

(** A string is cut in one way only at its last bar. *)
Lemma cut_at_last_bar (x y u v : string) :
  ~ occurs "|" u -> ~ occurs "|" v ->
  (x ++ String "|" u = y ++ String "|" v)%string -> x = y /\ u = v.
Proof.
  intros Hu Hv. revert y. induction x as [|c x IH]; intros [|d y]; simpl; intros H.
  - inversion H. now split.
  - inversion H; subst. exfalso. apply Hu. apply occurs_middle.
  - inversion H; subst. exfalso. apply Hv. apply occurs_middle.
  - inversion H; subst. destruct (IH y) as [-> ->]; auto.
Qed.

(** Two group keys are equal exactly when the calendar and both epoch
    bounds are. *)
Lemma groupKeyOf_inj (c1 c2 : string) (r1 r2 : DateRange) :
  groupKeyOf c1 r1 = groupKeyOf c2 r2
  <-> c1 = c2 /\ startDate r1 = startDate r2 /\ endDate r1 = endDate r2.
Proof.
  unfold groupKeyOf. split.
  - intros H.
    change ((c1 ++ "|" ++ Str.ofZ (startDate r1) ++ "|" ++ Str.ofZ (endDate r1))%string)
      with ((c1 ++ String "|" (Str.ofZ (startDate r1) ++ String "|" (Str.ofZ (endDate r1))))%string) in H.
    change ((c2 ++ "|" ++ Str.ofZ (startDate r2) ++ "|" ++ Str.ofZ (endDate r2))%string)
      with ((c2 ++ String "|" (Str.ofZ (startDate r2) ++ String "|" (Str.ofZ (endDate r2))))%string) in H.
    assert (forall c s e,
              (c ++ String "|" (s ++ String "|" e))%string
              = ((c ++ String "|" s) ++ String "|" e)%string) as Hassoc.
    { intros c s e. rewrite append_assoc. reflexivity. }
    rewrite !Hassoc in H.
    apply cut_at_last_bar in H; try apply ofZ_no_bar. destruct H as [H He].
    apply cut_at_last_bar in H; try apply ofZ_no_bar. destruct H as [Hc Hs].
    apply ofZ_inj in He, Hs. auto.
  - intros [-> [-> ->]]. reflexivity.
Qed.

End KeyFacts.

(** ** Grouping *)

Section GroupFacts.
Import ObjFacts.

Lemma distinct_snoc (l : list string) (k : string) :
  distinct (l ++ [k])
  = if existsb (String.eqb k) (distinct l) then distinct l else distinct l ++ [k].
Proof. unfold distinct. now rewrite fold_left_app. Qed.

Lemma existsb_eqb_in (k : string) (l : list string) :
  existsb (String.eqb k) l = true <-> In k l.
Proof.
  rewrite existsb_exists. split.
  - intros [x [Hx E]]. apply String.eqb_eq in E. now subst.
  - intros H. exists k. split; [exact H | apply String.eqb_refl].
Qed.

Lemma distinct_spec (l : list string) :
  NoDup (distinct l) /\ forall k, In k (distinct l) <-> In k l.
Proof.
  apply (fold_left_invariant
           (fun seen k => if existsb (String.eqb k) seen then seen else seen ++ [k])
           (fun visited seen => NoDup seen /\ forall k, In k seen <-> In k visited)).
  - split; [constructor | tauto].
  - intros visited x seen [Hnd Hin].
    destruct (existsb (String.eqb x) seen) eqn:E.
    + apply existsb_eqb_in in E. split; [exact Hnd|].
      intros k. rewrite in_app_iff, Hin. simpl. split; [auto|].
      intros [H|[<-|[]]]; [exact H | now apply Hin].
    + assert (~ In x seen) as Hx.
      { intros H. apply existsb_eqb_in in H. congruence. }
      split.
      * apply NoDup_app; [exact Hnd | repeat constructor; auto |].
        intros a Ha [<-|[]]. contradiction.
      * intros k. rewrite !in_app_iff, Hin. tauto.
Qed.

Lemma membersOf_snoc k visited p :
  membersOf k (visited ++ [p])
  = membersOf k visited ++ (if String.eqb (keyOf p) k then [fst p] else []).
Proof.
  unfold membersOf. rewrite filter_app, map_app. simpl.
  now destruct (String.eqb (keyOf p) k).
Qed.

Lemma joinGroup_grouped visited calendarGroups r range :
  Grouped visited calendarGroups ->
  Grouped (visited ++ [(r, range)]) (joinGroup calendarGroups r range).
Proof.
  intros [Hkeys Hget]. unfold joinGroup.
  set (key := groupKeyOf (calendarId r) range).
  assert (keyOf (r, range) = key) as Hkey by reflexivity.
  set (groups1 := if Obj.has key calendarGroups then calendarGroups
                  else Obj.set key _ calendarGroups).
  assert (distinct (map keyOf (visited ++ [(r, range)]))
          = if existsb (String.eqb key) (Obj.keys calendarGroups)
            then Obj.keys calendarGroups else Obj.keys calendarGroups ++ [key])
    as Hdistinct.
  { rewrite map_app. cbn [map]. rewrite distinct_snoc. now rewrite Hkey, <- Hkeys. }
  unfold Grouped. rewrite Hdistinct.
  assert (exists g, Obj.get key groups1 = Some g
                    /\ groupRecipients g = membersOf key visited
                    /\ groupKeyOf (groupCalendarId g) (groupDateRange g) = key
                    /\ Obj.keys groups1
                       = (if existsb (String.eqb key) (Obj.keys calendarGroups)
                          then Obj.keys calendarGroups
                          else Obj.keys calendarGroups ++ [key])
                    /\ forall k, k <> key -> Obj.get k groups1 = Obj.get k calendarGroups)
    as [g [Hg [Hrec [Hgk [Hk1 Hother]]]]].
  { unfold groups1. destruct (Obj.has key calendarGroups) eqn:E.
    - pose proof E as E'. apply has_true, existsb_eqb_in in E'. rewrite E'.
      unfold Obj.has in E. specialize (Hget key).
      destruct (Obj.get key calendarGroups) as [g|]; [|discriminate].
      exists g. destruct Hget as [H1 [H2 H3]]. auto.
    - pose proof E as E'. apply has_false in E'.
      assert (existsb (String.eqb key) (Obj.keys calendarGroups) = false) as ->.
      { destruct (existsb _ _) eqn:X; [|reflexivity].
        apply existsb_eqb_in in X. contradiction. }
      eexists. rewrite get_set_same. split; [reflexivity|].
      unfold Obj.has in E. specialize (Hget key).
      destruct (Obj.get key calendarGroups); [discriminate|].
      simpl. rewrite Hget. split; [reflexivity|]. split; [reflexivity|].
      split.
      + rewrite keys_set. unfold Obj.has.
        destruct (Obj.get key calendarGroups) eqn:X; [|reflexivity].
        exfalso. apply E'. apply has_true. unfold Obj.has. now rewrite X.
      + intros k Hne. now apply get_set_other. }
  rewrite Hg. split.
  - rewrite keys_set. unfold Obj.has. now rewrite Hg.
  - clear Hdistinct. intros k. destruct (String.eqb k key) eqn:E.
    + apply String.eqb_eq in E. subst k. rewrite get_set_same. simpl.
      rewrite membersOf_snoc, Hkey, String.eqb_refl, Hrec. simpl.
      split; [reflexivity|]. split; [|exact Hgk].
      intros H. apply app_eq_nil in H. destruct H. discriminate.
    + apply String.eqb_neq in E. rewrite get_set_other by exact E.
      rewrite Hother by exact E. rewrite membersOf_snoc, Hkey.
      assert (String.eqb key k = false) as -> by (apply String.eqb_neq; congruence).
      rewrite app_nil_r. apply Hget.
Qed.

Lemma grouping_grouped (keyed : list (Recipient * DateRange)) :
  Grouped keyed
    (fold_left (fun groups p => joinGroup groups (fst p) (snd p)) keyed []).
Proof.
  apply (fold_left_invariant
           (fun groups p => joinGroup groups (fst p) (snd p)) Grouped).
  - split; [reflexivity | intros k; reflexivity].
  - intros visited [r range] acc H. now apply joinGroup_grouped.
Qed.

End GroupFacts.

(** ** The phases of the batched fetch *)

Section FetchFacts.
Variable env : Env.
Import ObjFacts.

Lemma Quiet_refl s : Quiet s s.
Proof. repeat split. Qed.

Lemma Quiet_trans s1 s2 s3 : Quiet s1 s2 -> Quiet s2 s3 -> Quiet s1 s3.
Proof. intros [A [B [C D]]] [A' [B' [C' D']]]. repeat split; congruence. Qed.

Lemma Quiet_newDate s : Quiet s (record NewDate s).
Proof. repeat split. Qed.

(** The frequency gate only reads the clock. *)
Lemma gate_quiet (recipients : list Recipient) (s : State) :
  exists active s1,
    filterM (isActive env) recipients s = (Returned active, s1) /\ Quiet s s1.
Proof.
  revert s. induction recipients as [|r rest IH]; intros s; simpl.
  - exists [], s. split; [reflexivity | apply Quiet_refl].
  - destruct (IH (record NewDate s)) as [active [s1 [H Hq]]].
    unfold bind at 1. unfold isActive at 1, bind at 1, newDate at 1, ret at 1.
    unfold bind at 1. rewrite H.
    eexists. exists s1. split; [reflexivity|].
    eapply Quiet_trans; [apply Quiet_newDate | exact Hq].
Qed.

(** Grouping only reads the clock, once per active recipient. *)
Lemma grouping_quiet (active : list Recipient) groups0 (s1 : State) :
  exists s2,
    foldM (addToGroup env) active groups0 s1
    = (Returned
         (fold_left (fun groups p => joinGroup groups (fst p) (snd p))
                    (rangesFrom env (history s1) active) groups0),
       s2)
    /\ Quiet s1 s2.
Proof.
  revert groups0 s1. induction active as [|r rest IH]; intros groups0 s1; simpl.
  - exists s1. split; [reflexivity | apply Quiet_refl].
  - unfold bind at 1. unfold addToGroup at 1, bind at 1, newDate at 1, ret at 1.
    destruct (IH (joinGroup groups0 r
                    (calculateDateRange (zone env) (clock env (history s1))
                       (orDefault (dateRange (preferences r)) "today")))
                 (record NewDate s1)) as [s2 [H Hq]].
    rewrite H. exists s2. split; [reflexivity|].
    eapply Quiet_trans; [apply Quiet_newDate | exact Hq].
Qed.

(** A retried call: invoked once, and once more after each backoff. *)
Lemma retry_call_cost {A} (operation : M State A) (theCall : Call)
      fuel attempt lastError s :
  (forall s0, history (snd (operation s0)) = theCall :: history s0
              /\ tracker (snd (operation s0)) = tracker s0) ->
  (match theCall with UtilitiesSleep _ => False | _ => True end) ->
  attempt + fuel = defaultMaxRetries ->
  let s' := snd (Retry.retryLoop sleep (mathRandom env) operation defaultMaxRetries
                   defaultBaseDelay (S fuel) attempt lastError s) in
  exists d,
    d <= fuel
    /\ tracker s' = tracker s
    /\ lookups (history s') = lookups (history s) + (1 + d) * lookups [theCall]
    /\ eventReads (history s')
       = eventReads (history s) + (1 + d) * eventReads [theCall]
    /\ sleeps (history s') = sleeps (history s) + d.
Proof.
  intros Hop Hcall. cbv zeta. revert attempt lastError s.
  assert (forall s0, lookups (history (snd (operation s0)))
                     = lookups (history s0) + lookups [theCall]
                     /\ eventReads (history (snd (operation s0)))
                        = eventReads (history s0) + eventReads [theCall]
                     /\ sleeps (history (snd (operation s0))) = sleeps (history s0))
    as Hcount.
  { intros s0. destruct (Hop s0) as [-> _].
    unfold lookups, eventReads, sleeps. simpl.
    destruct theCall; simpl; try contradiction; repeat split; lia. }
  induction fuel as [|fuel IH]; intros attempt lastError s Hsum.
  - rewrite loop_step. destruct (Hop s) as [_ Ht]. destruct (Hcount s) as [Hl [He Hs]].
    destruct (operation s) as [[a|e] s1]; simpl in *.
    + exists 0. repeat split; try lia; auto.
    + assert ((attempt =? defaultMaxRetries) = true) as ->
        by (apply Nat.eqb_eq; lia).
      rewrite orb_true_r. simpl. exists 0. repeat split; try lia; auto.
  - rewrite loop_step. destruct (Hop s) as [_ Ht]. destruct (Hcount s) as [Hl [He Hs]].
    destruct (operation s) as [[a|e] s1]; simpl in Ht, Hl, He, Hs.
    + exists 0. simpl. repeat split; try lia; auto.
    + destruct (negb (Retry.isRetryableError e) || (attempt =? defaultMaxRetries)).
      * exists 0. simpl. repeat split; try lia; auto.
      * destruct (IH (S attempt) e (afterBackoff env defaultBaseDelay attempt s1)
                     ltac:(lia)) as [d [Hd [Ht' [Hl' [He' Hs']]]]].
        exists (S d). rewrite Ht', Hl', He', Hs'.
        unfold afterBackoff, lookups, eventReads, sleeps in *. simpl in *.
        repeat split; try lia; auto.
Qed.

Lemma FetchCost_refl s : FetchCost s s 0 0 0.
Proof. constructor; lia. Qed.

Lemma FetchCost_trans s1 s2 s3 n d f n' d' f' :
  FetchCost s1 s2 n d f -> FetchCost s2 s3 n' d' f' ->
  FetchCost s1 s3 (n + n') (d + d') (f + f').
Proof. intros [] []. constructor; lia. Qed.

Lemma retryOperation_cost {A} (operation : M State A) (theCall : Call) s :
  (forall s0, history (snd (operation s0)) = theCall :: history s0
              /\ tracker (snd (operation s0)) = tracker s0) ->
  (match theCall with UtilitiesSleep _ => False | _ => True end) ->
  let s' := snd (retryOperation env operation defaultMaxRetries defaultBaseDelay s) in
  exists d,
    d <= 3
    /\ tracker s' = tracker s
    /\ lookups (history s') = lookups (history s) + (1 + d) * lookups [theCall]
    /\ eventReads (history s')
       = eventReads (history s) + (1 + d) * eventReads [theCall]
    /\ sleeps (history s') = sleeps (history s) + d.
Proof.
  intros Hop Hcall.
  apply (retry_call_cost operation theCall 3 0 (mkError "undefined") s Hop Hcall).
  reflexivity.
Qed.

Lemma lookupCalendar_call id s0 :
  history (snd (lookupCalendar env id s0)) = GetCalendarById id :: history s0
  /\ tracker (snd (lookupCalendar env id s0)) = tracker s0.
Proof.
  unfold lookupCalendar, bind, getCalendarById.
  destruct (calendarById env (history s0) id) as [[c|]|e]; split; reflexivity.
Qed.

Lemma getEvents_call c a b s0 :
  history (snd (getEvents env c a b s0)) = GetEvents c a b :: history s0
  /\ tracker (snd (getEvents env c a b s0)) = tracker s0.
Proof. split; reflexivity. Qed.

(** One group: its entry is built on either path, at the cost of one
    retried lookup and at most one retried read. *)
Lemma fetchGroup_cost (group : CalendarGroup) (s : State) :
  exists data s',
    fetchGroup env group s = (Returned data, s')
    /\ entryRecipients data = groupRecipients group
    /\ entryDateRange data = groupDateRange group
    /\ exists d f, FetchCost s s' 1 d f.
Proof.
  unfold fetchGroup, tryCatch.
  pose proof (retryOperation_cost (lookupCalendar env (groupCalendarId group))
                (GetCalendarById (groupCalendarId group)) s
                (lookupCalendar_call _) I) as H1.
  cbv zeta in H1. unfold bind at 1.
  destruct (retryOperation env (lookupCalendar env (groupCalendarId group))
              defaultMaxRetries defaultBaseDelay s) as [[cal|e] sA].
  - simpl in H1. destruct H1 as [d [Hd [Ht [Hl [He Hs]]]]].
    pose proof (retryOperation_cost
                  (getEvents env cal (startDate (groupDateRange group))
                             (endDate (groupDateRange group)))
                  (GetEvents cal (startDate (groupDateRange group))
                             (endDate (groupDateRange group))) sA
                  (getEvents_call _ _ _) I) as H2.
    cbv zeta in H2. unfold bind at 1.
    destruct (retryOperation env
                (getEvents env cal (startDate (groupDateRange group))
                           (endDate (groupDateRange group)))
                defaultMaxRetries defaultBaseDelay sA) as [[evs|e] sB].
    + simpl in H2. destruct H2 as [f [Hf [Ht2 [Hl2 [He2 Hs2]]]]].
      eexists. eexists. split; [reflexivity|]. split; [reflexivity|].
      split; [reflexivity|]. exists d, f.
      unfold lookups, eventReads, sleeps in *. simpl in *.
      constructor; unfold lookups, eventReads, sleeps; simpl; lia.
    + simpl in H2. destruct H2 as [f [Hf [Ht2 [Hl2 [He2 Hs2]]]]].
      eexists. eexists. split; [reflexivity|]. split; [reflexivity|].
      split; [reflexivity|]. exists d, f.
      unfold lookups, eventReads, sleeps in *. simpl in *.
      constructor; unfold lookups, eventReads, sleeps; simpl; lia.
  - simpl in H1. destruct H1 as [d [Hd [Ht [Hl [He Hs]]]]].
    eexists. eexists. split; [reflexivity|]. split; [reflexivity|].
    split; [reflexivity|]. exists d, 0.
    unfold lookups, eventReads, sleeps in *. simpl in *.
    constructor; unfold lookups, eventReads, sleeps; simpl; lia.
Qed.

Lemma set_fresh {V} (k : string) (v : V) (o : Obj.t V) :
  ~ In k (Obj.keys o) -> Obj.set k v o = o ++ [(k, v)].
Proof.
  unfold Obj.keys. induction o as [|[k0 v0] o IH]; simpl; intros H; [reflexivity|].
  destruct (String.eqb k k0) eqn:E.
  - apply String.eqb_eq in E. subst. exfalso. auto.
  - rewrite IH; auto.
Qed.

(** The loop over the groups: one entry per group, in order. *)
Lemma fetch_loop (groups : Obj.t CalendarGroup) (cache0 : Obj.t CacheEntry) (s : State) :
  NoDup (Obj.keys cache0 ++ Obj.keys groups) ->
  exists entries s',
    foldM (fun calendarCache '(groupKey, group) =>
             data <- fetchGroup env group ;;
             ret (Obj.set groupKey data calendarCache))
          groups cache0 s
    = (Returned (cache0 ++ entries), s')
    /\ Forall2 entryOf groups entries
    /\ exists d f, FetchCost s s' (List.length groups) d f.
Proof.
  revert cache0 s. induction groups as [|[k g] rest IH]; intros cache0 s Hnd; simpl.
  - exists [], s. rewrite app_nil_r. split; [reflexivity|]. split; [constructor|].
    exists 0, 0. apply FetchCost_refl.
  - destruct (fetchGroup_cost g s) as [data [s1 [Hfetch [Hr [Hdr [d [f Hcost]]]]]]].
    unfold bind at 1. unfold bind at 1. rewrite Hfetch. unfold ret at 1.
    assert (~ In k (Obj.keys cache0)) as Hfresh.
    { intros Hin. simpl in Hnd. apply NoDup_remove_2 in Hnd. apply Hnd.
      apply in_or_app. now left. }
    rewrite (set_fresh k data cache0 Hfresh).
    destruct (IH (cache0 ++ [(k, data)]) s1) as [entries [s' [Hloop [Hall [d' [f' Hcost']]]]]].
    { unfold Obj.keys in *. rewrite map_app. simpl in *.
      rewrite <- app_assoc. exact Hnd. }
    exists ((k, data) :: entries), s'. split.
    + rewrite Hloop. now rewrite <- app_assoc.
    + split.
      * constructor; [|exact Hall]. repeat split; assumption.
      * exists (d + d'), (f + f').
        apply (FetchCost_trans s s1 s' 1 d f _ d' f' Hcost Hcost').
Qed.

End FetchFacts.

(** ** Every active recipient is in exactly one group *)

Section PartitionFacts.

Lemma rangesFrom_recipients env h active :
  map fst (rangesFrom env h active) = active.
Proof.
  revert h. induction active as [|r rest IH]; intros h; simpl;
    [reflexivity | now rewrite IH].
Qed.

Lemma membersOf_cons k p keyed :
  membersOf k (p :: keyed)
  = (if String.eqb (keyOf p) k then [fst p] else []) ++ membersOf k keyed.
Proof. unfold membersOf. simpl. now destruct (String.eqb (keyOf p) k). Qed.

Lemma place_absent {X} (x : string) (a : X) (f : string -> list X) (ks : list string) :
  ~ In x ks ->
  flat_map (fun k => (if String.eqb x k then [a] else []) ++ f k) ks
  = flat_map f ks.
Proof.
  induction ks as [|k ks IH]; simpl; intros H; [reflexivity|].
  assert (String.eqb x k = false) as -> by (apply String.eqb_neq; intuition).
  simpl. rewrite IH; [reflexivity | intuition].
Qed.

Lemma place_once {X} (x : string) (a : X) (f : string -> list X) (ks : list string) :
  NoDup ks -> In x ks ->
  Permutation
    (flat_map (fun k => (if String.eqb x k then [a] else []) ++ f k) ks)
    (a :: flat_map f ks).
Proof.
  induction ks as [|k ks IH]; simpl; intros Hnd Hin; [contradiction|].
  apply NoDup_cons_iff in Hnd. destruct Hnd as [Hk Hnd].
  destruct (String.eqb x k) eqn:E.
  - apply String.eqb_eq in E. subst k. simpl.
    rewrite place_absent by assumption. reflexivity.
  - apply String.eqb_neq in E. destruct Hin as [H|H]; [congruence|].
    simpl. rewrite (IH Hnd H). apply Permutation_sym, Permutation_middle.
Qed.

(** Listing the members key by key lists every recipient once. *)
Lemma members_partition (keyed : list (Recipient * DateRange)) (ks : list string) :
  NoDup ks -> (forall p, In p keyed -> In (keyOf p) ks) ->
  Permutation (flat_map (fun k => membersOf k keyed) ks) (map fst keyed).
Proof.
  intros Hnd. induction keyed as [|p keyed IH]; intros Hall.
  - simpl. induction ks as [|k ks IHk]; simpl; [constructor|].
    inversion Hnd; subst. now apply IHk.
  - assert (flat_map (fun k => membersOf k (p :: keyed)) ks
            = flat_map (fun k => (if String.eqb (keyOf p) k then [fst p] else [])
                                 ++ membersOf k keyed) ks) as ->.
    { apply flat_map_ext. intros k. apply membersOf_cons. }
    simpl. rewrite place_once; [|exact Hnd|apply Hall; now left].
    constructor. apply IH. intros q Hq. apply Hall. now right.
Qed.

Lemma Forall2_entry_keys groups entries :
  Forall2 entryOf groups entries -> Obj.keys entries = Obj.keys groups.
Proof.
  unfold Obj.keys. induction 1 as [|g c groups entries [Hk _] _ IH]; simpl;
    [reflexivity | now rewrite Hk, IH].
Qed.

Lemma Forall2_entry_in groups entries k data :
  Forall2 entryOf groups entries -> In (k, data) entries ->
  exists g, In (k, g) groups /\ entryRecipients data = groupRecipients g.
Proof.
  induction 1 as [|[k0 g0] [k1 d1] groups entries [Hk [Hr _]] _ IH]; simpl;
    [contradiction|].
  intros [H|H].
  - inversion H; subst. simpl in *. subst. exists g0. auto.
  - destruct (IH H) as [g [Hg Hrec]]. exists g. auto.
Qed.

End PartitionFacts.


(** Two recipients share a calendar and a date range, a third has its own:
    two lookups are made for three recipients. *)
Lemma three_recipients_two_fetches :
  let r := fetchCalendarDataBatched demoEnv threeRecipients initialState in
  lookups (history (snd r)) = 2
  /\ match fst r with
     | Returned cache => map (fun c => List.length (entryRecipients (snd c))) cache
     | Thrown _ => []
     end = [2; 1].
Proof. vm_compute. split; reflexivity. Qed.

(** ** The repository's tests, on the embedding *)

Example validation_accepts_valid_emails :
  forallb (fun e => Validation.isValid
                      (Validation.validateRecipientData e "calendar@gmail.com"))
          validEmails = true.
Proof. reflexivity. Qed.

Example validation_refuses_invalid_emails :
  existsb (fun e => Validation.isValid
                      (Validation.validateRecipientData e "calendar@gmail.com"))
          invalidEmails = false.
Proof. reflexivity. Qed.

Example frequency_scenarios :
  let utc := JsDate.fixedOffset 0 in
  map (fun day => shouldSendEmail utc day "daily") testWeek
  = [true; true; true; true; true; true; true]
  /\ map (fun day => shouldSendEmail utc day "weekdays") testWeek
     = [true; true; true; true; true; false; false]
  /\ map (fun day => shouldSendEmail utc day "monday") testWeek
     = [true; false; false; false; false; false; false]
  /\ map (fun day => shouldSendEmail utc day "weekends") testWeek
     = [false; false; false; false; false; true; true]
  /\ map (fun day => shouldSendEmail utc day "never") testWeek
     = [false; false; false; false; false; false; false]
  /\ map (fun day => shouldSendEmail utc day "unknown_frequency") testWeek
     = [true; true; true; true; true; true; true].
Proof. vm_compute. repeat split. Qed.

Example day_of_month_examples :
  map JsDate.DateFromDay [0; 30; 31; 58; 59; 365; -1; 11016; 11017; 19372; 19782; 19783]%Z
  = [1; 31; 1; 28; 1; 1; 31; 29; 1; 15; 29; 1]%Z.
Proof. reflexivity. Qed.

Example filter_important_not_cancelled :
  map getTitle (filterEventsByKeywords mockEvents (Some ["important"; "-cancelled"]))
  = ["Lunch with Client"].
Proof. reflexivity. Qed.

Example filter_is_conjunctive :
  filterEventsByKeywords mockEvents (Some ["standup"; "review"]) = [].
Proof. reflexivity. Qed.

Example demo_run_report :
  match fst (sendDailyEventSummary demoEnv initialState) with
  | Returned (Some summary) =>
      emailsSent (summaryMetrics summary) = 3
      /\ emailsFailed (summaryMetrics summary) = 0
      /\ calendarsProcessed (summaryMetrics summary) = 1
      /\ summarySuccess summary = false
  | _ => False
  end.
Proof. vm_compute. repeat split. Qed.

(* ================================================================= *)
(** * Further properties *)

(** ** The day of the month, day after day *)

Section MonthFacts.
Local Open Scope Z_scope.

Lemma DateFromDay_decomposed (d : Z) :
  JsDate.DateFromDay d = dayOf (doeOf d - startOf (yoeOf (doeOf d))).
Proof.
  unfold JsDate.DateFromDay, dayOf, startOf, yoeOf, doeOf. cbv zeta.
  replace (d + 719468 - (d + 719468) / 146097 * 146097)
    with ((d + 719468) mod 146097)
    by (rewrite (Z.mod_eq (d + 719468) 146097) by lia; lia).
  reflexivity.
Qed.

Lemma doeOf_range (d : Z) : 0 <= doeOf d < 146097.
Proof. unfold doeOf. apply Z.mod_pos_bound. lia. Qed.

Lemma doeOf_next (d : Z) :
  (doeOf d < 146096 /\ doeOf (d + 1) = doeOf d + 1)
  \/ (doeOf d = 146096 /\ doeOf (d + 1) = 0).
Proof. unfold doeOf. Z.div_mod_to_equations. lia. Qed.

(** A day lies in the year the decomposition finds, among its 366 days at
    most. *)
Lemma year_holds_day (doe : Z) :
  0 <= doe < 146097 -> 0 <= doe - startOf (yoeOf doe) <= 365.
Proof. intros H. unfold yoeOf, startOf. Z.div_mod_to_equations. lia. Qed.

(** The next day is in the same year, or is the first day of the next
    year, after day 364 or 365. *)
Lemma year_step (doe : Z) :
  0 <= doe < 146096 ->
  yoeOf (doe + 1) = yoeOf doe
  \/ (doe + 1 = startOf (yoeOf (doe + 1))
      /\ 364 <= doe - startOf (yoeOf doe) <= 365).
Proof. intros H. unfold yoeOf, startOf. Z.div_mod_to_equations. lia. Qed.

Lemma dayOf_range (doy : Z) : 0 <= doy <= 365 -> 1 <= dayOf doy <= 31.
Proof. intros H. unfold dayOf. Z.div_mod_to_equations. lia. Qed.

Lemma dayOf_step (doy : Z) :
  0 <= doy < 365 ->
  dayOf (doy + 1) = dayOf doy + 1 \/ (dayOf (doy + 1) = 1 /\ 28 <= dayOf doy).
Proof. intros H. unfold dayOf. Z.div_mod_to_equations. lia. Qed.

Lemma dayOf_last (doy : Z) : 364 <= doy <= 365 -> 28 <= dayOf doy.
Proof. intros H. unfold dayOf. Z.div_mod_to_equations. lia. Qed.

(** The day of the month lies between 1 and 31, and the next day has the
    next number or is a first, after a 28th or later. *)
Lemma DateFromDay_step (d : Z) :
  1 <= JsDate.DateFromDay d <= 31
  /\ (JsDate.DateFromDay (d + 1) = JsDate.DateFromDay d + 1
      \/ (JsDate.DateFromDay (d + 1) = 1 /\ 28 <= JsDate.DateFromDay d)).
Proof.
  rewrite !DateFromDay_decomposed.
  pose proof (doeOf_range d) as R.
  pose proof (year_holds_day _ R) as Y.
  split; [now apply dayOf_range|].
  destruct (doeOf_next d) as [[L ->]|[L ->]].
  - pose proof (year_holds_day (doeOf d + 1) ltac:(lia)) as Y'.
    destruct (year_step (doeOf d) ltac:(lia)) as [E|[E B]].
    + rewrite E in *.
      replace (doeOf d + 1 - startOf (yoeOf (doeOf d)))
        with (doeOf d - startOf (yoeOf (doeOf d)) + 1) in * by lia.
      apply dayOf_step. lia.
    + right. rewrite <- E, Z.sub_diag. split; [reflexivity|].
      now apply dayOf_last.
  - right. rewrite L. split; reflexivity || (vm_compute; discriminate).
Qed.

(** Going back fewer days than the day of the month stays in the month. *)
Lemma DateFromDay_back (d k : Z) :
  0 <= k < JsDate.DateFromDay d ->
  JsDate.DateFromDay (d - k) = JsDate.DateFromDay d - k.
Proof.
  intros [Hk Hlt]. revert Hlt. pattern k. apply natlike_ind; [| |exact Hk].
  - intros _. now rewrite !Z.sub_0_r.
  - intros x Hx IH Hlt. specialize (IH ltac:(lia)).
    destruct (DateFromDay_step (d - Z.succ x)) as [B [S|[S1 S2]]].
    + replace (d - Z.succ x + 1) with (d - x) in S by lia. lia.
    + replace (d - Z.succ x + 1) with (d - x) in S1 by lia. lia.
Qed.

(** The day before a first is a 28th or later. *)
Lemma DateFromDay_before_first (d : Z) :
  JsDate.DateFromDay (d + 1) = 1 -> 28 <= JsDate.DateFromDay d <= 31.
Proof.
  intros H. destruct (DateFromDay_step d) as [B [S|[S1 S2]]]; lia.
Qed.

End MonthFacts.

(** ** Date windows in a zone that keeps one offset *)

Section FixedZoneFacts.
Variable offset : Z.
Local Open Scope Z_scope.

Local Abbreviation tz := (JsDate.fixedOffset offset).

Lemma fixed_setHoursZero (T : Z) :
  JsDate.setHoursZero tz T = localMidnight offset T.
Proof.
  unfold JsDate.setHoursZero, JsDate.MakeDate, JsDate.Day, localMidnight. simpl.
  rewrite (Z.mod_eq (T + offset) JsDate.msPerDay) by (unfold JsDate.msPerDay; lia).
  lia.
Qed.

Lemma fixed_setDate (t dt : Z) :
  JsDate.setDate tz t dt = t + days (dt - JsDate.getDate tz t).
Proof.
  replace dt with (JsDate.getDate tz t + (dt - JsDate.getDate tz t)) at 1 by lia.
  rewrite setDate_getDate_plus. unfold days. simpl. lia.
Qed.

Lemma midnight_local_day (T : Z) :
  JsDate.Day (localMidnight offset T + offset) = JsDate.Day (T + offset)
  /\ (localMidnight offset T + offset) mod JsDate.msPerDay = 0.
Proof.
  unfold localMidnight, JsDate.Day, JsDate.msPerDay. Z.div_mod_to_equations. lia.
Qed.

Lemma getDay_fixed (t : Z) : JsDate.getDay tz t = (JsDate.Day (t + offset) + 4) mod 7.
Proof. reflexivity. Qed.

Lemma getDate_fixed (t : Z) : JsDate.getDate tz t = JsDate.DateFromDay (JsDate.Day (t + offset)).
Proof. reflexivity. Qed.

Lemma Day_plus_days (t k : Z) : JsDate.Day (t + days k) = JsDate.Day t + k.
Proof.
  unfold JsDate.Day, days. rewrite Z.div_add by (unfold JsDate.msPerDay; lia).
  reflexivity.
Qed.

Lemma getDay_midnight (T : Z) :
  JsDate.getDay tz (localMidnight offset T) = JsDate.getDay tz T.
Proof. rewrite !getDay_fixed. now destruct (midnight_local_day T) as [-> _]. Qed.

Lemma getDate_midnight (T : Z) :
  JsDate.getDate tz (localMidnight offset T) = JsDate.getDate tz T.
Proof. rewrite !getDate_fixed. now destruct (midnight_local_day T) as [-> _]. Qed.

Lemma getDay_range (t : Z) : 0 <= JsDate.getDay tz t < 7.
Proof. rewrite getDay_fixed. apply Z.mod_pos_bound. lia. Qed.

Lemma getDay_plus_days (t k : Z) :
  JsDate.getDay tz (t + days k) = (JsDate.getDay tz t + k) mod 7.
Proof.
  rewrite !getDay_fixed.
  replace (t + days k + offset) with (t + offset + days k) by lia.
  rewrite Day_plus_days. rewrite Z.add_mod_idemp_l by lia. f_equal. lia.
Qed.

Lemma getDate_plus_days (t k : Z) :
  JsDate.getDate tz (t + days k) = JsDate.DateFromDay (JsDate.Day (t + offset) + k).
Proof.
  rewrite getDate_fixed.
  replace (t + days k + offset) with (t + offset + days k) by lia.
  now rewrite Day_plus_days.
Qed.

(** The window of ['this week'], before the day of the month of its first
    day is looked at. *)
Lemma this_week_fixed (T : Z) (label : string) :
  oneOf label ["this week"; "thisweek"] = true ->
  let m := localMidnight offset T in
  let w := JsDate.getDay tz T in
  calculateDateRange tz T label
  = mkDateRange (m - days w)
      (m + days (JsDate.DateFromDay (JsDate.Day (T + offset) - w) + 7
                 - JsDate.getDate tz T))
      "this week".
Proof.
  intros L m w. unfold calculateDateRange.
  assert (N : oneOf label ["today"] = false
              /\ oneOf label ["tomorrow"] = false
              /\ oneOf label ["next 3 days"; "next3days"] = false).
  { unfold oneOf in *. cbn [existsb] in *.
    rewrite !orb_false_r in *. apply orb_true_iff in L.
    destruct L as [L|L]; apply String.eqb_eq in L; subst label; now vm_compute. }
  destruct N as [-> [-> ->]]. rewrite L.
  rewrite fixed_setHoursZero. fold m.
  rewrite !fixed_setDate.
  assert (Hw : JsDate.getDay tz m = w) by apply getDay_midnight.
  assert (Hd : JsDate.getDate tz m = JsDate.getDate tz T) by apply getDate_midnight.
  rewrite Hw, Hd.
  f_equal.
  - unfold days. lia.
  - f_equal. f_equal.
    replace (m + days (JsDate.getDate tz T - w - JsDate.getDate tz T))
      with (m + days (- w)) by (unfold days; lia).
    rewrite getDate_plus_days. unfold m.
    destruct (midnight_local_day T) as [-> _]. reflexivity.
Qed.

End FixedZoneFacts.

(** X1. In a zone that keeps one offset from UTC, ['tomorrow'] is the
    window from the next local midnight to the one after it, and
    ['next 3 days'] (or ['next3days']) the three days from the last local
    midnight on: today is part of it. *)
Theorem tomorrow_and_next_three_days (offset T : Z) :
  let tz := JsDate.fixedOffset offset in
  let m := localMidnight offset T in
  calculateDateRange tz T "tomorrow"
  = mkDateRange (m + days 1)%Z (m + days 2)%Z "tomorrow"
  /\ calculateDateRange tz T "next 3 days"
     = mkDateRange m (m + days 3)%Z "the next 3 days"
  /\ calculateDateRange tz T "next3days"
     = mkDateRange m (m + days 3)%Z "the next 3 days"
  /\ (m <= T < m + days 1)%Z.
Proof.
  intros tz m. unfold calculateDateRange. cbn [oneOf existsb String.eqb Ascii.eqb Bool.eqb orb].
  subst tz. rewrite fixed_setHoursZero. fold m. rewrite !fixed_setDate.
  repeat split; try (f_equal; unfold days; lia).
  - unfold m, localMidnight, days, JsDate.msPerDay.
    pose proof (Z.mod_pos_bound (T + offset) 86400000 ltac:(lia)). lia.
  - unfold m, localMidnight, days, JsDate.msPerDay.
    pose proof (Z.mod_pos_bound (T + offset) 86400000 ltac:(lia)). lia.
Qed.

(** X2. In a zone that keeps one offset, ['next week'] (or ['nextweek'])
    is the seven days from the first Sunday after today: the window starts
    one to seven days after the last local midnight, on a day whose
    [getDay] is 0, and ends seven days later. *)
Theorem next_week_window (offset T : Z) :
  let tz := JsDate.fixedOffset offset in
  let m := localMidnight offset T in
  let r := calculateDateRange tz T "next week" in
  startDate r = (m + days (7 - JsDate.getDay tz T))%Z
  /\ endDate r = (startDate r + days 7)%Z
  /\ description r = "next week"
  /\ JsDate.getDay tz (startDate r) = 0%Z
  /\ (m + days 1 <= startDate r <= m + days 7)%Z
  /\ calculateDateRange tz T "nextweek" = r.
Proof.
  intros tz m r.
  assert (E : r = mkDateRange (m + days (7 - JsDate.getDay tz T))%Z
                    (m + days (7 - JsDate.getDay tz T) + days 7)%Z "next week"
              /\ calculateDateRange tz T "nextweek" = r).
  { subst r. unfold calculateDateRange.
    cbn [oneOf existsb String.eqb Ascii.eqb Bool.eqb orb].
    subst tz. rewrite fixed_setHoursZero. fold m. rewrite !fixed_setDate.
    assert (Hw : JsDate.getDay (JsDate.fixedOffset offset) m
                 = JsDate.getDay (JsDate.fixedOffset offset) T)
      by apply getDay_midnight.
    rewrite Hw. split; f_equal; unfold days; lia. }
  destruct E as [E1 E2]. rewrite E2, E1. cbn [startDate endDate description].
  pose proof (getDay_range offset T) as W. fold tz in W.
  repeat split; try (unfold days, JsDate.msPerDay; lia).
  subst tz. rewrite getDay_plus_days.
  assert (Hw : JsDate.getDay (JsDate.fixedOffset offset) m
               = JsDate.getDay (JsDate.fixedOffset offset) T)
    by apply getDay_midnight.
  rewrite Hw.
  replace (JsDate.getDay (JsDate.fixedOffset offset) T
           + (7 - JsDate.getDay (JsDate.fixedOffset offset) T))%Z with (1 * 7)%Z by lia.
  apply Z.mod_mul. lia.
Qed.

(** X3. In a zone that keeps one offset, when the Sunday that starts the
    week of today lies in the month of today (the day of the week, counted
    from Sunday as 0, is less than the day of the month), ['this week'] is
    the seven days from that Sunday on, and the current instant is inside
    it. *)
Theorem this_week_within_month (offset T : Z) :
  let tz := JsDate.fixedOffset offset in
  let m := localMidnight offset T in
  let r := calculateDateRange tz T "this week" in
  (JsDate.getDay tz T < JsDate.getDate tz T)%Z ->
  startDate r = (m - days (JsDate.getDay tz T))%Z
  /\ endDate r = (startDate r + days 7)%Z
  /\ description r = "this week"
  /\ JsDate.getDay tz (startDate r) = 0%Z
  /\ (startDate r <= T < endDate r)%Z
  /\ calculateDateRange tz T "thisweek" = r.
Proof.
  intros tz m r H. subst r tz.
  rewrite (this_week_fixed offset T "this week" eq_refl).
  rewrite (this_week_fixed offset T "thisweek" eq_refl).
  fold m. cbn [startDate endDate description].
  pose proof (getDay_range offset T) as W.
  rewrite getDate_fixed in *.
  rewrite DateFromDay_back by lia.
  set (w := JsDate.getDay (JsDate.fixedOffset offset) T) in *.
  set (dom := JsDate.DateFromDay (JsDate.Day (T + offset))) in *.
  assert (M : (m <= T < m + days 1)%Z).
  { unfold m, localMidnight, days, JsDate.msPerDay.
    pose proof (Z.mod_pos_bound (T + offset) 86400000 ltac:(lia)). lia. }
  repeat split; try (unfold days, JsDate.msPerDay in *; lia).
  replace (m - days w)%Z with (m + days (- w))%Z by (unfold days; lia).
  rewrite getDay_plus_days.
  assert (Hw : JsDate.getDay (JsDate.fixedOffset offset) m = w)
    by apply getDay_midnight.
  rewrite Hw. now replace (w + - w)%Z with 0%Z by lia.
Qed.

(** On Wednesday 18 January 2023 at noon UTC the week began on Sunday the
    15th: the window runs from the 15th to the 22nd. *)
Lemma this_week_within_month_witness :
  (JsDate.getDay (JsDate.fixedOffset 0) 1674043200000
   < JsDate.getDate (JsDate.fixedOffset 0) 1674043200000)%Z
  /\ startDate (calculateDateRange (JsDate.fixedOffset 0) 1674043200000 "this week")
     = (localMidnight 0 1674043200000
        - days (JsDate.getDay (JsDate.fixedOffset 0) 1674043200000))%Z.
Proof.
  split; [reflexivity|].
  apply (this_week_within_month 0 1674043200000). reflexivity.
Defined.

(** X4. In a zone that keeps one offset, when the Sunday that starts the
    week of today lies in the month before (the day of the month is at most
    the day of the week), the window of ['this week'] still starts on that
    Sunday, but ends seven days plus the length of that earlier month later:
    the day of the month of the Sunday, plus 7, is set on a date of the
    current month. The window is 35 to 38 days long. *)
Theorem this_week_across_months (offset T : Z) :
  let tz := JsDate.fixedOffset offset in
  let m := localMidnight offset T in
  let r := calculateDateRange tz T "this week" in
  let lastOfPreviousMonth := (m - days (JsDate.getDate tz T))%Z in
  (JsDate.getDate tz T <= JsDate.getDay tz T)%Z ->
  startDate r = (m - days (JsDate.getDay tz T))%Z
  /\ JsDate.getDay tz (startDate r) = 0%Z
  /\ JsDate.getDate tz (lastOfPreviousMonth + days 1) = 1%Z
  /\ (28 <= JsDate.getDate tz lastOfPreviousMonth <= 31)%Z
  /\ endDate r = (startDate r + days (7 + JsDate.getDate tz lastOfPreviousMonth))%Z
  /\ (startDate r + days 35 <= endDate r <= startDate r + days 38)%Z.
Proof.
  intros tz m r p H. subst r p tz.
  rewrite (this_week_fixed offset T "this week" eq_refl).
  fold m. cbn [startDate endDate description].
  pose proof (getDay_range offset T) as W.
  assert (Hw : JsDate.getDay (JsDate.fixedOffset offset) m
               = JsDate.getDay (JsDate.fixedOffset offset) T)
    by apply getDay_midnight.
  replace (m - days (JsDate.getDate (JsDate.fixedOffset offset) T))%Z
    with (m + days (- JsDate.getDate (JsDate.fixedOffset offset) T))%Z
    by (unfold days; lia).
  replace (m + days (- JsDate.getDate (JsDate.fixedOffset offset) T) + days 1)%Z
    with (m + days (1 - JsDate.getDate (JsDate.fixedOffset offset) T))%Z
    by (unfold days; lia).
  rewrite !getDate_plus_days.
  assert (HD : JsDate.Day (m + offset) = JsDate.Day (T + offset))
    by apply midnight_local_day.
  rewrite HD. rewrite getDate_fixed in *.
  set (w := JsDate.getDay (JsDate.fixedOffset offset) T) in *.
  set (D := JsDate.Day (T + offset)) in *.
  set (dom := JsDate.DateFromDay D) in *.
  destruct (DateFromDay_step D) as [B _]. fold dom in B.
  assert (F : JsDate.DateFromDay (D + (1 - dom)) = 1%Z).
  { replace (D + (1 - dom))%Z with (D - (dom - 1))%Z by lia.
    rewrite DateFromDay_back; fold dom; lia. }
  assert (L : (28 <= JsDate.DateFromDay (D + - dom) <= 31)%Z).
  { apply DateFromDay_before_first.
    now replace (D + - dom + 1)%Z with (D + (1 - dom))%Z by lia. }
  assert (S : JsDate.DateFromDay (D - w)
              = (JsDate.DateFromDay (D + - dom) - (w - dom))%Z).
  { replace (D - w)%Z with (D + - dom - (w - dom))%Z by lia.
    apply DateFromDay_back. lia. }
  rewrite S.
  set (len := JsDate.DateFromDay (D + - dom)) in *.
  repeat split; try (unfold days, JsDate.msPerDay in *; lia).
  replace (m - days w)%Z with (m + days (- w))%Z by (unfold days; lia).
  rewrite getDay_plus_days, Hw. now replace (w + - w)%Z with 0%Z by lia.
Qed.

(** On Wednesday 1 February 2023 at noon UTC the week began on Sunday 29
    January: the window runs from there to 8 March, 38 days. *)
Lemma this_week_across_months_witness :
  (JsDate.getDate (JsDate.fixedOffset 0) 1675252800000
   <= JsDate.getDay (JsDate.fixedOffset 0) 1675252800000)%Z
  /\ endDate (calculateDateRange (JsDate.fixedOffset 0) 1675252800000 "this week")
     = (startDate (calculateDateRange (JsDate.fixedOffset 0) 1675252800000 "this week")
        + days 38)%Z.
Proof.
  split; [vm_compute; discriminate|].
  destruct (this_week_across_months 0 1675252800000) as [_ [_ [_ [_ [E _]]]]].
  - vm_compute. discriminate.
  - rewrite E. reflexivity.
Defined.

Section WindowFacts.
Local Open Scope Z_scope.

(** The day of the month of the Sunday [w] days before the day [D]. *)
Lemma sunday_date (D w : Z) :
  0 <= w < 7 ->
  exists len,
    28 <= len <= 31
    /\ (JsDate.DateFromDay (D - w) = JsDate.DateFromDay D - w
        \/ JsDate.DateFromDay (D - w) = JsDate.DateFromDay D - w + len).
Proof.
  intros W. destruct (DateFromDay_step D) as [B _].
  destruct (Z_lt_le_dec w (JsDate.DateFromDay D)) as [H|H].
  - exists 28. split; [lia|]. left. apply DateFromDay_back. lia.
  - assert (F : JsDate.DateFromDay (D - JsDate.DateFromDay D + 1) = 1).
    { replace (D - JsDate.DateFromDay D + 1) with (D - (JsDate.DateFromDay D - 1)) by lia.
      rewrite DateFromDay_back; lia. }
    pose proof (DateFromDay_before_first _ F) as L.
    exists (JsDate.DateFromDay (D - JsDate.DateFromDay D)). split; [exact L|].
    right.
    replace (D - w) with (D - JsDate.DateFromDay D - (w - JsDate.DateFromDay D)) by lia.
    rewrite DateFromDay_back; lia.
Qed.

Lemma midnight_plus_days (offset T k : Z) :
  (localMidnight offset T + days k + offset) mod JsDate.msPerDay = 0.
Proof.
  replace (localMidnight offset T + days k + offset)
    with (localMidnight offset T + offset + k * JsDate.msPerDay)
    by (unfold days; lia).
  rewrite Z.mod_add by (unfold JsDate.msPerDay; lia).
  apply midnight_local_day.
Qed.

End WindowFacts.

(** X5. In a zone that keeps one offset, whatever the preference string,
    the window starts at a local midnight and lasts a whole number of days,
    between 1 and 38; its description is one of six fixed texts. *)
Theorem every_window_whole_days (offset T : Z) (dateRange : string) :
  let r := calculateDateRange (JsDate.fixedOffset offset) T dateRange in
  exists n,
    (1 <= n <= 38)%Z
    /\ endDate r = (startDate r + days n)%Z
    /\ ((startDate r + offset) mod JsDate.msPerDay = 0)%Z
    /\ In (description r)
          ["today"; "tomorrow"; "the next 3 days"; "this week"; "next week";
           "today (weekdays only)"].
Proof.
  intros r. subst r. unfold calculateDateRange.
  rewrite fixed_setHoursZero. rewrite !fixed_setDate.
  set (m := localMidnight offset T).
  assert (Hw : JsDate.getDay (JsDate.fixedOffset offset) m
               = JsDate.getDay (JsDate.fixedOffset offset) T)
    by apply getDay_midnight.
  assert (M0 : ((m + offset) mod JsDate.msPerDay = 0)%Z) by apply midnight_local_day.
  pose proof (getDay_range offset T) as W.
  destruct (oneOf dateRange ["today"]).
  { exists 1%Z. cbn [startDate endDate description].
    repeat split; [lia | lia | f_equal; unfold days; lia | exact M0 | simpl; tauto]. }
  destruct (oneOf dateRange ["tomorrow"]).
  { exists 1%Z. cbn [startDate endDate description].
    repeat split; [lia | lia | unfold days; lia | | simpl; tauto].
    replace (JsDate.getDate (JsDate.fixedOffset offset) m + 1
             - JsDate.getDate (JsDate.fixedOffset offset) m)%Z with 1%Z by lia.
    apply midnight_plus_days. }
  destruct (oneOf dateRange ["next 3 days"; "next3days"]).
  { exists 3%Z. cbn [startDate endDate description].
    repeat split; [lia | lia | f_equal; unfold days; lia | exact M0 | simpl; tauto]. }
  destruct (oneOf dateRange ["this week"; "thisweek"]).
  { cbn [startDate endDate description].
    replace (m + days (JsDate.getDate (JsDate.fixedOffset offset) m
                       - JsDate.getDay (JsDate.fixedOffset offset) m
                       - JsDate.getDate (JsDate.fixedOffset offset) m))%Z
      with (m + days (- JsDate.getDay (JsDate.fixedOffset offset) T))%Z
      by (rewrite Hw; unfold days; lia).
    rewrite getDate_plus_days.
    assert (HD : JsDate.Day (m + offset) = JsDate.Day (T + offset))
      by apply midnight_local_day.
    rewrite HD.
    assert (Hd : JsDate.getDate (JsDate.fixedOffset offset) m
                 = JsDate.DateFromDay (JsDate.Day (T + offset)))
      by (rewrite getDate_fixed; now rewrite HD).
    rewrite Hd.
    set (w := JsDate.getDay (JsDate.fixedOffset offset) T) in *.
    set (D := JsDate.Day (T + offset)) in *.
    destruct (sunday_date D w W) as [len [L S]].
    replace (D + - w)%Z with (D - w)%Z by lia.
    destruct S as [S|S]; rewrite S.
    - exists 7%Z. repeat split; [lia | lia | unfold days; lia | | simpl; tauto].
      apply midnight_plus_days.
    - exists (7 + len)%Z. repeat split; [lia | lia | unfold days; lia | | simpl; tauto].
      apply midnight_plus_days. }
  destruct (oneOf dateRange ["next week"; "nextweek"]).
  { exists 7%Z. cbn [startDate endDate description].
    repeat split; [lia | lia | unfold days; lia | | simpl; tauto].
    apply midnight_plus_days. }
  destruct (oneOf dateRange ["weekdays only"; "weekdays"]).
  { exists 1%Z. cbn [startDate endDate description].
    repeat split; [lia | lia | f_equal; unfold days; lia | exact M0 | simpl; tauto]. }
  exists 1%Z. cbn [startDate endDate description].
  repeat split; [lia | lia | f_equal; unfold days; lia | exact M0 | simpl; tauto].
Qed.


(** ** The frequency gate *)

Section GateFacts.
Local Open Scope Z_scope.

Lemma getDay_any_range (tz : JsDate.TimeZone) (t : Z) : 0 <= JsDate.getDay tz t < 7.
Proof. unfold JsDate.getDay, JsDate.WeekDay. apply Z.mod_pos_bound. lia. Qed.

Lemma week_day_cases (w : Z) :
  0 <= w < 7 -> w = 0 \/ w = 1 \/ w = 2 \/ w = 3 \/ w = 4 \/ w = 5 \/ w = 6.
Proof. lia. Qed.

(** The gate looks at the day of the week only. *)
Lemma gate_same_day (tz1 tz2 : JsDate.TimeZone) (t1 t2 : Z) (frequency : string) :
  JsDate.getDay tz1 t1 = JsDate.getDay tz2 t2 ->
  shouldSendEmail tz1 t1 frequency = shouldSendEmail tz2 t2 frequency.
Proof. unfold shouldSendEmail. now intros ->. Qed.

(** An instant of UTC on a given day of the week: day 0 is a Thursday. *)
Lemma getDay_of_week_day (w : Z) :
  0 <= w < 7 -> JsDate.getDay (JsDate.fixedOffset 0) (days (w - 4)) = w.
Proof.
  intros W. rewrite getDay_fixed.
  replace (days (w - 4) + 0) with (0 + days (w - 4)) by lia.
  rewrite Day_plus_days. unfold JsDate.Day. simpl.
  replace (w - 4 + 4) with w by lia. now apply Z.mod_small.
Qed.

Lemma sendDays_same_day (offset T T' : Z) (frequency : string) :
  JsDate.getDay (JsDate.fixedOffset offset) T = JsDate.getDay (JsDate.fixedOffset 0) T' ->
  sendDays (JsDate.fixedOffset offset) T frequency
  = sendDays (JsDate.fixedOffset 0) T' frequency.
Proof.
  intros E. unfold sendDays. f_equal. apply filter_ext. intros d.
  apply gate_same_day. rewrite !getDay_plus_days. now rewrite E.
Qed.

End GateFacts.

(** X6. In a zone that keeps one offset, over the seven days that start
    at any instant, ['daily'] lets a message through on 7 days, the weekday
    settings on 5, the weekend settings on 2, a setting for one day of the
    week on 1, ['never'] and ['disabled'] on none. *)
Theorem weekly_send_days (offset T : Z) :
  let tz := JsDate.fixedOffset offset in
  sendDays tz T "daily" = 7
  /\ sendDays tz T "weekdays" = 5 /\ sendDays tz T "weekdays only" = 5
  /\ sendDays tz T "weekends" = 2 /\ sendDays tz T "weekends only" = 2
  /\ sendDays tz T "monday" = 1 /\ sendDays tz T "mondays only" = 1
  /\ sendDays tz T "wednesday" = 1 /\ sendDays tz T "wednesdays only" = 1
  /\ sendDays tz T "friday" = 1 /\ sendDays tz T "fridays only" = 1
  /\ sendDays tz T "never" = 0 /\ sendDays tz T "disabled" = 0.
Proof.
  intros tz. subst tz.
  pose proof (getDay_range offset T) as W.
  pose proof (getDay_of_week_day _ W) as E. symmetry in E.
  rewrite !(sendDays_same_day offset T _ _ E).
  set (w := JsDate.getDay (JsDate.fixedOffset offset) T) in *. clearbody w. clear E.
  destruct (week_day_cases w W) as [->|[->|[->|[->|[->|[->| ->]]]]]];
    vm_compute; repeat split.
Qed.

(** X7. In every time zone and at every instant, exactly one of the weekday
    gate and the weekend gate lets a message through, and a gate for one day
    of the week (Monday, Wednesday, Friday) opens on weekdays only. *)
Theorem weekday_and_weekend_gates (tz : JsDate.TimeZone) (today : Z) :
  shouldSendEmail tz today "weekdays" = negb (shouldSendEmail tz today "weekends")
  /\ shouldSendEmail tz today "weekdays only"
     = negb (shouldSendEmail tz today "weekends only")
  /\ (forall day, In day ["monday"; "mondays only"; "wednesday"; "wednesdays only";
                         "friday"; "fridays only"] ->
                  shouldSendEmail tz today day = true ->
                  shouldSendEmail tz today "weekdays" = true
                  /\ shouldSendEmail tz today "weekends" = false).
Proof.
  pose proof (getDay_any_range tz today) as W.
  pose proof (getDay_of_week_day _ W) as E. symmetry in E.
  assert (G : forall f, shouldSendEmail tz today f
                        = shouldSendEmail (JsDate.fixedOffset 0)
                            (days (JsDate.getDay tz today - 4)) f)
    by (intros f; now apply gate_same_day).
  rewrite !G. clear E.
  set (w := JsDate.getDay tz today) in *. clearbody w.
  assert (D : forall day,
             In day ["monday"; "mondays only"; "wednesday"; "wednesdays only";
                     "friday"; "fridays only"] ->
             shouldSendEmail tz today day = true ->
             shouldSendEmail (JsDate.fixedOffset 0) (days (w - 4)) "weekdays" = true
             /\ shouldSendEmail (JsDate.fixedOffset 0) (days (w - 4)) "weekends" = false).
  { intros day I. rewrite G. revert I.
    destruct (week_day_cases w W) as [->|[->|[->|[->|[->|[->| ->]]]]]];
      intros [<-|[<-|[<-|[<-|[<-|[<-|[]]]]]]]; vm_compute; intros; split; congruence. }
  split; [|split; [|exact D]];
    destruct (week_day_cases w W) as [->|[->|[->|[->|[->|[->| ->]]]]]]; reflexivity.
Qed.


(** ** Transient errors *)

Section SearchFacts.
Import RegExp RegExpFacts ValidationFacts.

Lemma list_of_string_inj (a b : string) :
  list_ascii_of_string a = list_ascii_of_string b -> a = b.
Proof.
  intros H. rewrite <- (string_of_list_ascii_of_string a),
                    <- (string_of_list_ascii_of_string b).
  now rewrite H.
Qed.

Lemma Substring_lists (x s : string) :
  Substring x s
  <-> exists u v, list_ascii_of_string s = u ++ list_ascii_of_string x ++ v.
Proof.
  split.
  - intros [before [after ->]].
    exists (list_ascii_of_string before), (list_ascii_of_string after).
    now rewrite !list_of_append.
  - intros [u [v H]].
    exists (string_of_list_ascii u), (string_of_list_ascii v).
    apply list_of_string_inj.
    now rewrite !list_of_append, !list_ascii_of_string_of_list_ascii.
Qed.

Lemma list_foldCase (s : string) :
  list_ascii_of_string (foldCase s) = map foldChar (list_ascii_of_string s).
Proof.
  unfold foldCase. induction s as [|c s IH]; simpl; [reflexivity | now rewrite IH].
Qed.

(** An unanchored pattern matches when a stretch of the text is in its
    language. *)
Lemma search_lang (r : regex) (s : string) :
  search r s = true
  <-> exists u w v, list_ascii_of_string s = u ++ w ++ v /\ lang r w.
Proof.
  unfold search. rewrite matches_lang. split.
  - intros H. inversion H as [| |a b u rest Hu Hrest E| | | |]; subst.
    inversion Hrest as [| |a' b' w v Hw Hv E'| | | |]; subst.
    now exists u, w, v.
  - intros [u [w [v [E H]]]]. rewrite E.
    apply LSeq; [apply lang_any|]. apply LSeq; [exact H | apply lang_any].
Qed.

Lemma lang_litI (p : string) (w : list ascii) :
  lang (litI p) w <-> map foldChar w = list_ascii_of_string p.
Proof.
  revert w. induction p as [|c p IH]; intros w; simpl.
  - split.
    + intros H. inversion H. reflexivity.
    + intros H. destruct w; [constructor | discriminate].
  - split.
    + intros H. inversion H as [| |a b u v Hu Hv E| | | |]; subst.
      inversion Hu as [|q x Hx| | | | |]; subst. simpl.
      apply Ascii.eqb_eq in Hx. f_equal; [exact Hx|]. now apply IH.
    + intros H. destruct w as [|x w]; [discriminate|]. simpl in H.
      injection H as Hx Hw.
      change (x :: w) with ([x] ++ w). apply LSeq.
      * constructor. apply Ascii.eqb_eq. exact Hx.
      * now apply IH.
Qed.

Lemma lang_star_class (P : ascii -> bool) (w : list ascii) :
  lang (Star (Class P)) w <-> Forall (fun c => P c = true) w.
Proof.
  split.
  - intros H. remember (Star (Class P)) as r eqn:R.
    induction H as [| | | | | |a c u v Hc _ Hv IHv]; try discriminate.
    + constructor.
    + injection R as ->. inversion Hc; subst. simpl. constructor; [assumption|].
      now apply IHv.
  - induction 1 as [|c w Hc _ IH]; [constructor|].
    change (c :: w) with ((c :: []) ++ w). apply LStarCons; [now constructor | exact IH].
Qed.

Lemma foldChar_line_break (c : ascii) : isLineBreak (foldChar c) = isLineBreak c.
Proof.
  unfold foldChar. destruct (Str.isUpper c) eqn:U; [|reflexivity].
  unfold Str.isUpper, Str.inRange in U. apply andb_true_iff in U. destruct U as [U1 U2].
  apply Nat.leb_le in U1. apply Nat.leb_le in U2.
  unfold Str.toLowerChar, Str.isUpper, Str.inRange.
  rewrite (proj2 (Nat.leb_le _ _) U1), (proj2 (Nat.leb_le _ _) U2). simpl.
  unfold isLineBreak, Str.code in *. rewrite nat_ascii_embedding by lia.
  destruct (Nat.eqb_spec (nat_of_ascii c + 32) 10); [lia|].
  destruct (Nat.eqb_spec (nat_of_ascii c + 32) 13); [lia|].
  destruct (Nat.eqb_spec (nat_of_ascii c) 10); [lia|].
  destruct (Nat.eqb_spec (nat_of_ascii c) 13); [lia|]. reflexivity.
Qed.

Lemma oneLine_Forall (s : string) :
  oneLine s = true
  <-> Forall (fun c => negb (isLineBreak c) = true) (list_ascii_of_string s).
Proof.
  induction s as [|c s IH]; simpl.
  - split; [constructor | reflexivity].
  - rewrite andb_true_iff, IH. split.
    + intros [A B]. now constructor.
    + intros H. inversion H; subst. now split.
Qed.

Lemma Forall_fold_line (w : list ascii) :
  Forall (fun c => negb (isLineBreak c) = true) (map foldChar w)
  <-> Forall (fun c => negb (isLineBreak c) = true) w.
Proof.
  rewrite Forall_map. split; apply Forall_impl; intros c;
    now rewrite foldChar_line_break.
Qed.

(** A literal pattern under the [i] flag is a substring test on the text
    with its capitals folded. *)
Lemma search_litI (p s : string) :
  search (litI p) s = true <-> Substring p (foldCase s).
Proof.
  rewrite search_lang, Substring_lists, list_foldCase. split.
  - intros [u [w [v [E H]]]]. apply lang_litI in H.
    exists (map foldChar u), (map foldChar v).
    now rewrite E, !map_app, H.
  - intros [u [v E]].
    apply map_eq_app in E. destruct E as [u' [r [E [_ E2]]]].
    apply map_eq_app in E2. destruct E2 as [w [v' [E2 [Hw _]]]].
    exists u', w, v'. split; [now rewrite E, E2|]. now apply lang_litI.
Qed.

(** Two literals with [.*] between them, under the [i] flag. *)
Lemma search_gapI (a b s : string) :
  search (Retry.gapI a b) s = true
  <-> exists between,
        oneLine between = true /\ Substring (a ++ between ++ b) (foldCase s).
Proof.
  rewrite search_lang. split.
  - intros [u [w [v [E H]]]]. unfold Retry.gapI in H.
    inversion H as [| |x y wa rest Ha Hrest E1| | | |]; subst.
    inversion Hrest as [| |x y wm wb Hm Hb E2| | | |]; subst.
    apply lang_litI in Ha. apply lang_litI in Hb.
    apply lang_star_class in Hm.
    exists (string_of_list_ascii (map foldChar wm)). split.
    + apply oneLine_Forall. rewrite list_ascii_of_string_of_list_ascii.
      now apply Forall_fold_line.
    + apply Substring_lists. exists (map foldChar u), (map foldChar v).
      rewrite list_foldCase, E, !list_of_append, list_ascii_of_string_of_list_ascii.
      now rewrite !map_app, Ha, Hb, <- !app_assoc.
  - intros [between [L S]]. apply Substring_lists in S. destruct S as [u [v E]].
    rewrite list_foldCase, !list_of_append in E.
    apply map_eq_app in E. destruct E as [u' [r [E [_ E2]]]].
    apply map_eq_app in E2. destruct E2 as [w [v' [E2 [Hw _]]]].
    apply map_eq_app in Hw. destruct Hw as [wa [r2 [E3 [Ha E4]]]].
    apply map_eq_app in E4. destruct E4 as [wm [wb [E5 [Hm Hb]]]].
    exists u', w, v'. split; [now rewrite E, E2|].
    rewrite E3, E5. unfold Retry.gapI.
    apply LSeq; [now apply lang_litI|]. apply LSeq; [|now apply lang_litI].
    apply lang_star_class. apply Forall_fold_line. rewrite Hm.
    now apply oneLine_Forall.
Qed.

End SearchFacts.

(** X8. [isRetryableError] holds exactly of the errors whose message, its
    ASCII capitals read as lower-case letters, contains one of the phrases
    "service is currently unavailable", "temporary failure", "rate limit"
    and "timeout", or one of the word pairs quota ... exceeded,
    network ... error, internal ... error and service ... error with no
    line break between the two words. *)
Theorem isRetryableError_transient (error : Error) :
  Retry.isRetryableError error = true <-> Transient (message error).
Proof.
  unfold Retry.isRetryableError, Retry.retryablePatterns, Transient.
  cbn [existsb]. rewrite orb_false_r, !orb_true_iff.
  rewrite !search_litI, !search_gapI.
  unfold transientPhrases, transientPairs. split.
  - intros [H|[H|[H|[H|[H|[H|[H|H]]]]]]].
    + left. eexists. split; [|exact H]. simpl. tauto.
    + left. eexists. split; [|exact H]. simpl. tauto.
    + left. eexists. split; [|exact H]. simpl. tauto.
    + right. destruct H as [m [L S]]. exists "quota", "exceeded", m.
      split; [simpl; tauto | now split].
    + left. eexists. split; [|exact H]. simpl. tauto.
    + right. destruct H as [m [L S]]. exists "network", "error", m.
      split; [simpl; tauto | now split].
    + right. destruct H as [m [L S]]. exists "internal", "error", m.
      split; [simpl; tauto | now split].
    + right. destruct H as [m [L S]]. exists "service", "error", m.
      split; [simpl; tauto | now split].
  - intros [[p [I S]]|[a [b [m [I [L S]]]]]].
    + destruct I as [<-|[<-|[<-|[<-|[]]]]]; tauto.
    + destruct I as [E|[E|[E|[E|[]]]]]; injection E as <- <-.
      * right; right; right; left. now exists m.
      * do 5 right. left. now exists m.
      * do 6 right. left. now exists m.
      * do 7 right. now exists m.
Qed.


(** ** The time a retried call sleeps *)

Section BackoffFacts.
Variable env : Env.
Context {A : Type}.
Variable operation : M State A.
Variable theCall : Call.
Variable maxRetries : nat.
Variable baseDelay : Z.

Hypothesis random_unit : forall h, (0 <= random env h)%Q /\ (random env h < 1)%Q.
Hypothesis one_call : forall s0, history (snd (operation s0)) = theCall :: history s0.
Hypothesis no_sleep : match theCall with UtilitiesSleep _ => False | _ => True end.

Lemma operation_sleeps_nothing (s0 : State) :
  sleeps (history (snd (operation s0))) = sleeps (history s0)
  /\ sleptMs (history (snd (operation s0))) = sleptMs (history s0).
Proof.
  rewrite one_call. unfold sleeps. destruct theCall; try contradiction; now split.
Qed.

(** After [d] backoffs from attempt [attempt] on, the loop has slept the
    sum of the [d] base delays and less than a second more for each. *)
Lemma retryLoop_slept fuel attempt lastError s :
  attempt + fuel = maxRetries ->
  let s' := snd (Retry.retryLoop sleep (mathRandom env) operation maxRetries
                   baseDelay (S fuel) attempt lastError s) in
  exists d,
    d <= fuel
    /\ sleeps (history s') = sleeps (history s) + d
    /\ (inject_Z (backoffFloor baseDelay attempt d)
        <= sleptMs (history s') - sleptMs (history s))%Q
    /\ (sleptMs (history s') - sleptMs (history s)
        <= inject_Z (backoffFloor baseDelay attempt d) + 1000 * inject_Z (Z.of_nat d))%Q
    /\ (0 < d ->
        (sleptMs (history s') - sleptMs (history s)
         < inject_Z (backoffFloor baseDelay attempt d) + 1000 * inject_Z (Z.of_nat d))%Q).
Proof.
  cbv zeta. revert attempt lastError s.
  induction fuel as [|fuel IH]; intros attempt lastError s Hsum.
  - rewrite loop_step. destruct (operation_sleeps_nothing s) as [Hs Hm].
    exists 0. destruct (operation s) as [[a|e] s1]; simpl in Hs, Hm |- *.
    + rewrite Hs, Hm. repeat split; try lia; try (intros; lia); try (simpl; change (inject_Z 0) with 0%Q; lra).
    + assert ((attempt =? maxRetries) = true) as -> by (apply Nat.eqb_eq; lia).
      rewrite orb_true_r. simpl.
      rewrite Hs, Hm. repeat split; try lia; try (intros; lia); try (simpl; change (inject_Z 0) with 0%Q; lra).
  - rewrite loop_step. destruct (operation_sleeps_nothing s) as [Hs Hm].
    destruct (operation s) as [[a|e] s1]; simpl in Hs, Hm.
    + exists 0. simpl. rewrite Hs, Hm. repeat split; try lia; try (intros; lia); try (simpl; change (inject_Z 0) with 0%Q; lra).
    + destruct (negb (Retry.isRetryableError e) || (attempt =? maxRetries)).
      * exists 0. simpl. rewrite Hs, Hm. repeat split; try lia; try (intros; lia); try (simpl; change (inject_Z 0) with 0%Q; lra).
      * destruct (IH (S attempt) e (afterBackoff env baseDelay attempt s1) ltac:(lia))
          as [d [Hd [Hs' [Hlo [Hhi Hlt]]]]].
        exists (S d).
        destruct (random_unit (history s1)) as [R0 R1].
        destruct (backoffDelay_bounds baseDelay attempt (random env (history s1)) R0 R1)
          as [B0 B1].
        unfold afterBackoff in *. simpl history in *.
        cbn [sleptMs] in Hlo, Hhi, Hlt.
        unfold sleeps in Hs' |- *. cbn [filter List.length] in Hs'.
        fold (sleeps (history s1)) in Hs'. fold (sleeps (history s)).
        rewrite Hs in Hs'. rewrite Hm in Hlo, Hhi, Hlt.
        cbn [backoffFloor]. rewrite inject_Z_plus, Nat2Z.inj_succ.
        unfold Z.succ. rewrite (inject_Z_plus (Z.of_nat d) 1).
        change (inject_Z 1) with 1%Q.
        repeat split; try lia; try (intros; lia); try (simpl; change (inject_Z 0) with 0%Q; lra).
Qed.

End BackoffFacts.




(** ** Rows of the configuration sheet *)

Section RowFacts.
Import Configuration Validation RegExp ValidationFacts.

(** A valid pair: both cells are filled and match the address pattern. *)
Lemma valid_matches (email calendarId : string) :
  isValid (validateRecipientData email calendarId) = true ->
  matches emailRegex email = true /\ matches emailRegex calendarId = true
  /\ Str.truthy calendarId = true.
Proof.
  unfold validateRecipientData. cbn [isValid].
  destruct (negb (Str.truthy email) || negb (matches emailRegex email)
            || search consecutiveDots email) eqn:E1; [discriminate|].
  destruct (negb (Str.truthy calendarId) || negb (matches emailRegex calendarId)) eqn:E2;
    [discriminate|].
  intros _.
  apply orb_false_iff in E1. destruct E1 as [E1 _].
  apply orb_false_iff in E1. destruct E1 as [_ E1].
  apply orb_false_iff in E2. destruct E2 as [E2a E2b].
  apply negb_false_iff in E1, E2a, E2b. now repeat split.
Qed.

Lemma address_char_plain (c : ascii) :
  addressChar c = true -> Str.isSpace c = false /\ Ascii.eqb c "," = false.
Proof.
  destruct c as [[|] [|] [|] [|] [|] [|] [|] [|]];
    vm_compute; intros H; try discriminate H; split; reflexivity.
Qed.

Lemma split_without_separator (sep : ascii) (s : string) :
  Forall (fun c => Ascii.eqb c sep = false) (list_ascii_of_string s) ->
  Str.split sep s = [s].
Proof.
  induction s as [|c s IH]; simpl; intros H; [reflexivity|].
  inversion H as [|x l Hc Hs]; subst. rewrite Hc, (IH Hs). reflexivity.
Qed.

Lemma trimStart_plain (s : string) :
  Forall (fun c => Str.isSpace c = false) (list_ascii_of_string s) ->
  Str.trimStart s = s.
Proof.
  destruct s as [|c s]; simpl; intros H; [reflexivity|].
  inversion H as [|x l Hc Hs]; subst. now rewrite Hc.
Qed.

Lemma trimEnd_plain (s : string) :
  Forall (fun c => Str.isSpace c = false) (list_ascii_of_string s) ->
  Str.trimEnd s = s.
Proof.
  induction s as [|c s IH]; simpl; intros H; [reflexivity|].
  inversion H as [|x l Hc Hs]; subst. rewrite (IH Hs), Hc. now destruct s.
Qed.

(** A cell that matches the address pattern holds one calendar id: itself. *)
Lemma splitCalendarIds_address (calendarId : string) :
  matches emailRegex calendarId = true -> Str.truthy calendarId = true ->
  splitCalendarIds calendarId = [calendarId].
Proof.
  intros M T. pose proof (emailRegex_chars _ M) as C.
  unfold splitCalendarIds.
  rewrite split_without_separator
    by (revert C; apply Forall_impl; intros c Hc; now apply address_char_plain).
  assert (P : Forall (fun c => Str.isSpace c = false) (list_ascii_of_string calendarId))
    by (revert C; apply Forall_impl; intros c Hc; now apply address_char_plain).
  cbn [map]. unfold Str.trim. rewrite (trimStart_plain _ P), (trimEnd_plain _ P).
  cbn [filter]. now rewrite T.
Qed.

(** A row contributes no record, or the one record of its two cells. *)
Lemma parseRow_shape (cols : Columns) (row : list string) :
  parseRow cols row = []
  \/ exists recipientEmail calendarId,
       cell row (emailColumnIndex cols) = Some recipientEmail
       /\ cell row (calendarIdColumnIndex cols) = Some calendarId
       /\ isValid (validateRecipientData recipientEmail calendarId) = true
       /\ parseRow cols row
          = [mkRecipient recipientEmail calendarId (parsePreferences cols row)
                         false 0%Z 1].
Proof.
  unfold parseRow.
  destruct (cell row (emailColumnIndex cols)) as [recipientEmail|]; [|now left].
  destruct (cell row (calendarIdColumnIndex cols)) as [calendarId|]; [|now left].
  destruct (negb (Str.truthy recipientEmail) || negb (Str.truthy calendarId));
    [now left|].
  destruct (isValid (validateRecipientData recipientEmail calendarId)) eqn:V;
    [|now left].
  cbn [negb].
  match goal with |- context [if ?c then [] else _] => destruct c end; [now left|].
  right. exists recipientEmail, calendarId. repeat split; try assumption.
  destruct (valid_matches _ _ V) as [_ [M T]].
  rewrite (splitCalendarIds_address _ M T). cbn [flat_map]. rewrite V.
  cbn [List.length Nat.ltb Nat.leb app]. unfold Str.indexOf. cbn [Str.indexOfFrom].
  now rewrite String.eqb_refl.
Qed.

End RowFacts.

(** X10. Every record [loadConfiguration] builds from the sheet comes from
    a row of its own: there are at most as many records as data rows, and
    each record is the only one of its row, holds the row's email and
    calendar cells as they are, is valid, and has [isMultiCalendar] false,
    [calendarIndex] 0 and [totalCalendars] 1. *)
Theorem one_record_per_row (headers : list string) (rows : list (list string)) :
  let cols := Configuration.columnsOf headers in
  let recipients := Configuration.parseRecipients (headers :: rows) in
  List.length recipients <= List.length rows
  /\ forall r,
       In r recipients ->
       isMultiCalendar r = false /\ totalCalendars r = 1 /\ calendarIndex r = 0%Z
       /\ Validation.isValid
            (Validation.validateRecipientData (email r) (calendarId r)) = true
       /\ exists row,
            In row rows
            /\ Configuration.parseRow cols row = [r]
            /\ Configuration.cell row (Configuration.emailColumnIndex cols)
               = Some (email r)
            /\ Configuration.cell row (Configuration.calendarIdColumnIndex cols)
               = Some (calendarId r)
            /\ preferences r = Configuration.parsePreferences cols row.
Proof.
  intros cols recipients. subst recipients. cbn [Configuration.parseRecipients].
  fold cols. split.
  - induction rows as [|row rows IH]; [apply Nat.le_refl|].
    cbn [flat_map]. rewrite length_app. cbn [List.length].
    destruct (parseRow_shape cols row) as [->|[e [c [_ [_ [_ ->]]]]]];
      cbn [List.length]; lia.
  - intros r H. apply in_flat_map in H. destruct H as [row [Hrow Hr]].
    destruct (parseRow_shape cols row) as [E|[e [c [He [Hc [V E]]]]]];
      rewrite E in Hr; [contradiction|].
    destruct Hr as [<-|[]]. cbn [isMultiCalendar totalCalendars calendarIndex
                                 email calendarId preferences].
    repeat split; try assumption. exists row. now repeat split.
Qed.

Section TrimFacts.

Lemma toLowerChar_idempotent (c : ascii) :
  Str.toLowerChar (Str.toLowerChar c) = Str.toLowerChar c.
Proof. destruct c as [[|] [|] [|] [|] [|] [|] [|] [|]]; reflexivity. Qed.

Lemma toLowerChar_space (c : ascii) :
  Str.isSpace (Str.toLowerChar c) = Str.isSpace c.
Proof. destruct c as [[|] [|] [|] [|] [|] [|] [|] [|]]; reflexivity. Qed.

Lemma toLowerCase_idempotent (s : string) :
  Str.toLowerCase (Str.toLowerCase s) = Str.toLowerCase s.
Proof.
  unfold Str.toLowerCase. induction s as [|c s IH]; simpl; [reflexivity|].
  now rewrite toLowerChar_idempotent, IH.
Qed.

Lemma trimStart_toLowerCase (s : string) :
  Str.trimStart (Str.toLowerCase s) = Str.toLowerCase (Str.trimStart s).
Proof.
  unfold Str.toLowerCase. induction s as [|c s IH]; simpl; [reflexivity|].
  rewrite toLowerChar_space. now destruct (Str.isSpace c).
Qed.

Lemma trimEnd_toLowerCase (s : string) :
  Str.trimEnd (Str.toLowerCase s) = Str.toLowerCase (Str.trimEnd s).
Proof.
  unfold Str.toLowerCase. induction s as [|c s IH]; simpl; [reflexivity|].
  rewrite IH, toLowerChar_space.
  destruct (Str.trimEnd s); simpl; [now destruct (Str.isSpace c) | reflexivity].
Qed.

Lemma trimStart_idempotent (s : string) :
  Str.trimStart (Str.trimStart s) = Str.trimStart s.
Proof.
  induction s as [|c s IH]; simpl; [reflexivity|].
  destruct (Str.isSpace c) eqn:E; [exact IH|]. simpl. now rewrite E.
Qed.

Lemma trimEnd_idempotent (s : string) :
  Str.trimEnd (Str.trimEnd s) = Str.trimEnd s.
Proof.
  induction s as [|c s IH]; simpl; [reflexivity|].
  destruct (Str.trimEnd s) as [|d r] eqn:E.
  - destruct (Str.isSpace c) eqn:S; simpl; [reflexivity | now rewrite S].
  - change (Str.trimEnd (String c (String d r)))
      with (match Str.trimEnd (String d r) with
            | EmptyString => if Str.isSpace c then EmptyString else String c EmptyString
            | String x y => String c (String x y)
            end).
    now rewrite IH.
Qed.

(** Trimming the end leaves a first character that is no space alone. *)
Lemma trimStart_trimEnd (s : string) :
  Str.trimStart s = s -> Str.trimStart (Str.trimEnd s) = Str.trimEnd s.
Proof.
  destruct s as [|c s]; [reflexivity|]. simpl.
  destruct (Str.isSpace c) eqn:S.
  - intros H. exfalso.
    assert (L : String.length (Str.trimStart s) <= String.length s).
    { clear. induction s as [|d s IH]; simpl; [lia|].
      destruct (Str.isSpace d); simpl; lia. }
    rewrite H in L. simpl in L. lia.
  - intros _. destruct (Str.trimEnd s); simpl; now rewrite S.
Qed.

Lemma trim_idempotent (s : string) : Str.trim (Str.trim s) = Str.trim s.
Proof.
  unfold Str.trim.
  rewrite (trimStart_trimEnd (Str.trimStart s) (trimStart_idempotent s)).
  apply trimEnd_idempotent.
Qed.

Lemma trim_toLowerCase (s : string) :
  Str.trim (Str.toLowerCase s) = Str.toLowerCase (Str.trim s).
Proof. unfold Str.trim. now rewrite trimStart_toLowerCase, trimEnd_toLowerCase. Qed.

End TrimFacts.

(** X11. The filter keywords read from a row are not empty, are
    lower-case and carry no white space at either end. On such keywords
    [filterEventsByKeywords] keeps exactly the events that hold every
    include token and no exclude token as it is written. *)
Theorem sheet_keywords_as_written
    (cols : Configuration.Columns) (row : list string) (keywords : list string) :
  filterKeywords (Configuration.parsePreferences cols row) = Some keywords ->
  (forall k, In k keywords ->
             k <> EmptyString /\ Str.toLowerCase k = k /\ Str.trim k = k)
  /\ forall events event,
       In event (filterEventsByKeywords events (Some keywords))
       <-> In event events /\ RetainedAsWritten keywords event.
Proof.
  intros H.
  assert (N : forall k, In k keywords ->
                        k <> EmptyString /\ Str.toLowerCase k = k /\ Str.trim k = k).
  { unfold Configuration.parsePreferences in H. cbn [filterKeywords] in H.
    unfold Configuration.whenFilled in H.
    destruct (Configuration.cell row (Configuration.filterKeywordsColumnIndex cols))
      as [s|]; [|discriminate].
    destruct (Str.truthy s && Str.truthy (Str.trim s)); [|discriminate].
    injection H as <-. intros k Hk. apply filter_In in Hk. destruct Hk as [Hk T].
    apply in_map_iff in Hk. destruct Hk as [x [<- _]].
    split; [|split].
    - intros E. rewrite E in T. discriminate.
    - apply toLowerCase_idempotent.
    - rewrite trim_toLowerCase. now rewrite trim_idempotent. }
  split; [exact N|].
  intros events event. rewrite filterEventsByKeywords_filter, filter_In, retained_iff.
  rewrite (Retained_as_written keywords event (fun k Hk => proj1 (proj2 (N k Hk)))).
  reflexivity.
Qed.

(** The row of the demonstration sheet with the keyword ['meeting']. *)
Lemma sheet_keywords_as_written_witness :
  filterKeywords
    (Configuration.parsePreferences
       (Configuration.columnsOf
          ["Recipient Email"; "Calendar ID"; "Frequency"; "Filter Keywords"])
       ["active@example.com"; "test@example.com"; "daily"; " Meeting , -Lunch "])
  = Some ["meeting"; "-lunch"]
  /\ forall k, In k ["meeting"; "-lunch"] ->
               k <> EmptyString /\ Str.toLowerCase k = k /\ Str.trim k = k.
Proof.
  split; [reflexivity|].
  exact (proj1 (sheet_keywords_as_written
                  (Configuration.columnsOf
                     ["Recipient Email"; "Calendar ID"; "Frequency"; "Filter Keywords"])
                  ["active@example.com"; "test@example.com"; "daily"; " Meeting , -Lunch "]
                  ["meeting"; "-lunch"] eq_refl)).
Defined.

Section ColumnFacts.
Import Configuration ObjFacts.

Lemma indexOfFrom_bounds (i : Z) (x : string) (l : list string) :
  Str.indexOfFrom i x l = (-1)%Z
  \/ (i <= Str.indexOfFrom i x l)%Z.
Proof.
  revert i. induction l as [|y l IH]; intros i; simpl; [now left|].
  destruct (String.eqb x y); [right; lia|].
  destruct (IH (i + 1)%Z) as [->|H]; [now left | right; lia].
Qed.

Lemma indexOfFrom_shift (i : Z) (x : string) (l : list string) :
  (0 <= i)%Z ->
  Str.indexOfFrom (i + 1) x l
  = (if (Str.indexOfFrom i x l =? -1)%Z then -1 else Str.indexOfFrom i x l + 1)%Z.
Proof.
  revert i. induction l as [|y l IH]; intros i Hi; simpl; [reflexivity|].
  destruct (String.eqb x y).
  - destruct (Z.eqb_spec i (-1)); [lia | reflexivity].
  - apply IH. lia.
Qed.

(** Looking a cell up by its header: the value under the first header of
    that name. *)
Lemma cell_by_header (headers row : list string) (h : string) :
  List.length row = List.length headers ->
  cell row (Str.indexOf h headers) = Obj.get h (combine headers row).
Proof.
  unfold Str.indexOf. revert row.
  induction headers as [|y headers IH]; intros row L.
  - destruct row; [reflexivity | discriminate].
  - destruct row as [|v row]; [discriminate|]. injection L as L.
    cbn [Str.indexOfFrom combine Obj.get].
    destruct (String.eqb h y); [reflexivity|].
    rewrite <- (IH row L).
    change 1%Z with (0 + 1)%Z. rewrite indexOfFrom_shift by lia.
    destruct (indexOfFrom_bounds 0 h headers) as [E|B].
    + rewrite E. reflexivity.
    + destruct (Z.eqb_spec (Str.indexOfFrom 0 h headers) (-1)); [lia|].
      unfold cell.
      destruct (Z.ltb_spec (Str.indexOfFrom 0 h headers + 1) 0); [lia|].
      destruct (Z.ltb_spec (Str.indexOfFrom 0 h headers) 0); [lia|].
      rewrite Z2Nat.inj_add by lia. rewrite Nat.add_comm. reflexivity.
Qed.

Lemma keys_combine (headers row : list string) :
  List.length row = List.length headers ->
  Obj.keys (combine headers row) = headers.
Proof.
  revert row. induction headers as [|y headers IH]; intros row L; [reflexivity|].
  destruct row as [|v row]; [discriminate|]. injection L as L.
  unfold Obj.keys in *. simpl. now rewrite IH.
Qed.

(** Looking a key up does not depend on the order of the entries, when no
    key occurs twice. *)
Lemma get_Permutation {V} (o o' : Obj.t V) (k : string) :
  NoDup (Obj.keys o) -> Permutation o o' -> Obj.get k o = Obj.get k o'.
Proof.
  intros N P.
  assert (N' : NoDup (Obj.keys o')).
  { unfold Obj.keys in *. eapply Permutation_NoDup; [|exact N].
    now apply Permutation_map. }
  destruct (Obj.get k o) as [v|] eqn:E.
  - symmetry. apply in_get; [exact N'|].
    eapply Permutation_in; [exact P|]. now apply get_in.
  - symmetry. apply get_none. apply get_none in E. intros I. apply E.
    unfold Obj.keys in *. eapply Permutation_in; [|exact I].
    apply Permutation_map. now apply Permutation_sym.
Qed.

(** A row is read through its cells under the eight headers only. *)
Lemma parseRow_by_header (headers headers' row row' : list string) :
  (forall h, cell row (Str.indexOf h headers) = cell row' (Str.indexOf h headers')) ->
  parseRow (columnsOf headers) row = parseRow (columnsOf headers') row'.
Proof.
  intros H. unfold parseRow, parsePreferences, columnsOf.
  cbn [emailColumnIndex calendarIdColumnIndex timezoneColumnIndex
       timeFormatColumnIndex dateRangeColumnIndex frequencyColumnIndex
       statusColumnIndex filterKeywordsColumnIndex].
  now rewrite !H.
Qed.

End ColumnFacts.

(** X12. The columns of the sheet may come in any order: when no header
    occurs twice and every row has a cell under every header, moving the
    columns around, headers and cells together, gives the same records. *)
Theorem column_order_irrelevant
    (headers headers' : list string) (rows rows' : list (list string)) :
  NoDup headers ->
  Forall2 (fun row row' =>
             List.length row = List.length headers
             /\ List.length row' = List.length headers'
             /\ Permutation (combine headers row) (combine headers' row'))
          rows rows' ->
  Configuration.parseRecipients (headers :: rows)
  = Configuration.parseRecipients (headers' :: rows').
Proof.
  intros N F. cbn [Configuration.parseRecipients].
  induction F as [|row row' rows rows' [L [L' P]] _ IH]; [reflexivity|].
  cbn [flat_map]. rewrite IH. f_equal.
  apply parseRow_by_header. intros h.
  rewrite (cell_by_header headers row h L), (cell_by_header headers' row' h L').
  apply get_Permutation; [|exact P].
  now rewrite keys_combine.
Qed.

(** The two required columns, swapped. *)
Lemma column_order_irrelevant_witness :
  Configuration.parseRecipients
    [["Recipient Email"; "Calendar ID"]; ["user@example.com"; "cal@example.com"]]
  = Configuration.parseRecipients
      [["Calendar ID"; "Recipient Email"]; ["cal@example.com"; "user@example.com"]].
Proof.
  apply column_order_irrelevant.
  - repeat constructor; simpl; intuition discriminate.
  - constructor; [|constructor]. repeat split. apply perm_swap.
Defined.


(** ** What a computation leaves alone *)

Section KeepsFacts.
Context {X : Type}.
Variable f : State -> X.

Lemma Keeps_ret {A} (a : A) : Keeps f (ret a).
Proof. intros s. reflexivity. Qed.

Lemma Keeps_throw {A} (e : Error) : Keeps f (@throw State A e).
Proof. intros s. reflexivity. Qed.

Lemma Keeps_bind {A B} (m : M State A) (k : A -> M State B) :
  Keeps f m -> (forall a, Keeps f (k a)) -> Keeps f (bind m k).
Proof.
  intros Hm Hk s. unfold bind. specialize (Hm s).
  destruct (m s) as [[a|e] s1]; simpl in *; [|exact Hm].
  now rewrite Hk.
Qed.

Lemma Keeps_tryCatch {A} (m : M State A) (handler : Error -> M State A) :
  Keeps f m -> (forall e, Keeps f (handler e)) -> Keeps f (tryCatch m handler).
Proof.
  intros Hm Hh s. unfold tryCatch. specialize (Hm s).
  destruct (m s) as [[a|e] s1]; simpl in *; [exact Hm|].
  now rewrite Hh.
Qed.

Lemma Keeps_forEach {A} (l : list A) (g : A -> M State unit) :
  (forall x, Keeps f (g x)) -> Keeps f (forEach l g).
Proof.
  intros Hg. induction l as [|x l IH]; simpl; [apply Keeps_ret|].
  apply Keeps_bind; [apply Hg | intros _; exact IH].
Qed.

Lemma Keeps_filterM {A} (p : A -> M State bool) (l : list A) :
  (forall x, Keeps f (p x)) -> Keeps f (filterM p l).
Proof.
  intros Hp. induction l as [|x l IH]; simpl; [apply Keeps_ret|].
  apply Keeps_bind; [apply Hp | intros keep].
  apply Keeps_bind; [exact IH | intros rest; apply Keeps_ret].
Qed.

Lemma Keeps_foldM {A B} (g : B -> A -> M State B) (l : list A) (b : B) :
  (forall b x, Keeps f (g b x)) -> Keeps f (foldM g l b).
Proof.
  intros Hg. revert b. induction l as [|x l IH]; intros b; simpl; [apply Keeps_ret|].
  apply Keeps_bind; [apply Hg | intros b'; apply IH].
Qed.

Lemma Keeps_retryLoop (env : Env) {A} (operation : M State A) maxRetries baseDelay
      fuel attempt lastError :
  Keeps f (mathRandom env) -> (forall ms, Keeps f (sleep ms)) ->
  Keeps f operation ->
  Keeps f (Retry.retryLoop sleep (mathRandom env) operation maxRetries
             baseDelay fuel attempt lastError).
Proof.
  intros Hr Hs Hop. revert attempt lastError.
  induction fuel as [|fuel IH]; intros attempt lastError; simpl.
  - apply Keeps_throw.
  - apply Keeps_tryCatch; [exact Hop | intros e].
    destruct (negb (Retry.isRetryableError e) || (attempt =? maxRetries)).
    + apply Keeps_throw.
    + apply Keeps_bind; [exact Hr | intros rnd].
      apply Keeps_bind; [apply Hs | intros _; apply IH].
Qed.

End KeepsFacts.

(** ** The tracker after the batched fetch *)

Section TallyFacts.
Variable env : Env.

Lemma ledger_newDate : Keeps (ledger env) (newDate env).
Proof. intros s. reflexivity. Qed.

Lemma ledger_mathRandom : Keeps (ledger env) (mathRandom env).
Proof. intros s. reflexivity. Qed.

Lemma ledger_sleep ms : Keeps (ledger env) (sleep ms).
Proof. intros s. reflexivity. Qed.

Lemma ledger_getCalendarById id : Keeps (ledger env) (getCalendarById env id).
Proof. intros s. reflexivity. Qed.

Lemma ledger_getEvents c a b : Keeps (ledger env) (getEvents env c a b).
Proof. intros s. reflexivity. Qed.

Lemma ledger_retry {A} (operation : M State A) :
  Keeps (ledger env) operation ->
  Keeps (ledger env) (retryOperation env operation defaultMaxRetries defaultBaseDelay).
Proof.
  intros H. apply Keeps_retryLoop;
    [apply ledger_mathRandom | apply ledger_sleep | exact H].
Qed.

Lemma ledger_lookupCalendar id : Keeps (ledger env) (lookupCalendar env id).
Proof.
  unfold lookupCalendar. apply Keeps_bind; [apply ledger_getCalendarById|].
  intros [c|]; [apply Keeps_ret | apply Keeps_throw].
Qed.

Lemma ledger_gate recipients : Keeps (ledger env) (filterM (isActive env) recipients).
Proof.
  apply Keeps_filterM. intros r. unfold isActive.
  apply Keeps_bind; [apply ledger_newDate | intros t; apply Keeps_ret].
Qed.

Lemma ledger_grouping active groups :
  Keeps (ledger env) (foldM (addToGroup env) active groups).
Proof.
  apply Keeps_foldM. intros b r. unfold addToGroup.
  apply Keeps_bind; [apply ledger_newDate | intros t; apply Keeps_ret].
Qed.

Lemma Tallied_refl s : Tallied env s s [].
Proof.
  constructor; unfold fetchedEntries, eventsIn, failureTexts; simpl;
    rewrite ?app_nil_r; try lia; reflexivity.
Qed.

Lemma Tallied_ledger s s' : ledger env s' = ledger env s -> Tallied env s s' [].
Proof.
  unfold ledger. intros H. injection H as Ht Hd.
  constructor; unfold metricsOf, fetchedEntries, eventsIn, failureTexts;
    rewrite ?Ht; simpl; rewrite ?app_nil_r; try lia; try reflexivity; try assumption;
        try (unfold deliveries; simpl; congruence).
Qed.

Lemma Tallied_trans s1 s2 s3 a b :
  Tallied env s1 s2 a -> Tallied env s2 s3 b -> Tallied env s1 s3 (a ++ b).
Proof.
  intros [] []. constructor; try congruence.
  - unfold fetchedEntries in *. rewrite filter_app, length_app. lia.
  - unfold eventsIn in *. rewrite map_app, list_sum_app. lia.
  - unfold failureTexts in *. rewrite flat_map_app, app_assoc. congruence.
Qed.

(** One group: a fetched entry counts one calendar and its events, a failed
    one leaves its error text. *)
Lemma fetchGroup_tally (k : string) (group : CalendarGroup) (s : State) :
  exists data s',
    fetchGroup env group s = (Returned data, s')
    /\ Tallied env s s' [(k, data)].
Proof.
  unfold fetchGroup, tryCatch.
  pose proof (ledger_retry _ (ledger_lookupCalendar (groupCalendarId group)) s) as H1.
  unfold bind at 1.
  destruct (retryOperation env (lookupCalendar env (groupCalendarId group))
              defaultMaxRetries defaultBaseDelay s) as [[cal|e] sA].
  - pose proof (ledger_retry _
                  (ledger_getEvents cal (startDate (groupDateRange group))
                                    (endDate (groupDateRange group))) sA) as H2.
    unfold bind at 1.
    destruct (retryOperation env
                (getEvents env cal (startDate (groupDateRange group))
                           (endDate (groupDateRange group)))
                defaultMaxRetries defaultBaseDelay sA) as [[evs|e] sB];
      simpl in H1, H2; rewrite H1 in H2; unfold ledger in H2;
      injection H2 as Ht Hd.
    + eexists. eexists. split; [reflexivity|].
      constructor; unfold metricsOf, fetchedEntries, eventsIn, failureTexts, events, success;
        simpl; rewrite ?Ht; simpl; rewrite ?app_nil_r;
        try lia; try reflexivity; try assumption;
        try (unfold deliveries; simpl; congruence).
    + eexists. eexists. split; [reflexivity|].
      constructor; unfold metricsOf, fetchedEntries, eventsIn, failureTexts, events, success;
        simpl; rewrite ?Ht; simpl; rewrite ?map_app;
        try lia; try reflexivity; try assumption;
        try (unfold deliveries; simpl; congruence).
  - simpl in H1. unfold ledger in H1. injection H1 as Ht Hd.
    eexists. eexists. split; [reflexivity|].
    constructor; unfold metricsOf, fetchedEntries, eventsIn, failureTexts, events, success;
      simpl; rewrite ?Ht; simpl; rewrite ?map_app;
      try lia; try reflexivity; try assumption;
        try (unfold deliveries; simpl; congruence).
Qed.

Lemma fetch_loop_tally (groups : Obj.t CalendarGroup) (cache0 : Obj.t CacheEntry)
      (s : State) :
  NoDup (Obj.keys cache0 ++ Obj.keys groups) ->
  exists entries s',
    foldM (fun calendarCache '(groupKey, group) =>
             data <- fetchGroup env group ;;
             ret (Obj.set groupKey data calendarCache))
          groups cache0 s
    = (Returned (cache0 ++ entries), s')
    /\ Tallied env s s' entries.
Proof.
  revert cache0 s. induction groups as [|[k g] rest IH]; intros cache0 s Hnd; simpl.
  - exists [], s. rewrite app_nil_r. split; [reflexivity | apply Tallied_refl].
  - destruct (fetchGroup_tally k g s) as [data [s1 [Hfetch Ht]]].
    unfold bind at 1. unfold bind at 1. rewrite Hfetch. unfold ret at 1.
    assert (~ In k (Obj.keys cache0)) as Hfresh.
    { intros Hin. simpl in Hnd. apply NoDup_remove_2 in Hnd. apply Hnd.
      apply in_or_app. now left. }
    rewrite (set_fresh k data cache0 Hfresh).
    destruct (IH (cache0 ++ [(k, data)]) s1) as [entries [s' [Hloop Ht']]].
    { unfold Obj.keys in *. rewrite map_app. simpl in *.
      rewrite <- app_assoc. exact Hnd. }
    exists ((k, data) :: entries), s'. split.
    + rewrite Hloop. now rewrite <- app_assoc.
    + apply (Tallied_trans s s1 s' [(k, data)] entries Ht Ht').
Qed.

Lemma fetch_tallied (recipients : list Recipient) (s : State) :
  exists cache s',
    fetchCalendarDataBatched env recipients s = (Returned cache, s')
    /\ Tallied env s s' cache.
Proof.
  destruct (gate_quiet env recipients s) as [active [s1 [Hgate _]]].
  destruct (grouping_quiet env active [] s1) as [s2 [Hgroup _]].
  pose proof (ledger_gate recipients s) as L1. rewrite Hgate in L1. simpl in L1.
  pose proof (ledger_grouping active [] s1) as L2. rewrite Hgroup in L2. simpl in L2.
  set (keyed := rangesFrom env (history s1) active) in *.
  set (groups := fold_left (fun groups p => joinGroup groups (fst p) (snd p)) keyed [])
    in *.
  pose proof (grouping_grouped keyed) as [Hkeys _]. fold groups in Hkeys.
  destruct (distinct_spec (map keyOf keyed)) as [Hnd _].
  destruct (fetch_loop_tally groups [] s2) as [entries [s' [Hloop Ht]]].
  { simpl. now rewrite Hkeys. }
  simpl in Hloop. exists entries, s'. split.
  - unfold fetchCalendarDataBatched.
    rewrite (bind_returned _ _ s active s1 Hgate).
    rewrite (bind_returned _ _ s1 groups s2 Hgroup). exact Hloop.
  - assert (T0 : Tallied env s s2 [])
      by (apply Tallied_ledger; now rewrite L2, L1).
    exact (Tallied_trans s s2 s' [] entries T0 Ht).
Qed.

End TallyFacts.

(** X13. [fetchCalendarDataBatched] never throws, and what it leaves in the
    tracker is what its cache holds: [calendarsProcessed] grows by the
    number of fetched entries, [eventsFound] by the number of their events,
    and the error list by one record per failed entry, with the entry's
    error text as its message, in cache order. The mail counters are not
    touched and no mail is sent. *)
Theorem fetch_tally (env : Env) (recipients : list Recipient) (s : State) :
  exists cache s',
    fetchCalendarDataBatched env recipients s = (Returned cache, s')
    /\ calendarsProcessed (metricsOf s')
       = calendarsProcessed (metricsOf s) + fetchedEntries cache
    /\ eventsFound (metricsOf s') = eventsFound (metricsOf s) + eventsIn cache
    /\ map errMessage (errors (metricsOf s'))
       = map errMessage (errors (metricsOf s)) ++ failureTexts cache
    /\ fetchedEntries cache + List.length (failureTexts cache) = List.length cache
    /\ emailsSent (metricsOf s') = emailsSent (metricsOf s)
    /\ emailsFailed (metricsOf s') = emailsFailed (metricsOf s)
    /\ deliveries env s' = deliveries env s.
Proof.
  destruct (fetch_tallied env recipients s) as [cache [s' [H T]]].
  exists cache, s'. destruct T. repeat split; try assumption.
  clear. unfold fetchedEntries, failureTexts, success.
  induction cache as [|[k d] cache IH]; [reflexivity|].
  cbn [filter flat_map snd]. destruct (fetched d); cbn [List.length app]; lia.
Qed.


(** ** Runs that load no configuration *)

Section StartFacts.
Variable env : Env.

Lemma tracker_mailSendEmail t sb b : Keeps tracker (mailSendEmail env t sb b).
Proof. intros s. reflexivity. Qed.

Lemma tracker_openConfigSheet i n : Keeps tracker (openConfigSheet env i n).
Proof. intros s. reflexivity. Qed.

(** Loading the configuration does not reach the tracker. *)
Lemma tracker_loadConfiguration : Keeps tracker (loadConfiguration env).
Proof.
  unfold loadConfiguration.
  destruct (negb (Str.truthy (orDefault (configGet env "SPREADSHEET_ID") "")));
    [apply Keeps_throw|].
  apply Keeps_bind.
  - apply Keeps_tryCatch.
    + apply Keeps_bind; [apply tracker_openConfigSheet | intros [data|]].
      * apply Keeps_ret.
      * apply Keeps_throw.
    + intros e. apply Keeps_bind; [apply tracker_mailSendEmail | intros _; apply Keeps_ret].
  - intros [configData|]; [|apply Keeps_ret].
    destruct (List.length configData <? 2); [apply Keeps_ret|].
    destruct (_ || _).
    + apply Keeps_bind; [apply tracker_mailSendEmail | intros _; apply Keeps_ret].
    + apply Keeps_ret.
Qed.

(** A run is its guarded block and what follows, from [afterStart]. *)
Lemma run_from_start (s0 : State) :
  sendDailyEventSummary env s0
  = (goOn <- tryCatch (mainExecution env)
               (fun error => addError env error "Main execution" ;; ret true) ;;
     if goOn : bool then
       summary <- getSummary env ;;
       tryCatch
         (mailSendEmail env (activeUserEmail env)
            ("Calendar Summary Script Report - "
             ++ (if summarySuccess summary then "SUCCESS" else "FAILED"))
            (generateAdminSummary summary))
         (fun e => ret tt) ;;
       ret (Some summary)
     else ret None) (afterStart env s0).
Proof. reflexivity. Qed.

Lemma afterStart_state (s0 : State) :
  history (afterStart env s0) = NewDate :: NewDate :: history s0
  /\ metrics (tracker (afterStart env s0)) = mkMetrics 0 0 0 0 0 [].
Proof. split; reflexivity. Qed.

(** When no configuration is loaded the run stops at once: the failure is
    recorded in the tracker and nothing is reported. *)
Lemma run_without_configuration (s0 s2 : State) :
  loadConfiguration env (afterStart env s0) = (Returned None, s2) ->
  fst (sendDailyEventSummary env s0) = Returned None
  /\ history (snd (sendDailyEventSummary env s0)) = NewDate :: history s2.
Proof.
  intros H. rewrite run_from_start.
  assert (G : tryCatch (mainExecution env)
                (fun error => addError env error "Main execution" ;; ret true)
                (afterStart env s0)
              = (Returned false,
                 snd (addError env (mkError "Failed to load configuration")
                               "Configuration loading" s2))).
  { unfold tryCatch, mainExecution.
    rewrite (bind_returned _ _ _ None s2 H). reflexivity. }
  rewrite (bind_returned _ _ _ false _ G). split; reflexivity.
Qed.

(** Loading the configuration from a sheet that opens: what is done with
    its rows. *)
Lemma loadConfiguration_opened (s : State) (id : string) (data : list (list string)) :
  configGet env "SPREADSHEET_ID" = Some id ->
  Str.truthy id = true ->
  openSheet env (history s) id (configSheetName env) = Returned (Some data) ->
  loadConfiguration env s
  = (if List.length data <? 2 then ret None
     else
       let cols := Configuration.columnsOf (hd [] data) in
       if (Configuration.emailColumnIndex cols =? -1)%Z
          || (Configuration.calendarIdColumnIndex cols =? -1)%Z
       then
         mailSendEmail env (activeUserEmail env)
           "ERROR: Calendar Summary Script - Missing Columns"
           ("The daily calendar summary script failed because the configuration sheet is missing required columns. Please ensure 'Recipient Email' and 'Calendar ID' columns exist in sheet "
            ++ Str.quoted (configSheetName env) ++ ".") ;;
         ret None
       else
         ret (Some (Configuration.mkConfig (Configuration.parseRecipients data)
                      id (configSheetName env))))
      (record (OpenConfigSheet id (configSheetName env)) s).
Proof.
  intros Hid Tid Hopen. unfold loadConfiguration.
  rewrite Hid. cbn [orDefault]. rewrite Tid. cbv beta iota zeta.
  rewrite Tid. cbn [negb]. cbv beta iota.
  fold (configSheetName env).
  erewrite bind_returned; cycle 1.
  { unfold tryCatch, bind, openConfigSheet. rewrite Hopen. reflexivity. }
  reflexivity.
Qed.

End StartFacts.



(** X15. A sheet that cannot be reached is noticed, not reported: when
    opening the spreadsheet throws, or the spreadsheet has no sheet of the
    configured name, and MailApp accepts the notice, the owner is sent the
    "CRITICAL" notice with the error text and [sendDailyEventSummary] stops:
    the execution report is never sent. *)
Theorem unreachable_sheet_is_noticed
    (env : Env) (s0 : State) (id : string) (e : Error) :
  configGet env "SPREADSHEET_ID" = Some id ->
  Str.truthy id = true ->
  openSheet env (history (afterStart env s0)) id (configSheetName env) = Thrown e
  \/ (openSheet env (history (afterStart env s0)) id (configSheetName env)
      = Returned None
      /\ e = sheetNotFound (configSheetName env) id) ->
  let opened :=
    OpenConfigSheet id (configSheetName env) :: history (afterStart env s0) in
  mailAnswer env opened (criticalNotice env e) = Returned tt ->
  let r := sendDailyEventSummary env s0 in
  fst r = Returned None
  /\ history (snd r) = NewDate :: criticalNotice env e :: opened
  /\ mailDeliveries env (history (snd r)) = mailDeliveries env (history s0) + 1
  /\ gmailDeliveries env (history (snd r)) = gmailDeliveries env (history s0).
Proof.
  intros Hid Tid Hopen opened Hmail r.
  assert (L : loadConfiguration env (afterStart env s0)
              = (Returned None,
                 record (criticalNotice env e)
                   (record (OpenConfigSheet id (configSheetName env))
                           (afterStart env s0)))).
  { unfold loadConfiguration.
    rewrite Hid. cbn [orDefault]. rewrite Tid. cbv beta iota zeta.
    rewrite Tid. cbn [negb]. cbv beta iota.
    fold (configSheetName env).
    erewrite bind_returned; cycle 1.
    { unfold tryCatch, bind at 1, openConfigSheet.
      unfold mailAnswer, criticalNotice in Hmail. fold opened.
      destruct Hopen as [Hopen|[Hopen ->]]; rewrite Hopen; cbv beta iota;
        unfold throw, bind, mailSendEmail; cbn [history record];
        fold opened; rewrite Hmail; reflexivity. }
    reflexivity. }
  destruct (run_without_configuration env s0 _ L) as [R H].
  subst r. split; [exact R|]. split; [exact H|].
  rewrite H. unfold criticalNotice, record. cbn [history mailDeliveries gmailDeliveries].
  unfold mailAnswer, criticalNotice in Hmail. fold opened. rewrite Hmail.
  unfold opened. rewrite (proj1 (afterStart_state env s0)).
  cbn [mailDeliveries gmailDeliveries]. split; lia.
Qed.

(** A spreadsheet that cannot be opened: one notice, no report. *)
Lemma unreachable_sheet_is_noticed_witness :
  let env := demoEnvWith (configGet demoEnv) (Thrown (mkError "No access")) in
  fst (sendDailyEventSummary env initialState) = Returned None
  /\ history (snd (sendDailyEventSummary env initialState))
     = [NewDate; criticalNotice env (mkError "No access");
        OpenConfigSheet "sheet-id" "Config"; NewDate; NewDate].
Proof.
  cbv zeta.
  destruct (unreachable_sheet_is_noticed
              (demoEnvWith (configGet demoEnv) (Thrown (mkError "No access")))
              initialState "sheet-id" (mkError "No access")
              eq_refl eq_refl (or_introl eq_refl) eq_refl) as [R [H _]].
  split; [exact R | exact H].
Defined.



(** ** Runs that report success *)

Section ReportFacts.
Variable env : Env.

Lemma getSummary_at (s : State) :
  getSummary env s = (Returned (summaryAt env s), record NewDate s).
Proof. reflexivity. Qed.

(** A run whose guarded block goes on reports the summary of the state the
    block ends in. *)
Lemma run_reported (s0 s4 : State) :
  tryCatch (mainExecution env)
    (fun error => addError env error "Main execution" ;; ret true)
    (afterStart env s0)
  = (Returned true, s4) ->
  fst (sendDailyEventSummary env s0) = Returned (Some (summaryAt env s4))
  /\ history (snd (sendDailyEventSummary env s0))
     = MailSendEmail (activeUserEmail env) (reportSubject (summaryAt env s4))
         (generateAdminSummary (summaryAt env s4))
       :: NewDate :: history s4.
Proof.
  intros G. rewrite run_from_start.
  rewrite (bind_returned _ _ _ true _ G). cbv beta iota.
  rewrite (bind_returned _ _ _ _ _ (getSummary_at s4)).
  unfold bind, tryCatch, mailSendEmail, ret, reportSubject.
  destruct (mailSend env _ _ _ _); split; reflexivity.
Qed.

Lemma viaGmail_loadConfiguration : Keeps (viaGmail env) (loadConfiguration env).
Proof.
  unfold loadConfiguration.
  destruct (negb (Str.truthy (orDefault (configGet env "SPREADSHEET_ID") "")));
    [apply Keeps_throw|].
  apply Keeps_bind.
  - apply Keeps_tryCatch.
    + apply Keeps_bind; [intros s; reflexivity | intros [data|]].
      * apply Keeps_ret.
      * apply Keeps_throw.
    + intros e. apply Keeps_bind; [intros s; reflexivity | intros _; apply Keeps_ret].
  - intros [configData|]; [|apply Keeps_ret].
    destruct (List.length configData <? 2); [apply Keeps_ret|].
    destruct (_ || _).
    + apply Keeps_bind; [intros s; reflexivity | intros _; apply Keeps_ret].
    + apply Keeps_ret.
Qed.

Lemma no_failure_text (cache : Obj.t CacheEntry) :
  failureTexts cache = [] ->
  Forall (fun c => success (snd c) = true) cache
  /\ fetchedEntries cache = List.length cache.
Proof.
  unfold failureTexts, fetchedEntries, success.
  induction cache as [|[k d] cache IH]; [now split|].
  cbn [flat_map filter snd]. destruct (fetched d) eqn:F; [|discriminate].
  cbn [app]. intros H. destruct (IH H) as [A B]. split.
  - constructor; [cbn [snd]; now rewrite F | exact A].
  - cbn [List.length]. now rewrite B.
Qed.

(** The queue is sent without a throw, each message going one of three
    ways. *)
Lemma queue_sent (emailQueue : list EmailData) (s : State) :
  exists s' p f x,
    (if 0 <? List.length emailQueue
     then sendEmailsBatched env emailQueue else ret tt) s = (Returned tt, s')
    /\ p + f + x = List.length emailQueue
    /\ Delivered env s s' p f x.
Proof.
  destruct (0 <? List.length emailQueue) eqn:E.
  - destruct (batchLoop_accounts env (List.length emailQueue) 0 emailQueue s
                ltac:(lia)) as [R [p [f [x [Hsum D]]]]].
    exists (snd (sendEmailsBatched env emailQueue s)), p, f, x.
    unfold sendEmailsBatched in *. split.
    + destruct (batchLoop env (List.length emailQueue) 0 emailQueue s) as [o s'].
      simpl in R. now subst o.
    + split; [lia | exact D].
  - apply Nat.ltb_ge in E. exists s, 0, 0, 0. split; [reflexivity|].
    split; [lia | apply Delivered_refl].
Qed.

End ReportFacts.

(** X17. A report of success tells the whole run was clean. When
    [sendDailyEventSummary] hands the owner a summary whose [success] holds,
    the configuration was loaded, every calendar group of the cache was
    fetched, and every queued message was accepted by GmailApp at the first
    channel: [calendarsProcessed] is the number of cache entries,
    [emailsSent] the number of queued messages and of messages GmailApp
    accepted during the run, and no error was recorded. *)
Theorem success_report_means_clean_run
    (env : Env) (s0 : State) (summary : ExecutionSummary) :
  fst (sendDailyEventSummary env s0) = Returned (Some summary) ->
  summarySuccess summary = true ->
  exists config cache s2 s3,
    loadConfiguration env (afterStart env s0) = (Returned (Some config), s2)
    /\ fetchCalendarDataBatched env (Configuration.recipients config) s2
       = (Returned cache, s3)
    /\ Forall (fun c => success (snd c) = true) cache
    /\ calendarsProcessed (summaryMetrics summary) = List.length cache
    /\ eventsFound (summaryMetrics summary) = eventsIn cache
    /\ emailsSent (summaryMetrics summary)
       = List.length (buildEmailQueue env (reconcile cache))
    /\ emailsFailed (summaryMetrics summary) = 0
    /\ errors (summaryMetrics summary) = []
    /\ viaGmail env (snd (sendDailyEventSummary env s0))
       = viaGmail env s0 + emailsSent (summaryMetrics summary).
Proof.
  intros R S.
  set (guarded := tryCatch (mainExecution env)
                    (fun error => addError env error "Main execution" ;; ret true)).
  pose proof (tracker_loadConfiguration env (afterStart env s0)) as Kt.
  pose proof (viaGmail_loadConfiguration env (afterStart env s0)) as Kg.
  destruct (loadConfiguration env (afterStart env s0)) as [[[config|]|e] s2] eqn:L;
    cbn [snd] in Kt, Kg.
  - destruct (fetch_tallied env (Configuration.recipients config) s2)
      as [cache [s3 [HF T]]].
    destruct (queue_sent env (buildEmailQueue env (reconcile cache)) s3)
      as [s4 [p [f [x [HS [Hsum D]]]]]].
    assert (G : guarded (afterStart env s0) = (Returned true, s4)).
    { unfold guarded, tryCatch, mainExecution.
      rewrite (bind_returned _ _ _ (Some config) s2 L). cbv beta iota.
      rewrite (bind_returned _ _ _ cache s3 HF). cbv beta zeta.
      rewrite (bind_returned _ _ _ tt s4 HS). reflexivity. }
    destruct (run_reported env s0 s4 G) as [R' H]. rewrite R' in R.
    injection R as <-. cbn [summaryAt summarySuccess summaryMetrics] in *.
    apply andb_true_iff in S. destruct S as [S1 S2].
    apply Nat.eqb_eq in S1, S2.
    destruct D as [Dprimary Dfallback Dsent Dfailed Derrors Dcalendars Devents _].
    destruct T as [Tcalendars Tevents Terrors Tsent Tfailed _ _ Tmail].
    unfold metricsOf in *.
    assert (M1 : metrics (tracker s2) = mkMetrics 0 0 0 0 0 [])
      by (rewrite Kt; apply afterStart_state).
    rewrite M1 in *. cbn [calendarsProcessed eventsFound emailsSent emailsFailed
                          errors map app List.length] in *.
    assert (E3 : failureTexts cache = []).
    { apply length_zero_iff_nil. rewrite <- Terrors, length_map. lia. }
    destruct (no_failure_text cache E3) as [A B].
    exists config, cache, s2, s3. split; [reflexivity|]. split; [exact HF|].
    split; [exact A|]. split; [lia|]. split; [lia|]. split; [lia|]. split; [lia|].
    split; [now apply length_zero_iff_nil|].
    unfold viaGmail in *. rewrite H. cbn [gmailDeliveries].
    unfold deliveries in Tmail. injection Tmail as Hg _.
    rewrite (proj1 (afterStart_state env s0)) in Kg. cbn [gmailDeliveries] in Kg.
    lia.
  - exfalso.
    assert (G : guarded (afterStart env s0)
                = (Returned false,
                   snd (addError env (mkError "Failed to load configuration")
                                 "Configuration loading" s2))).
    { unfold guarded, tryCatch, mainExecution.
      rewrite (bind_returned _ _ _ None s2 L). reflexivity. }
    rewrite run_from_start in R. fold guarded in R.
    rewrite (bind_returned _ _ _ false _ G) in R. discriminate.
  - exfalso.
    assert (G : guarded (afterStart env s0)
                = (Returned true, snd (addError env e "Main execution" s2))).
    { unfold guarded, tryCatch, mainExecution.
      rewrite (bind_thrown _ _ _ e s2 L). reflexivity. }
    destruct (run_reported env s0 _ G) as [R' _]. rewrite R' in R.
    injection R as <-. cbn [summaryAt summarySuccess] in S.
    apply andb_true_iff in S. destruct S as [S1 _]. apply Nat.eqb_eq in S1.
    cbn in S1. rewrite length_app in S1. cbn in S1. lia.
Qed.

(** The demonstration run without the recipient GmailApp refuses: three
    rows, one calendar group that is fetched and one recipient who is not
    due, two messages accepted by GmailApp. *)
Lemma success_report_means_clean_run_witness :
  let env :=
    demoEnvWith (configGet demoEnv)
      (Returned (Some [ ["Recipient Email"; "Calendar ID"; "Frequency"];
                        ["active@example.com"; "test@example.com"; "daily"];
                        ["second@example.com"; "test@example.com"; "daily"];
                        ["weekend@example.com"; "test@example.com"; "weekends"] ])) in
  exists summary,
    fst (sendDailyEventSummary env initialState) = Returned (Some summary)
    /\ summarySuccess summary = true
    /\ emailsSent (summaryMetrics summary) = 2
    /\ viaGmail env (snd (sendDailyEventSummary env initialState)) = 2.
Proof.
  cbv zeta.
  set (env := demoEnvWith (configGet demoEnv) _).
  destruct (sendDailyEventSummary env initialState) as [[[summary|]|e] sF] eqn:R;
    try (exfalso; vm_compute in R; discriminate).
  assert (S : summarySuccess summary = true)
    by (vm_compute in R; injection R as <- _; reflexivity).
  assert (N : emailsSent (summaryMetrics summary) = 2)
    by (vm_compute in R; injection R as <- _; reflexivity).
  exists summary. split; [reflexivity|]. split; [exact S|]. split; [exact N|].
  pose proof (success_report_means_clean_run env initialState summary) as C.
  rewrite R in C. destruct (C eq_refl S) as [_ [_ [_ [_ [_ [_ [_ [_ [_ [_ [_ [_ G]]]]]]]]]]]].
  cbn [snd] in G |- *. rewrite G, N. reflexivity.
Defined.


(** ** The events of a summary, in order *)

Section SortFacts.

Lemma insertByStart_permutation (e : CalendarEvent) (l : list CalendarEvent) :
  Permutation (insertByStart e l) (e :: l).
Proof.
  induction l as [|x l IH]; simpl; [apply Permutation_refl|].
  destruct (getStartTime e <=? getStartTime x)%Z; [apply Permutation_refl|].
  eapply perm_trans; [apply perm_skip, IH | apply perm_swap].
Qed.

Lemma sortByStart_permutation (l : list CalendarEvent) :
  Permutation (sortByStart l) l.
Proof.
  unfold sortByStart. induction l as [|x l IH]; simpl; [constructor|].
  eapply perm_trans; [apply insertByStart_permutation | now apply perm_skip].
Qed.

Lemma insertByStart_sorted (e : CalendarEvent) (l : list CalendarEvent) :
  StronglySorted startsNoLater l -> StronglySorted startsNoLater (insertByStart e l).
Proof.
  induction 1 as [|x l Hs IH Hx]; simpl.
  - constructor; constructor.
  - destruct (Z.leb_spec (getStartTime e) (getStartTime x)) as [L|L].
    + constructor; [now constructor|]. constructor; [exact L|].
      revert Hx. apply Forall_impl. intros y Hy. unfold startsNoLater in *. lia.
    + constructor; [exact IH|].
      eapply Permutation_Forall;
        [apply Permutation_sym, insertByStart_permutation|].
      constructor; [unfold startsNoLater; lia | exact Hx].
Qed.

Lemma sortByStart_sorted (l : list CalendarEvent) :
  StronglySorted startsNoLater (sortByStart l).
Proof.
  unfold sortByStart. induction l as [|x l IH]; simpl; [constructor|].
  now apply insertByStart_sorted.
Qed.

(** An event is put in front of the events that start when it does. *)
Lemma insertByStart_startingAt (t : Z) (e : CalendarEvent) (l : list CalendarEvent) :
  startingAt t (insertByStart e l) = startingAt t (e :: l).
Proof.
  unfold startingAt. induction l as [|x l IH]; [reflexivity|].
  cbn [insertByStart].
  destruct (Z.leb_spec (getStartTime e) (getStartTime x)) as [L|L]; [reflexivity|].
  cbn [filter] in *. rewrite IH.
  destruct (Z.eqb_spec (getStartTime e) t) as [E|E]; [|reflexivity].
  destruct (Z.eqb_spec (getStartTime x) t) as [F|F]; [lia | reflexivity].
Qed.

Lemma sortByStart_startingAt (t : Z) (l : list CalendarEvent) :
  startingAt t (sortByStart l) = startingAt t l.
Proof.
  unfold sortByStart. induction l as [|x l IH]; [reflexivity|].
  cbn [fold_right]. rewrite insertByStart_startingAt.
  unfold startingAt in *. cbn [filter]. now rewrite IH.
Qed.

End SortFacts.

(** X18. The events a summary shows are the events of the recipient's
    fetched calendars that pass the keyword filter, each as often as it was
    fetched, in the order of their start times; events that start at the
    same instant keep the order they were merged in. *)
Theorem summary_events_in_order (data : RecipientData) :
  StronglySorted startsNoLater (summaryEvents data)
  /\ Permutation (summaryEvents data) (mergedEvents data)
  /\ forall t, startingAt t (summaryEvents data) = startingAt t (mergedEvents data).
Proof.
  assert (E : summaryEvents data = sortByStart (mergedEvents data)) by reflexivity.
  rewrite E. split; [apply sortByStart_sorted|].
  split; [apply sortByStart_permutation|].
  intros t. apply sortByStart_startingAt.
Qed.

(** ** Who speaks for a recipient listed more than once *)

Section FirstFacts.
Import ObjFacts.

Lemma firstNaming_snoc e visited data r :
  firstNaming e (visited ++ [(data, r)])
  = match firstNaming e visited with
    | Some first => Some first
    | None => if String.eqb (email r) e then Some (data, r) else None
    end.
Proof.
  unfold firstNaming. induction visited as [|p visited IH]; simpl.
  - reflexivity.
  - destruct (String.eqb (email (snd p)) e); [reflexivity | exact IH].
Qed.

Lemma reconcileOne_key_list data acc r :
  Obj.keys (reconcileOne data acc r)
  = if Obj.has (email r) acc then Obj.keys acc else Obj.keys acc ++ [email r].
Proof.
  unfold reconcileOne.
  destruct (Obj.has (email r) acc) eqn:H.
  - destruct (Obj.get (email r) acc) as [[rep cals range he errs]|] eqn:G.
    + destruct (fetched data); rewrite keys_set, H; reflexivity.
    + reflexivity.
  - rewrite get_set_same.
    destruct (fetched data); rewrite keys_set;
      assert (Obj.has (email r)
                (Obj.set (email r)
                   (mkRecipientData r [] (entryDateRange data) false []) acc) = true)
        as -> by (unfold Obj.has; now rewrite get_set_same);
      rewrite keys_set, H; reflexivity.
Qed.

Lemma reconcileOne_first data acc r visited :
  FirstKept visited acc ->
  FirstKept (visited ++ [(data, r)]) (reconcileOne data acc r).
Proof.
  intros [K G]. split.
  - rewrite reconcileOne_key_list, map_app. cbn [map snd]. rewrite distinct_snoc.
    rewrite <- K.
    assert (E : existsb (String.eqb (email r)) (Obj.keys acc) = Obj.has (email r) acc).
    { destruct (Obj.has (email r) acc) eqn:H.
      - apply existsb_eqb_in. now apply has_true.
      - destruct (existsb (String.eqb (email r)) (Obj.keys acc)) eqn:X; [|reflexivity].
        apply existsb_eqb_in in X. apply has_false in H. contradiction. }
    now rewrite E.
  - intros e. rewrite firstNaming_snoc.
    destruct (String.eqb_spec (email r) e) as [<-|N].
    + specialize (G (email r)). unfold reconcileOne.
      destruct (Obj.has (email r) acc) eqn:H.
      * unfold Obj.has in H.
        destruct (Obj.get (email r) acc) as [[rep cals range he errs]|] eqn:Ga;
          [|discriminate].
        destruct G as [first [F [R D]]]. rewrite F.
        destruct (fetched data); rewrite get_set_same; exists first;
          repeat split; assumption.
      * unfold Obj.has in H.
        destruct (Obj.get (email r) acc) eqn:Ga; [discriminate|].
        rewrite G, get_set_same.
        destruct (fetched data); rewrite get_set_same; exists (data, r);
          repeat split; reflexivity.
    + rewrite reconcileOne_other by congruence.
      specialize (G e). destruct (Obj.get e acc) as [d|].
      * destruct G as [first [F RD]]. exists first. now rewrite F.
      * now rewrite G.
Qed.

Lemma reconcile_first (calendarData : Obj.t CacheEntry) :
  FirstKept (occurrences calendarData) (reconcile calendarData).
Proof.
  rewrite reconcile_as_one_loop.
  apply (fold_left_invariant
           (fun acc p => reconcileOne (fst p) acc (snd p)) FirstKept).
  - split; [reflexivity|]. intros e. reflexivity.
  - intros visited [data r] acc H. now apply reconcileOne_first.
Qed.

End FirstFacts.



(** ** The order in which a queue goes out *)

Section OrderFacts.
Variable env : Env.
Hypothesis accepts : GmailAccepts env.

Lemma sentMore_zero (s : State) : sentMore 0 [] s = s.
Proof. destruct s as [h [t []]]. reflexivity. Qed.

Lemma sentMore_more (n n' : nat) (calls calls' : list Call) (s : State) :
  sentMore n' calls' (sentMore n calls s) = sentMore (n' + n) (calls' ++ calls) s.
Proof.
  unfold sentMore. cbn [history tracker metrics startTime calendarsProcessed
                        eventsFound emailsSent emailsFailed retriesPerformed errors].
  now rewrite app_assoc, Nat.add_assoc.
Qed.

(** An accepted message: one call, one count. *)
Lemma sendOne_accepted (emailData : EmailData) (s : State) :
  sendOne env emailData s = (Returned tt, sentMore 1 [gmailCall emailData] s).
Proof.
  unfold sendOne, tryCatch.
  assert (P : sendPrimary env emailData s
              = (Returned tt, record (gmailCall emailData) s)).
  { unfold sendPrimary, retryOperation, Retry.retryOperationWith.
    apply retryLoop_returned. unfold gmailSendEmail. now rewrite accepts. }
  rewrite (bind_returned _ _ _ tt _ P). reflexivity.
Qed.

Lemma forEach_accepted (batch : list EmailData) (s : State) :
  forEach batch (sendOne env) s
  = (Returned tt, sentMore (List.length batch) (rev (map gmailCall batch)) s).
Proof.
  revert s. induction batch as [|m batch IH]; intros s.
  - cbn [forEach List.length map rev]. now rewrite sentMore_zero.
  - cbn [forEach]. rewrite (bind_returned _ _ _ tt _ (sendOne_accepted m s)).
    rewrite IH, sentMore_more. cbn [List.length map rev].
    rewrite Nat.add_1_r. reflexivity.
Qed.

(** A stretch of messages after none of which a pause is due. *)
Lemma sendTrace_run (l1 l2 : list EmailData) (i total : nat) :
  (forall j, i <= j < i + List.length l1 -> pauseAfter j total = []) ->
  sendTrace i total (l1 ++ l2)
  = map gmailCall l1 ++ sendTrace (i + List.length l1) total l2.
Proof.
  revert i. induction l1 as [|m l1 IH]; intros i H.
  - cbn [app map List.length]. now rewrite Nat.add_0_r.
  - cbn [app map List.length sendTrace].
    rewrite (H i) by (cbn [List.length]; lia). cbn [app]. f_equal.
    rewrite IH.
    + f_equal. f_equal. lia.
    + intros j Hj. apply H. cbn [List.length]. lia.
Qed.

Lemma no_pause_inside (k j total : nat) :
  10 * k <= j < 10 * k + 9 -> pauseAfter j total = [].
Proof.
  intros H. unfold pauseAfter, BATCH_SIZE.
  assert (E : S j mod 10 = S j - 10 * k).
  { symmetry. apply (Nat.mod_unique _ _ k); lia. }
  destruct (Nat.eqb_spec (S j mod 10) 0) as [Z|Z]; [lia | reflexivity].
Qed.

Lemma pause_at_end (k total : nat) :
  pauseAfter (10 * k + 9) total
  = if 10 * S k <? total then [UtilitiesSleep DELAY_BETWEEN_BATCHES] else [].
Proof.
  unfold pauseAfter, BATCH_SIZE.
  assert (E : S (10 * k + 9) mod 10 = 0).
  { symmetry. apply (Nat.mod_unique _ _ (S k)); lia. }
  rewrite E. cbn [Nat.eqb andb].
  now replace (S (10 * k + 9)) with (10 * S k) by lia.
Qed.

(** The calls of one batch, and of the pause that follows it. *)
Lemma sendTrace_batch (k total : nat) (rest : list EmailData) :
  rest <> [] -> total = 10 * k + List.length rest ->
  sendTrace (10 * k) total rest
  = map gmailCall (firstn 10 rest)
    ++ (if 10 * S k <? total then [UtilitiesSleep DELAY_BETWEEN_BATCHES] else [])
    ++ sendTrace (10 * S k) total (skipn 10 rest).
Proof.
  intros Hne Ht.
  destruct (Nat.lt_ge_cases (List.length rest) 10) as [Hs|Hl].
  - (* the last batch, not full *)
    rewrite firstn_all2 by lia. rewrite skipn_all2 by lia.
    assert (B : (10 * S k <? total) = false) by (apply Nat.ltb_ge; lia).
    rewrite B. cbn [app sendTrace]. rewrite app_nil_r.
    rewrite <- (app_nil_r rest) at 1. rewrite sendTrace_run.
    + cbn [sendTrace]. now rewrite app_nil_r.
    + intros j Hj. apply (no_pause_inside k). lia.
  - (* a full batch *)
    assert (F : List.length (firstn 9 rest) = 9) by (rewrite length_firstn; lia).
    assert (R : rest = firstn 9 rest ++ skipn 9 rest)
      by (symmetry; apply firstn_skipn).
    destruct (skipn 9 rest) as [|m tail] eqn:T.
    { exfalso. assert (List.length (skipn 9 rest) = 0) by now rewrite T.
      rewrite length_skipn in H. lia. }
    assert (F10 : firstn 10 rest = firstn 9 rest ++ [m]).
    { rewrite R at 1. rewrite firstn_app, F. replace (10 - 9) with 1 by lia.
      rewrite (firstn_all2 (n := 10)) by (rewrite F; lia). reflexivity. }
    assert (S10 : skipn 10 rest = tail).
    { rewrite R at 1. rewrite skipn_app, F. replace (10 - 9) with 1 by lia.
      rewrite (skipn_all2 (n := 10)) by (rewrite F; lia). reflexivity. }
    rewrite F10, S10. rewrite R at 1. rewrite sendTrace_run.
    + rewrite F. cbn [sendTrace]. rewrite pause_at_end.
      rewrite map_app. cbn [map]. rewrite <- !app_assoc. cbn [app].
      replace (S (10 * k + 9)) with (10 * S k) by lia.
      reflexivity.
    + intros j Hj. apply (no_pause_inside k). rewrite F in Hj. exact Hj.
Qed.

Lemma sleep_is_sentMore (s : State) :
  record (UtilitiesSleep DELAY_BETWEEN_BATCHES) s
  = sentMore 0 [UtilitiesSleep DELAY_BETWEEN_BATCHES] s.
Proof. destruct s as [h [t []]]. reflexivity. Qed.

(** The loop from the batch numbered [k] on. *)
Lemma batchLoop_accepted (fuel k : nat) (emailQueue : list EmailData) (s : State) :
  List.length emailQueue - 10 * k <= fuel ->
  batchLoop env fuel (10 * k) emailQueue s
  = (Returned tt,
     sentMore (List.length emailQueue - 10 * k)
       (rev (sendTrace (10 * k) (List.length emailQueue)
                       (skipn (10 * k) emailQueue)))
       s).
Proof.
  revert k s. induction fuel as [|fuel IH]; intros k s Hfuel.
  - cbn [batchLoop]. replace (List.length emailQueue - 10 * k) with 0 by lia.
    rewrite skipn_all2 by lia. cbn [sendTrace rev]. now rewrite sentMore_zero.
  - cbn [batchLoop]. unfold BATCH_SIZE.
    destruct (Nat.ltb_spec (10 * k) (List.length emailQueue)) as [Lt|Ge].
    + set (rest := skipn (10 * k) emailQueue).
      assert (Lr : List.length emailQueue = 10 * k + List.length rest)
        by (unfold rest; rewrite length_skipn; lia).
      assert (Ne : rest <> []).
      { intros E. rewrite E in Lr. cbn [List.length] in Lr. lia. }
      assert (Sl : slice (10 * k) (10 * k + 10) emailQueue = firstn 10 rest).
      { unfold slice, rest. f_equal. lia. }
      rewrite Sl.
      rewrite (bind_returned _ _ _ tt _ (forEach_accepted (firstn 10 rest) s)).
      assert (Sk : skipn (10 * S k) emailQueue = skipn 10 rest).
      { unfold rest. rewrite skipn_skipn. f_equal. lia. }
      pose proof (sendTrace_batch k (List.length emailQueue) rest Ne Lr) as B.
      replace (10 * k + 10) with (10 * S k) by lia.
      specialize (IH (S k)).
      destruct (10 * S k <? List.length emailQueue) eqn:More.
      * erewrite bind_returned; [|reflexivity].
        rewrite IH by lia.
        unfold sleep. rewrite sleep_is_sentMore.
        rewrite !sentMore_more. rewrite B, Sk. f_equal. f_equal.
        -- rewrite length_firstn. apply Nat.ltb_lt in More. lia.
        -- rewrite !rev_app_distr. cbn [rev app]. now rewrite <- !app_assoc.
      * erewrite bind_returned; [|reflexivity].
        rewrite IH by (apply Nat.ltb_ge in More; lia).
        rewrite !sentMore_more. rewrite B, Sk. f_equal. f_equal.
        -- rewrite length_firstn. apply Nat.ltb_ge in More. lia.
        -- cbn [app]. rewrite !rev_app_distr. reflexivity.
    + replace (List.length emailQueue - 10 * k) with 0 by lia.
      rewrite skipn_all2 by lia. cbn [sendTrace rev]. now rewrite sentMore_zero.
Qed.

End OrderFacts.

(** X20. When GmailApp accepts every message, [sendEmailsBatched] hands
    it the messages of the queue one by one, in queue order and once each,
    and sleeps 100 ms after every tenth message except the last of the
    queue; it makes no other call. [emailsSent] grows by the length of the
    queue and nothing else changes in the tracker. *)
Theorem accepted_queue_goes_out_in_order
    (env : Env) (emailQueue : list EmailData) (s : State) :
  GmailAccepts env ->
  sendEmailsBatched env emailQueue s
  = (Returned tt,
     sentMore (List.length emailQueue)
       (rev (sendTrace 0 (List.length emailQueue) emailQueue)) s).
Proof.
  intros A. unfold sendEmailsBatched.
  pose proof (batchLoop_accepted env A (List.length emailQueue) 0 emailQueue s) as H.
  change (10 * 0) with 0 in H.
  rewrite Nat.sub_0_r in H. cbn [skipn] in H. apply H. lia.
Qed.

(** Twelve messages to one address: ten calls, a pause, two calls. *)
Lemma accepted_queue_goes_out_in_order_witness :
  GmailAccepts acceptingEnv
  /\ sleeps (history (snd (sendEmailsBatched acceptingEnv
                             (repeat (mkEmail "a@example.com" "s" "b" None) 12)
                             initialState))) = 1.
Proof.
  assert (A : GmailAccepts acceptingEnv) by (intros h to subject body options; reflexivity).
  split; [exact A|].
  rewrite (accepted_queue_goes_out_in_order _ _ initialState A). reflexivity.
Defined.

(** ** The configuration manager *)

Module ConfigFacts.
Import ConfigurationManager.

Lemma asks_zero s : asks 0 s = s.
Proof. now destruct s. Qed.

Lemma asks_asks n m s : asks n (asks m s) = asks (n + m) s.
Proof. unfold asks. cbn [cache properties asked]. f_equal. lia. Qed.

Lemma answered_asks s : answered s = asks 1 s.
Proof. reflexivity. Qed.

Lemma get_mapDelete {V} k (o : Obj.t V) : Obj.get k (mapDelete k o) = None.
Proof.
  unfold mapDelete. induction o as [|[k' v] o IH]; cbn [filter fst Obj.get].
  - reflexivity.
  - destruct (String.eqb k k') eqn:E; cbn [negb Obj.get]; [exact IH|].
    now rewrite E.
Qed.

Section Any.
Variable world : World.

Lemma getFromProperties_quiet key : Quiet (getFromProperties world key).
Proof.
  intros s. unfold getFromProperties, tryCatch, bind, getProperty, ret.
  destruct (propertiesFault world (asked s)) as [e|].
  { exists None, 1. split; [reflexivity | now left]. }
  destruct (truthyValue (Obj.get key (scriptProperties (properties s)))) eqn:T.
  { exists (Obj.get key (scriptProperties (properties s))), 1.
    split; [reflexivity | now right]. }
  cbn [asked answered cache properties].
  destruct (propertiesFault world (S (asked s))) as [e|].
  { exists None, 2. split; [reflexivity | now left]. }
  destruct (truthyValue (Obj.get key (userProperties (properties s)))) eqn:U.
  - exists (Obj.get key (userProperties (properties s))), 2.
    split; [reflexivity | now right].
  - exists None, 2. split; [reflexivity | now left].
Qed.

Lemma getFromSecretManager_null key s :
  exists n, getFromSecretManager world key s = (Returned None, asks n s).
Proof.
  unfold getFromSecretManager, getGoogleCloudProjectId.
  destruct (getFromProperties_quiet "GOOGLE_CLOUD_PROJECT_ID" s) as [v [n [E _]]].
  exists n. unfold tryCatch, bind. rewrite E.
  destruct (negb (truthyValue v)); cbn [ret];
    destruct (negb (truthyValue v)); reflexivity.
Qed.

Lemma fromSecretManager_nothing key s :
  exists n, fromSource world (getFromSecretManager world) key s
            = (Returned None, asks n s).
Proof.
  destruct (getFromSecretManager_null key s) as [n E].
  exists n. unfold fromSource, tryCatch, bind. now rewrite E.
Qed.

Lemma fromProperties_found key s :
  exists n,
    (fromSource world (getFromProperties world) key s = (Returned None, asks n s))
    \/ exists text,
         Str.truthy text = true
         /\ fromSource world (getFromProperties world) key s
            = (Returned (Some text), cachedAt world key text n s).
Proof.
  destruct (getFromProperties_quiet key s) as [v [n [E T]]].
  exists n. unfold fromSource, tryCatch, bind. rewrite E.
  destruct v as [text|]; [right | left; reflexivity].
  exists text. split.
  - destruct T as [T|T]; [discriminate | exact T].
  - reflexivity.
Qed.

Lemma getFromSources_any key defaultValue s :
  exists n,
    (getFromSources world key defaultValue s = (Returned defaultValue, asks n s))
    \/ exists text,
         Str.truthy text = true
         /\ getFromSources world key defaultValue s
            = (Returned (Some text), cachedAt world key text n s).
Proof.
  unfold getFromSources.
  destruct (fromSecretManager_nothing key s) as [n E].
  destruct (fromProperties_found key (asks n s)) as [m [F|[text [T F]]]].
  - exists (m + n). left. unfold bind. rewrite E, F. cbn [ret].
    now rewrite asks_asks.
  - exists (m + n). right. exists text. split; [exact T|].
    unfold bind. rewrite E, F. cbn [ret]. unfold cachedAt, asks.
    cbn [cache properties asked].
    replace (m + (n + asked s)) with (m + n + asked s) by lia.
    replace (S m + (n + asked s)) with (S (m + n) + asked s) by lia. reflexivity.
Qed.

Lemma get_any key defaultValue s :
  exists n,
    (get world key defaultValue s = (Returned defaultValue, asks n s))
    \/ (exists cached,
          Obj.get (cacheKeyOf key) (cache s) = Some cached
          /\ get world key defaultValue s = (Returned (Some (value cached)), asks n s))
    \/ exists text,
         Str.truthy text = true
         /\ get world key defaultValue s
            = (Returned (Some text), cachedAt world key text n s).
Proof.
  unfold get.
  destruct (Obj.get (cacheKeyOf key) (cache s)) as [cached|] eqn:C.
  - unfold bind, DateNow.
    destruct (dateNow world (asked s) - timestamp cached <? cacheTimeout)%Z.
    + exists 1. right. left. exists cached. split; reflexivity.
    + destruct (getFromSources_any key defaultValue (answered s))
        as [n [E|[text [T E]]]].
      * exists (n + 1). left. rewrite E. now rewrite answered_asks, asks_asks.
      * exists (n + 1). right. right. exists text. split; [exact T|].
        rewrite E. unfold cachedAt, answered. cbn [cache properties asked].
        replace (n + S (asked s)) with (n + 1 + asked s) by lia.
        replace (S n + S (asked s)) with (S (n + 1) + asked s) by lia. reflexivity.
  - destruct (getFromSources_any key defaultValue s) as [n [E|[text [T E]]]].
    + exists n. now left.
    + exists n. right. right. exists text. now split.
Qed.

(** What the uses of the manager keep true of the cache. *)
Lemma holds_set key cached (o : Obj.t Cached) :
  Str.truthy (value cached) = true ->
  Forall (fun entry => Str.truthy (value (snd entry)) = true) o ->
  Forall (fun entry => Str.truthy (value (snd entry)) = true) (Obj.set key cached o).
Proof.
  intros T. induction 1 as [|[k c] o H F IH]; cbn [Obj.set].
  - now constructor.
  - destruct (String.eqb key k); constructor; assumption.
Qed.

Lemma holds_delete key (o : Obj.t Cached) :
  Forall (fun entry => Str.truthy (value (snd entry)) = true) o ->
  Forall (fun entry => Str.truthy (value (snd entry)) = true) (mapDelete key o).
Proof.
  intros H. unfold mapDelete. apply Forall_forall. intros x Hx.
  apply filter_In in Hx. destruct Hx as [Hx _].
  revert x Hx. now apply Forall_forall.
Qed.

Lemma get_keeps_values key defaultValue s :
  CacheHoldsValues s -> CacheHoldsValues (snd (get world key defaultValue s)).
Proof.
  intros H.
  destruct (get_any key defaultValue s) as [n [E|[[c [_ E]]|[text [T E]]]]];
    rewrite E; cbn [snd]; try exact H.
  unfold CacheHoldsValues, cachedAt. cbn [cache]. now apply holds_set.
Qed.

Lemma set_keeps_values key text userSpecific s :
  CacheHoldsValues s -> CacheHoldsValues (snd (set world key text userSpecific s)).
Proof.
  intros H. unfold set, tryCatch, bind, setProperty, cacheDelete, throw.
  destruct (propertiesFault world (asked s)); cbn [snd]; [exact H|].
  unfold CacheHoldsValues. cbn [cache]. now apply holds_delete.
Qed.

Lemma uses_keep_values uses s :
  CacheHoldsValues s -> CacheHoldsValues (afterUses world uses s).
Proof.
  unfold afterUses. revert s.
  induction uses as [|use uses IH]; intros s H; cbn [fold_left]; [exact H|].
  apply IH. destruct use as [key d|key text u| |stores]; cbn [useOnce].
  - now apply get_keeps_values.
  - now apply set_keeps_values.
  - constructor.
  - exact H.
Qed.

End Any.

Section Up.
Variable world : World.
Hypothesis up : ServiceUp world.

Lemma getFromProperties_up key s :
  getFromProperties world key s
  = (Returned (stored key (properties s)), asks (reads key (properties s)) s).
Proof.
  unfold getFromProperties, tryCatch, bind, getProperty, ret, stored, reads.
  rewrite up.
  destruct (truthyValue (Obj.get key (scriptProperties (properties s)))) eqn:T;
    [reflexivity|].
  cbn [asked answered cache properties]. rewrite up.
  destruct (truthyValue (Obj.get key (userProperties (properties s)))) eqn:U;
    reflexivity.
Qed.

Lemma stored_truthy key stores text :
  stored key stores = Some text -> Str.truthy text = true.
Proof.
  unfold stored.
  destruct (truthyValue (Obj.get key (scriptProperties stores))) eqn:T.
  { intros E. rewrite E in T. exact T. }
  destruct (truthyValue (Obj.get key (userProperties stores))) eqn:U.
  { intros E. rewrite E in U. exact U. }
  discriminate.
Qed.

Lemma fromSecretManager_up key s :
  fromSource world (getFromSecretManager world) key s
  = (Returned None, asks (reads "GOOGLE_CLOUD_PROJECT_ID" (properties s)) s).
Proof.
  unfold fromSource, getFromSecretManager, getGoogleCloudProjectId, tryCatch, bind.
  rewrite getFromProperties_up.
  destruct (negb (truthyValue (stored "GOOGLE_CLOUD_PROJECT_ID" (properties s))));
    cbn [ret];
    destruct (negb (truthyValue (stored "GOOGLE_CLOUD_PROJECT_ID" (properties s))));
    reflexivity.
Qed.

Lemma getFromSources_up key defaultValue s :
  getFromSources world key defaultValue s
  = match stored key (properties s) with
    | Some text =>
        (Returned (Some text), cachedAt world key text (lookups key (properties s)) s)
    | None => (Returned defaultValue, asks (lookups key (properties s)) s)
    end.
Proof.
  unfold getFromSources, bind at 1. rewrite fromSecretManager_up.
  unfold bind, fromSource, tryCatch, bind. rewrite getFromProperties_up.
  cbn [properties asks]. unfold lookups.
  destruct (stored key (properties s)) as [text|]; cbn [ret].
  - unfold DateNow, cacheSet, cachedAt, answered, asks. cbn [cache properties asked].
    now rewrite !Nat.add_assoc.
  - now rewrite asks_asks.
Qed.

Lemma get_up key defaultValue s :
  get world key defaultValue s
  = match fresh world key s with
    | Some cached => (Returned (Some (value cached)), asks 1 s)
    | None =>
        match stored key (properties s) with
        | Some text =>
            (Returned (Some text),
             cachedAt world key text (lookups key (properties s) + checks key s) s)
        | None =>
            (Returned defaultValue, asks (lookups key (properties s) + checks key s) s)
        end
    end.
Proof.
  unfold get, fresh, checks, Obj.has.
  destruct (Obj.get (cacheKeyOf key) (cache s)) as [cached|].
  - unfold bind at 1, DateNow.
    destruct (dateNow world (asked s) - timestamp cached <? cacheTimeout)%Z;
      [reflexivity|].
    rewrite getFromSources_up. cbn [properties answered].
    destruct (stored key (properties s)) as [text|].
    + unfold cachedAt. cbn [cache properties asked answered].
      replace (lookups key (properties s) + 1 + asked s)
        with (lookups key (properties s) + S (asked s)) by lia.
      replace (S (lookups key (properties s) + 1) + asked s)
        with (S (lookups key (properties s)) + S (asked s)) by lia.
      reflexivity.
    + unfold asks. cbn [cache properties asked answered].
      replace (lookups key (properties s) + 1 + asked s)
        with (lookups key (properties s) + S (asked s)) by lia.
      reflexivity.
  - rewrite getFromSources_up. rewrite Nat.add_0_r. reflexivity.
Qed.

Lemma set_up key text userSpecific s :
  set world key text userSpecific s
  = (Returned tt,
     mkManager (mapDelete (cacheKeyOf key) (cache s))
       (if userSpecific
        then mkProperties (scriptProperties (properties s))
                          (Obj.set key text (userProperties (properties s)))
        else mkProperties (Obj.set key text (scriptProperties (properties s)))
                          (userProperties (properties s)))
       (S (asked s))).
Proof.
  unfold set, tryCatch, bind, setProperty, cacheDelete. now rewrite up.
Qed.

(** [get] without a default value, when the cache gives nothing. *)
Lemma get_null_up key s :
  fresh world key s = None ->
  exists s',
    get world key None s = (Returned (stored key (properties s)), s')
    /\ properties s' = properties s
    /\ (cache s' = cache s
        \/ exists cached, cache s' = Obj.set (cacheKeyOf key) cached (cache s)).
Proof.
  intros F. rewrite get_up, F.
  destruct (stored key (properties s)) as [text|]; eexists.
  - split; [reflexivity|]. split; [reflexivity|]. right. eexists. reflexivity.
  - split; [reflexivity|]. split; [reflexivity|]. now left.
Qed.

End Up.
End ConfigFacts.

(** X21. Whatever the script did with the manager before, and whatever
    [PropertiesService] does (it may throw on any call), [Config.get] does
    not throw, and it answers the default value or a non-empty string. *)
Theorem config_get_never_throws
    (world : ConfigurationManager.World)
    (stores : ConfigurationManager.Properties)
    (uses : list ConfigurationManager.Use)
    (key : string) (defaultValue : option string) :
  exists answer s',
    ConfigurationManager.get world key defaultValue
      (ConfigurationManager.afterUses world uses
         (ConfigurationManager.newManager stores))
    = (Returned answer, s')
    /\ (answer = defaultValue
        \/ exists text, answer = Some text /\ Str.truthy text = true).
Proof.
  set (s := ConfigurationManager.afterUses world uses
              (ConfigurationManager.newManager stores)).
  assert (H : ConfigurationManager.CacheHoldsValues s).
  { apply ConfigFacts.uses_keep_values. constructor. }
  destruct (ConfigFacts.get_any world key defaultValue s)
    as [n [E|[[c [C E]]|[text [T E]]]]]; rewrite E.
  - eauto.
  - do 2 eexists. split; [reflexivity|]. right. eexists. split; [reflexivity|].
    unfold ConfigurationManager.CacheHoldsValues in H.
    clear E. induction (ConfigurationManager.cache s) as [|[k c'] o IH];
      cbn [Obj.get] in C; [discriminate|].
    inversion H as [|? ? Hc Ho]; subst.
    destruct (String.eqb (ConfigurationManager.cacheKeyOf key) k).
    + injection C as <-. exact Hc.
    + now apply IH.
  - do 2 eexists. split; [reflexivity|]. right. eauto.
Qed.

(** X22. When [PropertiesService] answers and the cache holds no entry of
    the key younger than five minutes, [Config.get] answers the script
    property of the key unless it is missing or empty, else the user
    property unless it is missing or empty, else the default value. The
    Secret Manager step never contributes, and the stores are left as they
    are. *)
Theorem config_get_reads_the_stores
    (world : ConfigurationManager.World) (key : string)
    (defaultValue : option string) (s : ConfigurationManager.Manager) :
  ConfigurationManager.ServiceUp world ->
  ConfigurationManager.fresh world key s = None ->
  let script := Obj.get key (ConfigurationManager.scriptProperties
                               (ConfigurationManager.properties s)) in
  let user := Obj.get key (ConfigurationManager.userProperties
                             (ConfigurationManager.properties s)) in
  let result := ConfigurationManager.get world key defaultValue s in
  fst result
  = Returned (if ConfigurationManager.truthyValue script then script
              else if ConfigurationManager.truthyValue user then user
                   else defaultValue)
  /\ ConfigurationManager.properties (snd result)
     = ConfigurationManager.properties s.
Proof.
  intros up F script user result. unfold result.
  rewrite (ConfigFacts.get_up world up), F.
  unfold ConfigurationManager.stored. fold script user.
  destruct (ConfigurationManager.truthyValue script) eqn:T.
  { destruct script as [text|]; [|discriminate]. split; reflexivity. }
  destruct (ConfigurationManager.truthyValue user) eqn:U.
  { destruct user as [text|]; [|discriminate]. split; reflexivity. }
  split; reflexivity.
Qed.

Lemma config_get_reads_the_stores_witness :
  ConfigurationManager.ServiceUp ConfigurationManager.steadyWorld
  /\ fst (ConfigurationManager.get ConfigurationManager.steadyWorld
            "CONFIG_SHEET_NAME" (Some "Config")
            (ConfigurationManager.newManager ConfigurationManager.demoStores))
     = Returned (Some "Recipients").
Proof.
  assert (up : ConfigurationManager.ServiceUp ConfigurationManager.steadyWorld)
    by (intros n; reflexivity).
  split; [exact up|].
  exact (proj1 (config_get_reads_the_stores
                  ConfigurationManager.steadyWorld "CONFIG_SHEET_NAME" (Some "Config")
                  (ConfigurationManager.newManager ConfigurationManager.demoStores)
                  up eq_refl)).
Defined.

(** X23. When [PropertiesService] answers, a value written with
    [Config.set] is what the next [Config.get] of the key answers, whatever
    the cache held, with one exception: a value written to the user
    properties stays hidden behind a non-empty script property of the same
    key. *)
Theorem config_set_then_get
    (world : ConfigurationManager.World) (key text : string)
    (userSpecific : bool) (defaultValue : option string)
    (s : ConfigurationManager.Manager) :
  ConfigurationManager.ServiceUp world ->
  Str.truthy text = true ->
  let script := Obj.get key (ConfigurationManager.scriptProperties
                               (ConfigurationManager.properties s)) in
  exists s1,
    ConfigurationManager.set world key text userSpecific s = (Returned tt, s1)
    /\ fst (ConfigurationManager.get world key defaultValue s1)
       = Returned (if userSpecific && ConfigurationManager.truthyValue script
                   then script else Some text).
Proof.
  intros up T script. eexists. split; [apply (ConfigFacts.set_up world up)|].
  rewrite (ConfigFacts.get_up world up).
  unfold ConfigurationManager.fresh. cbn [ConfigurationManager.cache].
  rewrite ConfigFacts.get_mapDelete.
  unfold ConfigurationManager.stored. cbn [ConfigurationManager.properties].
  destruct userSpecific;
    cbn [ConfigurationManager.scriptProperties ConfigurationManager.userProperties
         andb].
  - fold script. destruct (ConfigurationManager.truthyValue script) eqn:S.
    + destruct script; [reflexivity | discriminate].
    + rewrite ObjFacts.get_set_same. cbn [ConfigurationManager.truthyValue].
      rewrite T. reflexivity.
  - rewrite ObjFacts.get_set_same. cbn [ConfigurationManager.truthyValue].
    rewrite T. reflexivity.
Qed.

Lemma config_set_then_get_witness :
  ConfigurationManager.ServiceUp ConfigurationManager.steadyWorld
  /\ exists s1,
       ConfigurationManager.set ConfigurationManager.steadyWorld
         "CONFIG_SHEET_NAME" "Team" true
         (ConfigurationManager.newManager ConfigurationManager.demoStores)
       = (Returned tt, s1)
       /\ fst (ConfigurationManager.get ConfigurationManager.steadyWorld
                 "CONFIG_SHEET_NAME" None s1)
          = Returned (Some "Team").
Proof.
  assert (up : ConfigurationManager.ServiceUp ConfigurationManager.steadyWorld)
    by (intros n; reflexivity).
  split; [exact up|].
  exact (config_set_then_get ConfigurationManager.steadyWorld
           "CONFIG_SHEET_NAME" "Team" true None
           (ConfigurationManager.newManager ConfigurationManager.demoStores)
           up eq_refl).
Defined.

(** X24. A value that [Config.get] found in the stores is answered again
    for as long as the clock reads less than five minutes past the moment
    it was cached, whatever became of the stores in between (changed or
    emptied elsewhere, not through [Config.set]), and without a call of
    [PropertiesService]. From five minutes on the stores are read anew. *)
Theorem config_cache_outlives_the_stores
    (world : ConfigurationManager.World) (key text : string)
    (defaultValue defaultValue' : option string)
    (s : ConfigurationManager.Manager)
    (stores' : ConfigurationManager.Properties) :
  ConfigurationManager.ServiceUp world ->
  ConfigurationManager.fresh world key s = None ->
  ConfigurationManager.stored key (ConfigurationManager.properties s) = Some text ->
  let s1 := snd (ConfigurationManager.get world key defaultValue s) in
  let s2 := ConfigurationManager.changedElsewhere stores' s1 in
  let cachedAt := ConfigurationManager.dateNow world
                    (pred (ConfigurationManager.asked s1)) in
  let now := ConfigurationManager.dateNow world (ConfigurationManager.asked s2) in
  fst (ConfigurationManager.get world key defaultValue s) = Returned (Some text)
  /\ ((now - cachedAt < ConfigurationManager.cacheTimeout)%Z ->
      ConfigurationManager.get world key defaultValue' s2
      = (Returned (Some text), ConfigurationManager.answered s2))
  /\ ((ConfigurationManager.cacheTimeout <= now - cachedAt)%Z ->
      fst (ConfigurationManager.get world key defaultValue' s2)
      = Returned (match ConfigurationManager.stored key stores' with
                  | Some text' => Some text'
                  | None => defaultValue'
                  end)).
Proof.
  intros up F St s1 s2 cachedAt now.
  assert (E : ConfigurationManager.get world key defaultValue s
              = (Returned (Some text),
                 ConfigurationManager.cachedAt world key text
                   (ConfigurationManager.lookups key (ConfigurationManager.properties s)
                    + ConfigurationManager.checks key s) s)).
  { rewrite (ConfigFacts.get_up world up), F, St. reflexivity. }
  split; [now rewrite E|].
  assert (F2 : ConfigurationManager.fresh world key s2
               = if (now - cachedAt <? ConfigurationManager.cacheTimeout)%Z
                 then Some (ConfigurationManager.mkCached text cachedAt) else None).
  { unfold ConfigurationManager.fresh, now, cachedAt, s2, s1. rewrite E.
    cbn [snd ConfigurationManager.cachedAt ConfigurationManager.changedElsewhere
         ConfigurationManager.cache ConfigurationManager.asked].
    rewrite ObjFacts.get_set_same.
    cbn [ConfigurationManager.timestamp Nat.pred Nat.add]. reflexivity. }
  split; intros H; rewrite (ConfigFacts.get_up world up), F2.
  - apply Z.ltb_lt in H. rewrite H. reflexivity.
  - apply Z.ltb_ge in H. rewrite H.
    unfold s2. cbn [ConfigurationManager.changedElsewhere
                    ConfigurationManager.properties].
    destruct (ConfigurationManager.stored key stores'); reflexivity.
Qed.

(** The sheet name is read, the user property is then removed elsewhere,
    and the next read one second later still answers it. *)
Lemma config_cache_outlives_the_stores_witness :
  ConfigurationManager.ServiceUp ConfigurationManager.steadyWorld
  /\ fst (ConfigurationManager.get ConfigurationManager.steadyWorld
            "CONFIG_SHEET_NAME" None
            (ConfigurationManager.changedElsewhere
               (ConfigurationManager.mkProperties [] [])
               (snd (ConfigurationManager.get ConfigurationManager.steadyWorld
                       "CONFIG_SHEET_NAME" None
                       (ConfigurationManager.newManager
                          ConfigurationManager.demoStores)))))
     = Returned (Some "Recipients").
Proof.
  assert (up : ConfigurationManager.ServiceUp ConfigurationManager.steadyWorld)
    by (intros n; reflexivity).
  split; [exact up|].
  pose proof (config_cache_outlives_the_stores ConfigurationManager.steadyWorld
                "CONFIG_SHEET_NAME" "Recipients" None None
                (ConfigurationManager.newManager ConfigurationManager.demoStores)
                (ConfigurationManager.mkProperties [] [])
                up eq_refl eq_refl) as [_ [H _]].
  rewrite H; [reflexivity|]. vm_compute. reflexivity.
Defined.

(** X25. On a manager with an empty cache, and when [PropertiesService]
    answers, [validateConfiguration] reports as missing exactly the
    required keys (SPREADSHEET_ID, CONFIG_SHEET_NAME) for which neither
    store holds a non-empty value, as available the others, and the
    configuration as valid when none is missing; the message names the
    missing keys. *)
Theorem config_validation_names_missing_keys
    (world : ConfigurationManager.World) (s : ConfigurationManager.Manager) :
  ConfigurationManager.ServiceUp world ->
  ConfigurationManager.cache s = [] ->
  let configured :=
    ConfigurationManager.configured (ConfigurationManager.properties s) in
  let missing :=
    filter (fun key => negb (configured key)) ConfigurationManager.required in
  fst (ConfigurationManager.validateConfiguration world s)
  = Returned
      (ConfigurationManager.mkValidationResult
         (forallb configured ConfigurationManager.required)
         missing
         (filter configured ConfigurationManager.required)
         (if forallb configured ConfigurationManager.required
          then "All required configuration is available"
          else ("Missing required configuration: " ++ Str.join ", " missing)%string)).
Proof.
  intros up C configured missing.
  destruct (ConfigFacts.get_null_up world up "SPREADSHEET_ID" s)
    as [s1 [G1 [P1 C1]]].
  { unfold ConfigurationManager.fresh. now rewrite C. }
  destruct (ConfigFacts.get_null_up world up "CONFIG_SHEET_NAME" s1)
    as [s2 [G2 _]].
  { unfold ConfigurationManager.fresh.
    destruct C1 as [C1|[c C1]]; rewrite C1, C; reflexivity. }
  rewrite P1 in G2.
  unfold missing, configured, ConfigurationManager.configured,
    ConfigurationManager.validateConfiguration, ConfigurationManager.required.
  cbn [foldM filter forallb]. unfold bind. rewrite G1.
  destruct (ConfigurationManager.truthyValue
              (ConfigurationManager.stored "SPREADSHEET_ID"
                 (ConfigurationManager.properties s)));
    cbn [negb ret fst snd app andb]; rewrite G2;
    destruct (ConfigurationManager.truthyValue
                (ConfigurationManager.stored "CONFIG_SHEET_NAME"
                   (ConfigurationManager.properties s)));
    reflexivity.
Qed.

(** The example stores hold both keys. *)
Lemma config_validation_names_missing_keys_witness :
  ConfigurationManager.ServiceUp ConfigurationManager.steadyWorld
  /\ fst (ConfigurationManager.validateConfiguration ConfigurationManager.steadyWorld
            (ConfigurationManager.newManager ConfigurationManager.demoStores))
     = Returned
         (ConfigurationManager.mkValidationResult true []
            ["SPREADSHEET_ID"; "CONFIG_SHEET_NAME"]
            "All required configuration is available").
Proof.
  assert (up : ConfigurationManager.ServiceUp ConfigurationManager.steadyWorld)
    by (intros n; reflexivity).
  split; [exact up|].
  exact (config_validation_names_missing_keys ConfigurationManager.steadyWorld
           (ConfigurationManager.newManager ConfigurationManager.demoStores)
           up eq_refl).
Defined.

(** X26. [setupSpreadsheetId] refuses an id of fewer than 20 characters
    before it touches anything; a longer one, when [PropertiesService]
    answers, is what [Config.get('SPREADSHEET_ID')] answers from then on,
    whatever the cache and the user properties held. *)
Theorem setup_spreadsheet_id
    (world : ConfigurationManager.World) (spreadsheetId : string)
    (defaultValue : option string) (s : ConfigurationManager.Manager) :
  ConfigurationManager.ServiceUp world ->
  (String.length spreadsheetId < 20 ->
   ConfigurationManager.setupSpreadsheetId world spreadsheetId s
   = (Thrown (mkError "Invalid spreadsheet ID provided"), s))
  /\ (20 <= String.length spreadsheetId ->
      exists s1,
        ConfigurationManager.setupSpreadsheetId world spreadsheetId s
        = (Returned tt, s1)
        /\ fst (ConfigurationManager.get world "SPREADSHEET_ID" defaultValue s1)
           = Returned (Some spreadsheetId)).
Proof.
  intros up. unfold ConfigurationManager.setupSpreadsheetId. split; intros L.
  - assert (B : (String.length spreadsheetId <? 20) = true) by now apply Nat.ltb_lt.
    rewrite B, orb_true_r. reflexivity.
  - assert (B : (String.length spreadsheetId <? 20) = false) by now apply Nat.ltb_ge.
    assert (T : Str.truthy spreadsheetId = true).
    { destruct spreadsheetId; [cbn in L; lia | reflexivity]. }
    rewrite B, T. cbn [negb orb].
    eexists. split; [apply (ConfigFacts.set_up world up)|].
    rewrite (ConfigFacts.get_up world up).
    unfold ConfigurationManager.fresh. cbn [ConfigurationManager.cache].
    rewrite ConfigFacts.get_mapDelete.
    unfold ConfigurationManager.stored.
    cbn [ConfigurationManager.properties ConfigurationManager.scriptProperties].
    rewrite ObjFacts.get_set_same. cbn [ConfigurationManager.truthyValue].
    rewrite T. reflexivity.
Qed.

Lemma setup_spreadsheet_id_witness :
  ConfigurationManager.ServiceUp ConfigurationManager.steadyWorld
  /\ ConfigurationManager.setupSpreadsheetId ConfigurationManager.steadyWorld
       "1abc123def456ghi" (ConfigurationManager.newManager ConfigurationManager.demoStores)
     = (Thrown (mkError "Invalid spreadsheet ID provided"),
        ConfigurationManager.newManager ConfigurationManager.demoStores).
Proof.
  assert (up : ConfigurationManager.ServiceUp ConfigurationManager.steadyWorld)
    by (intros n; reflexivity).
  split; [exact up|].
  refine (proj1 (setup_spreadsheet_id ConfigurationManager.steadyWorld
                   "1abc123def456ghi" None
                   (ConfigurationManager.newManager ConfigurationManager.demoStores)
                   up) _).
  simpl. lia.
Defined.

(** X27. On a manager with an empty cache, and when [PropertiesService]
    answers, [getAllConfiguration] lists the four keys in order and shows
    the sheet name in full, but of the spreadsheet id, of the project id
    and of the admin address (the key ADMIN_EMAIL_OVERRIDE contains the
    letters ID as well) only the first eight characters, followed by three
    dots; a key without a value shows [null]. *)
Theorem config_listing_shortens_ids
    (world : ConfigurationManager.World) (s : ConfigurationManager.Manager) :
  ConfigurationManager.ServiceUp world ->
  ConfigurationManager.cache s = [] ->
  let held key :=
    ConfigurationManager.stored key (ConfigurationManager.properties s) in
  let shortened key :=
    option_map (fun text => (String.substring 0 8 text ++ "...")%string) (held key) in
  fst (ConfigurationManager.getAllConfiguration world s)
  = Returned [("SPREADSHEET_ID", shortened "SPREADSHEET_ID");
              ("CONFIG_SHEET_NAME", held "CONFIG_SHEET_NAME");
              ("GOOGLE_CLOUD_PROJECT_ID", shortened "GOOGLE_CLOUD_PROJECT_ID");
              ("ADMIN_EMAIL_OVERRIDE", shortened "ADMIN_EMAIL_OVERRIDE")].
Proof.
  intros up C held shortened.
  destruct (ConfigFacts.get_null_up world up "SPREADSHEET_ID" s)
    as [s1 [G1 [P1 C1]]].
  { unfold ConfigurationManager.fresh. now rewrite C. }
  destruct (ConfigFacts.get_null_up world up "CONFIG_SHEET_NAME" s1)
    as [s2 [G2 [P2 C2]]].
  { unfold ConfigurationManager.fresh.
    destruct C1 as [C1|[c1 C1]]; rewrite C1, C; reflexivity. }
  destruct (ConfigFacts.get_null_up world up "GOOGLE_CLOUD_PROJECT_ID" s2)
    as [s3 [G3 [P3 C3]]].
  { unfold ConfigurationManager.fresh.
    destruct C1 as [C1|[c1 C1]], C2 as [C2|[c2 C2]];
      rewrite C2, C1, C; reflexivity. }
  destruct (ConfigFacts.get_null_up world up "ADMIN_EMAIL_OVERRIDE" s3)
    as [s4 [G4 _]].
  { unfold ConfigurationManager.fresh.
    destruct C1 as [C1|[c1 C1]], C2 as [C2|[c2 C2]], C3 as [C3|[c3 C3]];
      rewrite C3, C2, C1, C; reflexivity. }
  rewrite P3, P2, P1 in G4. rewrite P2, P1 in G3. rewrite P1 in G2.
  unfold ConfigurationManager.getAllConfiguration, ConfigurationManager.shownKeys.
  cbn [foldM]. unfold bind. rewrite G1. cbn [ret]. rewrite G2. cbn [ret].
  rewrite G3. cbn [ret]. rewrite G4. cbn [ret fst].
  unfold shortened, held.
  pose proof (ConfigFacts.stored_truthy "SPREADSHEET_ID"
                (ConfigurationManager.properties s)) as T1.
  pose proof (ConfigFacts.stored_truthy "GOOGLE_CLOUD_PROJECT_ID"
                (ConfigurationManager.properties s)) as T3.
  pose proof (ConfigFacts.stored_truthy "ADMIN_EMAIL_OVERRIDE"
                (ConfigurationManager.properties s)) as T4.
  destruct (ConfigurationManager.stored "SPREADSHEET_ID"
              (ConfigurationManager.properties s)) as [v1|];
    destruct (ConfigurationManager.stored "CONFIG_SHEET_NAME"
                (ConfigurationManager.properties s)) as [v2|];
    destruct (ConfigurationManager.stored "GOOGLE_CLOUD_PROJECT_ID"
                (ConfigurationManager.properties s)) as [v3|];
    destruct (ConfigurationManager.stored "ADMIN_EMAIL_OVERRIDE"
                (ConfigurationManager.properties s)) as [v4|];
    try rewrite (T1 _ eq_refl); try rewrite (T3 _ eq_refl);
    try rewrite (T4 _ eq_refl);
    unfold ConfigurationManager.shown;
    try rewrite (T1 _ eq_refl); try rewrite (T3 _ eq_refl);
    try rewrite (T4 _ eq_refl);
    reflexivity.
Qed.

(** Of the spreadsheet id of the example stores the listing shows
    [1AbCdEfG...]. *)
Lemma config_listing_shortens_ids_witness :
  ConfigurationManager.ServiceUp ConfigurationManager.steadyWorld
  /\ fst (ConfigurationManager.getAllConfiguration ConfigurationManager.steadyWorld
            (ConfigurationManager.newManager ConfigurationManager.demoStores))
     = Returned [("SPREADSHEET_ID", Some "1AbCdEfG...");
                 ("CONFIG_SHEET_NAME", Some "Recipients");
                 ("GOOGLE_CLOUD_PROJECT_ID", None);
                 ("ADMIN_EMAIL_OVERRIDE", None)].
Proof.
  assert (up : ConfigurationManager.ServiceUp ConfigurationManager.steadyWorld)
    by (intros n; reflexivity).
  split; [exact up|].
  exact (config_listing_shortens_ids ConfigurationManager.steadyWorld
           (ConfigurationManager.newManager ConfigurationManager.demoStores)
           up eq_refl).
Defined.

(** ** The quota estimate and the calls of a run *)

Section TripleFacts.

Lemma Triple_ret {A} (P : State -> Prop) (a : A) R :
  Triple P (ret a) (fun _ => P) R.
Proof. intros s H. exact H. Qed.

Lemma Triple_throw {A} (P : State -> Prop) e (Q : A -> State -> Prop) :
  Triple P (throw e) Q P.
Proof. intros s H. exact H. Qed.

Lemma Triple_bind {A B} P (m : M State A) (k : A -> M State B) Q Q' R :
  Triple P m Q R -> (forall a, Triple (Q a) (k a) Q' R) ->
  Triple P (bind m k) Q' R.
Proof.
  intros Hm Hk s H. specialize (Hm s H). unfold bind.
  destruct (m s) as [[a|e] s']; [apply (Hk a s' Hm) | exact Hm].
Qed.

Lemma Triple_tryCatch {A} P (m : M State A) handler Q R R' :
  Triple P m Q R -> (forall e, Triple R (handler e) Q R') ->
  Triple P (tryCatch m handler) Q R'.
Proof.
  intros Hm Hh s H. specialize (Hm s H). unfold tryCatch.
  destruct (m s) as [[a|e] s']; [exact Hm | apply (Hh e s' Hm)].
Qed.

Lemma Triple_weaken {A} (P P' : State -> Prop) (m : M State A)
      (Q Q' : A -> State -> Prop) (R R' : State -> Prop) :
  Triple P m Q R ->
  (forall s, P' s -> P s) -> (forall a s, Q a s -> Q' a s) ->
  (forall s, R s -> R' s) ->
  Triple P' m Q' R'.
Proof.
  intros Hm HP HQ HR s H. specialize (Hm s (HP s H)).
  destruct (m s) as [[a|e] s']; [apply HQ | apply HR]; exact Hm.
Qed.

Lemma Triple_forEach {A} P (l : list A) (f : A -> M State unit) :
  (forall x, Triple P (f x) (fun _ => P) P) ->
  Triple P (forEach l f) (fun _ => P) P.
Proof.
  intros Hf. induction l as [|x l IH]; cbn [forEach].
  - apply Triple_ret.
  - eapply Triple_bind; [apply Hf | intros ?; exact IH].
Qed.

Lemma Triple_filterM {A} P (p : A -> M State bool) (l : list A) :
  (forall x, Triple P (p x) (fun _ => P) P) ->
  Triple P (filterM p l) (fun _ => P) P.
Proof.
  intros Hp. induction l as [|x l IH]; cbn [filterM].
  - apply Triple_ret.
  - eapply Triple_bind; [apply Hp | intros keep].
    eapply Triple_bind; [exact IH | intros rest; apply Triple_ret].
Qed.

Lemma Triple_foldM {A B} P (f : B -> A -> M State B) (l : list A) (b : B) :
  (forall b x, Triple P (f b x) (fun _ => P) P) ->
  Triple P (foldM f l b) (fun _ => P) P.
Proof.
  intros Hf. revert b. induction l as [|x l IH]; intros b; cbn [foldM].
  - apply Triple_ret.
  - eapply Triple_bind; [apply Hf | intros b'; apply IH].
Qed.

(** The retry loop: an attempt that starts where [P] holds and leaves [R]
    when it throws, [R] being enough to start again. *)
Lemma Triple_retryLoop (env : Env) {A} (operation : M State A)
      (P R : State -> Prop) (Q : A -> State -> Prop)
      maxRetries baseDelay :
  Triple P operation Q R ->
  (forall s, R s -> P s) ->
  Triple R (mathRandom env) (fun _ => R) R ->
  (forall ms, Triple R (sleep ms) (fun _ => R) R) ->
  forall fuel attempt lastError,
    Triple R (Retry.retryLoop sleep (mathRandom env) operation maxRetries
                baseDelay fuel attempt lastError) Q R.
Proof.
  intros Hop HRP Hr Hs.
  induction fuel as [|fuel IH]; intros attempt lastError; cbn [Retry.retryLoop].
  - apply Triple_throw.
  - eapply Triple_tryCatch.
    + eapply Triple_weaken; [exact Hop | exact HRP | auto | intros s H; exact H].
    + intros e.
      destruct (negb (Retry.isRetryableError e) || (attempt =? maxRetries)).
      * apply Triple_throw.
      * eapply Triple_bind; [exact Hr | intros rnd].
        eapply Triple_bind; [apply Hs | intros ?; apply IH].
Qed.

Lemma Triple_retryOperation (env : Env) {A} (operation : M State A)
      (P R : State -> Prop) (Q : A -> State -> Prop) maxRetries baseDelay :
  Triple P operation Q R ->
  (forall s, R s -> P s) ->
  Triple R (mathRandom env) (fun _ => R) R ->
  (forall ms, Triple R (sleep ms) (fun _ => R) R) ->
  Triple P (retryOperation env operation maxRetries baseDelay) Q R.
Proof.
  intros Hop HRP Hr Hs.
  unfold retryOperation, Retry.retryOperationWith. cbn [Retry.retryLoop].
  eapply Triple_tryCatch; [exact Hop | intros e].
  destruct (negb (Retry.isRetryableError e) || (0 =? maxRetries)).
  - apply Triple_throw.
  - eapply Triple_bind; [exact Hr | intros rnd].
    eapply Triple_bind; [apply Hs | intros ?].
    now apply Triple_retryLoop with (P := P).
Qed.

End TripleFacts.

Section CoverFacts.
Variable env : Env.
Variables c0 m0 : nat.

Lemma Covered_less k j k' j' s :
  k' <= k -> j' <= j -> Covered c0 m0 k j s -> Covered c0 m0 k' j' s.
Proof. unfold Covered. intros Hk Hj [H1 H2]. split; lia. Qed.

(** A call that is recorded, whatever it answers. *)
Lemma record_call {A} (c : Call) (answer : State -> outcome A) k j :
  Triple (Covered c0 m0 k j) (fun s => (answer s, record c s))
         (fun _ => Covered c0 m0 ((if isCalendarCall c then 1 else 0) + k)
                       ((if isMailCall c then 1 else 0) + j))
         (Covered c0 m0 ((if isCalendarCall c then 1 else 0) + k)
              ((if isMailCall c then 1 else 0) + j)).
Proof.
  intros s [H1 H2].
  assert (G : Covered c0 m0 ((if isCalendarCall c then 1 else 0) + k)
                  ((if isMailCall c then 1 else 0) + j) (record c s)).
  { unfold Covered, calendarCalls, mailCalls, record.
    cbn [history tracker filter].
    unfold calendarCalls, mailCalls in H1, H2.
    destruct (isCalendarCall c), (isMailCall c); cbn [List.length]; split; lia. }
  destruct (answer s); exact G.
Qed.

Lemma cover_newDate k j : Triple (Covered c0 m0 k j) (newDate env) (fun _ => Covered c0 m0 k j) (Covered c0 m0 k j).
Proof. exact (record_call NewDate (fun s => Returned (clock env (history s))) k j). Qed.

Lemma cover_mathRandom k j :
  Triple (Covered c0 m0 k j) (mathRandom env) (fun _ => Covered c0 m0 k j) (Covered c0 m0 k j).
Proof. exact (record_call MathRandom (fun s => Returned (random env (history s))) k j). Qed.

Lemma cover_sleep k j ms : Triple (Covered c0 m0 k j) (sleep ms) (fun _ => Covered c0 m0 k j) (Covered c0 m0 k j).
Proof. exact (record_call (UtilitiesSleep ms) (fun s => Returned tt) k j). Qed.

Lemma cover_getCalendarById id k j :
  Triple (Covered c0 m0 k j) (getCalendarById env id) (fun _ => Covered c0 m0 (S k) j) (Covered c0 m0 (S k) j).
Proof.
  exact (record_call (GetCalendarById id) (fun s => calendarById env (history s) id) k j).
Qed.

Lemma cover_getEvents calendar startDate endDate k j :
  Triple (Covered c0 m0 k j) (getEvents env calendar startDate endDate)
         (fun _ => Covered c0 m0 (S k) j) (Covered c0 m0 (S k) j).
Proof.
  exact (record_call (GetEvents calendar startDate endDate)
           (fun s => eventsOf env (history s) calendar startDate endDate) k j).
Qed.

Lemma cover_gmailSendEmail to subject body options k j :
  Triple (Covered c0 m0 k j) (gmailSendEmail env to subject body options)
         (fun _ => Covered c0 m0 k (S j)) (Covered c0 m0 k (S j)).
Proof.
  exact (record_call (GmailSendEmail to subject body options)
           (fun s => gmailSend env (history s) to subject body options) k j).
Qed.

Lemma cover_mailSendEmail to subject body k j :
  Triple (Covered c0 m0 k j) (mailSendEmail env to subject body)
         (fun _ => Covered c0 m0 k (S j)) (Covered c0 m0 k (S j)).
Proof.
  exact (record_call (MailSendEmail to subject body)
           (fun s => mailSend env (history s) to subject body) k j).
Qed.

Lemma cover_openConfigSheet spreadsheetId sheetName k j :
  Triple (Covered c0 m0 k j) (openConfigSheet env spreadsheetId sheetName)
         (fun _ => Covered c0 m0 k j) (Covered c0 m0 k j).
Proof.
  exact (record_call (OpenConfigSheet spreadsheetId sheetName)
           (fun s => openSheet env (history s) spreadsheetId sheetName) k j).
Qed.

(** The counters. *)
Lemma cover_incrementCalendars k j R :
  Triple (Covered c0 m0 (2 + k) j) incrementCalendars (fun _ => Covered c0 m0 k j) R.
Proof.
  intros s [H1 H2]. unfold Covered, calendarCalls, mailCalls in *.
  cbn [incrementCalendars updateMetrics history tracker metrics calendarsProcessed
       emailsSent emailsFailed]. split; lia.
Qed.

Lemma cover_addEvents count k j R :
  Triple (Covered c0 m0 k j) (addEvents count) (fun _ => Covered c0 m0 k j) R.
Proof. intros s H. exact H. Qed.

Lemma cover_incrementEmailsSent k j R :
  Triple (Covered c0 m0 k (S j)) incrementEmailsSent (fun _ => Covered c0 m0 k j) R.
Proof.
  intros s [H1 H2]. unfold Covered, calendarCalls, mailCalls in *.
  cbn [incrementEmailsSent updateMetrics history tracker metrics calendarsProcessed
       emailsSent emailsFailed]. split; lia.
Qed.

Lemma cover_incrementEmailsFailed k j R :
  Triple (Covered c0 m0 k (S j)) incrementEmailsFailed (fun _ => Covered c0 m0 k j) R.
Proof.
  intros s [H1 H2]. unfold Covered, calendarCalls, mailCalls in *.
  cbn [incrementEmailsFailed updateMetrics history tracker metrics calendarsProcessed
       emailsSent emailsFailed]. split; lia.
Qed.

Lemma cover_addError e context k j :
  Triple (Covered c0 m0 k j) (addError env e context) (fun _ => Covered c0 m0 k j) (Covered c0 m0 k j).
Proof.
  unfold addError. eapply Triple_bind; [apply cover_newDate | intros timestamp].
  intros s H. exact H.
Qed.

(** Less is asked after, more before. *)
Lemma cover_relax {A} (m : M State A) k j kq jq kr jr k' j' kq' jq' kr' jr' :
  Triple (Covered c0 m0 k j) m (fun _ => Covered c0 m0 kq jq) (Covered c0 m0 kr jr) ->
  k <= k' -> j <= j' -> kq' <= kq -> jq' <= jq -> kr' <= kr -> jr' <= jr ->
  Triple (Covered c0 m0 k' j') m (fun _ => Covered c0 m0 kq' jq') (Covered c0 m0 kr' jr').
Proof.
  intros H ? ? ? ? ? ?. eapply Triple_weaken; [exact H | | |].
  - intros s. now apply Covered_less.
  - intros a s. now apply Covered_less.
  - intros s. now apply Covered_less.
Qed.

Lemma cover_ret {A} (a : A) k j k' j' kr jr :
  k' <= k -> j' <= j -> kr <= k -> jr <= j ->
  Triple (Covered c0 m0 k j) (ret a) (fun _ => Covered c0 m0 k' j') (Covered c0 m0 kr jr).
Proof.
  intros. apply (cover_relax _ k j k j k j); try lia. apply Triple_ret.
Qed.

Lemma cover_throw {A} e k j k' j' kr jr :
  kr <= k -> jr <= j ->
  Triple (A := A) (Covered c0 m0 k j) (throw e) (fun _ => Covered c0 m0 k' j') (Covered c0 m0 kr jr).
Proof.
  intros Hk Hj s H. cbn [throw]. now apply (Covered_less k j).
Qed.

(** Fetching. *)
Lemma cover_lookupCalendar calendarId k j :
  Triple (Covered c0 m0 k j) (lookupCalendar env calendarId) (fun _ => Covered c0 m0 (S k) j) (Covered c0 m0 (S k) j).
Proof.
  unfold lookupCalendar.
  eapply Triple_bind; [apply cover_getCalendarById | intros [calendar|]].
  - apply Triple_ret.
  - apply Triple_throw.
Qed.

Lemma cover_retry {A} (operation : M State A) k j k' j' :
  k <= k' -> j <= j' ->
  Triple (Covered c0 m0 k j) operation (fun _ => Covered c0 m0 k' j') (Covered c0 m0 k' j') ->
  Triple (Covered c0 m0 k j)
         (retryOperation env operation defaultMaxRetries defaultBaseDelay)
         (fun _ => Covered c0 m0 k' j') (Covered c0 m0 k' j').
Proof.
  intros Hk Hj Hop. apply Triple_retryOperation.
  - exact Hop.
  - intros s. now apply Covered_less.
  - apply cover_mathRandom.
  - intros ms. apply cover_sleep.
Qed.

Lemma cover_fetchGroup group :
  Triple (Covered c0 m0 0 0) (fetchGroup env group) (fun _ => Covered c0 m0 0 0) (Covered c0 m0 0 0).
Proof.
  unfold fetchGroup. apply Triple_tryCatch with (R := Covered c0 m0 0 0).
  - apply Triple_bind with (Q := fun _ => Covered c0 m0 1 0).
    { apply (cover_relax _ 0 0 1 0 1 0); try lia.
      apply cover_retry; [lia | lia | apply cover_lookupCalendar]. }
    intros targetCalendar. apply Triple_bind with (Q := fun _ => Covered c0 m0 2 0).
    { apply (cover_relax _ 1 0 2 0 2 0); try lia.
      apply cover_retry; [lia | lia | apply cover_getEvents]. }
    intros events. apply Triple_bind with (Q := fun _ => Covered c0 m0 0 0).
    { apply cover_incrementCalendars. }
    intros ?. apply Triple_bind with (Q := fun _ => Covered c0 m0 0 0).
    { apply cover_addEvents. }
    intros ?. apply Triple_ret.
  - intros e. apply Triple_bind with (Q := fun _ => Covered c0 m0 0 0).
    + apply cover_addError.
    + intros ?. apply Triple_ret.
Qed.

Lemma cover_fetchCalendarDataBatched recipients :
  Triple (Covered c0 m0 0 0) (fetchCalendarDataBatched env recipients)
         (fun _ => Covered c0 m0 0 0) (Covered c0 m0 0 0).
Proof.
  unfold fetchCalendarDataBatched.
  apply Triple_bind with (Q := fun _ => Covered c0 m0 0 0).
  { apply Triple_filterM. intros r. unfold isActive.
    apply Triple_bind with (Q := fun _ => Covered c0 m0 0 0);
      [apply cover_newDate | intros today; apply Triple_ret]. }
  intros activeRecipients. apply Triple_bind with (Q := fun _ => Covered c0 m0 0 0).
  { apply Triple_foldM. intros groups r. unfold addToGroup.
    apply Triple_bind with (Q := fun _ => Covered c0 m0 0 0);
      [apply cover_newDate | intros now; apply Triple_ret]. }
  intros calendarGroups. apply Triple_foldM. intros calendarCache [groupKey group].
  apply Triple_bind with (Q := fun _ => Covered c0 m0 0 0);
    [apply cover_fetchGroup | intros data; apply Triple_ret].
Qed.

(** Sending. *)
Lemma cover_sendOne emailData :
  Triple (Covered c0 m0 0 0) (sendOne env emailData) (fun _ => Covered c0 m0 0 0) (Covered c0 m0 0 0).
Proof.
  unfold sendOne. apply Triple_tryCatch with (R := Covered c0 m0 0 1).
  - apply Triple_bind with (Q := fun _ => Covered c0 m0 0 1).
    + unfold sendPrimary.
      apply cover_retry; [lia | lia | apply cover_gmailSendEmail].
    + intros ?. apply cover_incrementEmailsSent.
  - intros e. apply Triple_bind with (Q := fun _ => Covered c0 m0 0 1).
    { apply (cover_relax _ 0 1 0 1 0 1); try lia. apply cover_addError. }
    intros ?. apply Triple_tryCatch with (R := Covered c0 m0 0 2).
    + apply Triple_bind with (Q := fun _ => Covered c0 m0 0 2).
      * unfold sendFallback.
        apply cover_retry; [lia | lia | apply cover_mailSendEmail].
      * intros ?. eapply Triple_weaken; [apply (cover_incrementEmailsSent 0 1) | | |];
          [auto | intros a' s; apply Covered_less; lia | intros s H; exact H].
    + intros fallbackError. apply Triple_bind with (Q := fun _ => Covered c0 m0 0 1).
      * apply cover_incrementEmailsFailed.
      * intros ?. apply (cover_relax _ 0 1 0 1 0 1); try lia. apply cover_addError.
Qed.

Lemma cover_batchLoop fuel i emailQueue :
  Triple (Covered c0 m0 0 0) (batchLoop env fuel i emailQueue) (fun _ => Covered c0 m0 0 0) (Covered c0 m0 0 0).
Proof.
  revert i. induction fuel as [|fuel IH]; intros i; cbn [batchLoop].
  - apply Triple_ret.
  - destruct (i <? List.length emailQueue); [|apply Triple_ret].
    apply Triple_bind with (Q := fun _ => Covered c0 m0 0 0).
    { apply Triple_forEach. apply cover_sendOne. }
    intros ?. apply Triple_bind with (Q := fun _ => Covered c0 m0 0 0).
    { destruct (i + BATCH_SIZE <? List.length emailQueue);
        [apply cover_sleep | apply Triple_ret]. }
    intros ?. apply IH.
Qed.

(** Loading the configuration. *)
Lemma cover_notice to subject body :
  Triple (Covered c0 m0 0 0) (mailSendEmail env to subject body) (fun _ => Covered c0 m0 0 0) (Covered c0 m0 0 0).
Proof.
  apply (cover_relax _ 0 0 0 1 0 1); try lia. apply cover_mailSendEmail.
Qed.

Lemma cover_loadConfiguration :
  Triple (Covered c0 m0 0 0) (loadConfiguration env) (fun _ => Covered c0 m0 0 0) (Covered c0 m0 0 0).
Proof.
  unfold loadConfiguration.
  destruct (negb (Str.truthy (orDefault (configGet env "SPREADSHEET_ID") "")));
    [apply Triple_throw|].
  apply Triple_bind with (Q := fun _ => Covered c0 m0 0 0).
  - apply Triple_tryCatch with (R := Covered c0 m0 0 0).
    + apply Triple_bind with (Q := fun _ => Covered c0 m0 0 0);
        [apply cover_openConfigSheet | intros [configData|]];
        [apply Triple_ret | apply Triple_throw].
    + intros e. apply Triple_bind with (Q := fun _ => Covered c0 m0 0 0);
        [apply cover_notice | intros ?; apply Triple_ret].
  - intros [configData|]; [|apply Triple_ret].
    destruct (List.length configData <? 2); [apply Triple_ret|].
    cbv zeta.
    destruct ((Configuration.emailColumnIndex _ =? -1)%Z
              || (Configuration.calendarIdColumnIndex _ =? -1)%Z);
      [|apply Triple_ret].
    apply Triple_bind with (Q := fun _ => Covered c0 m0 0 0);
      [apply cover_notice | intros ?; apply Triple_ret].
Qed.

Lemma cover_mainExecution :
  Triple (Covered c0 m0 0 0) (mainExecution env) (fun _ => Covered c0 m0 0 0) (Covered c0 m0 0 0).
Proof.
  unfold mainExecution.
  apply Triple_bind with (Q := fun _ => Covered c0 m0 0 0);
    [apply cover_loadConfiguration | intros [config|]].
  - apply Triple_bind with (Q := fun _ => Covered c0 m0 0 0);
      [apply cover_fetchCalendarDataBatched | intros calendarData].
    cbv zeta. apply Triple_bind with (Q := fun _ => Covered c0 m0 0 0).
    + destruct (0 <? List.length _); [apply cover_batchLoop | apply Triple_ret].
    + intros ?. apply Triple_ret.
  - apply Triple_bind with (Q := fun _ => Covered c0 m0 0 0);
      [apply cover_addError | intros ?; apply Triple_ret].
Qed.

(** The whole run: what the summary estimates against the calls made. *)
Lemma cover_run :
  Triple (fun s => calendarCalls s = c0 /\ mailCalls s = m0)
         (sendDailyEventSummary env) (Estimated c0 m0) (fun _ => True).
Proof.
  unfold sendDailyEventSummary.
  apply Triple_bind with (Q := fun _ => Covered c0 m0 0 0).
  { intros s [H1 H2]. unfold Covered, calendarCalls, mailCalls in *.
    cbn [newExecutionTracker history tracker metrics calendarsProcessed emailsSent
         emailsFailed filter isCalendarCall isMailCall]. split; lia. }
  intros ?. apply Triple_bind with (Q := fun _ => Covered c0 m0 0 0).
  { apply cover_newDate. }
  intros ?. apply Triple_bind with (Q := fun _ => Covered c0 m0 0 0).
  { apply Triple_tryCatch with (R := Covered c0 m0 0 0).
    - apply cover_mainExecution.
    - intros error. apply Triple_bind with (Q := fun _ => Covered c0 m0 0 0).
      + apply cover_addError.
      + intros ?. apply Triple_ret. }
  intros [|]; [|intros s H; exact I].
  intros s H. unfold bind at 1. rewrite getSummary_at.
  set (summary := summaryAt env s).
  assert (G : forall answer,
             Estimated c0 m0 (Some summary)
               (record (MailSendEmail (activeUserEmail env) answer
                          (generateAdminSummary summary)) (record NewDate s))).
  { intros answer. destruct H as [H1 H2].
    unfold Estimated, calendarCalls, mailCalls, summary, summaryAt in *.
    cbn [quotaUsage getQuotaUsageEstimate calendarReads emailSends record history
         tracker filter isCalendarCall isMailCall List.length]. split; lia. }
  unfold bind, tryCatch, mailSendEmail, ret.
  destruct (mailSend env _ _ _ _); apply G.
Qed.

End CoverFacts.

(** X28. The quota estimate of a reported summary never overstates the
    calendar reads and the email sends of the run: the run made at least
    [calendarReads] calls of [CalendarApp] and of calendars (two for each
    calendar processed), and at least [emailSends] calls of
    [GmailApp.sendEmail] and [MailApp.sendEmail] before the one that sends
    the report. Retries, failed lookups, fallbacks and notices come on top
    and are not estimated. *)
Theorem quota_estimate_never_overstates
    (env : Env) (s0 : State) (summary : ExecutionSummary) :
  fst (sendDailyEventSummary env s0) = Returned (Some summary) ->
  calendarCalls s0 + calendarReads (quotaUsage summary)
  <= calendarCalls (snd (sendDailyEventSummary env s0))
  /\ mailCalls s0 + emailSends (quotaUsage summary) + 1
     <= mailCalls (snd (sendDailyEventSummary env s0)).
Proof.
  intros R.
  pose proof (cover_run env (calendarCalls s0) (mailCalls s0) s0
                (conj eq_refl eq_refl)) as H.
  destruct (sendDailyEventSummary env s0) as [[r|e] s'];
    cbn [fst snd] in *; [|discriminate].
  injection R as ->. exact H.
Qed.

(** The demonstration run: GmailApp refuses one recipient, and the calls
    exceed the estimate. *)
Lemma quota_estimate_never_overstates_witness :
  exists summary,
    fst (sendDailyEventSummary demoEnv initialState) = Returned (Some summary)
    /\ calendarReads (quotaUsage summary)
       <= calendarCalls (snd (sendDailyEventSummary demoEnv initialState))
    /\ emailSends (quotaUsage summary)
       < mailCalls (snd (sendDailyEventSummary demoEnv initialState)).
Proof.
  destruct (sendDailyEventSummary demoEnv initialState) as [[[summary|]|e] sF] eqn:R;
    try (exfalso; vm_compute in R; discriminate).
  exists summary. split; [reflexivity|].
  pose proof (quota_estimate_never_overstates demoEnv initialState summary) as C.
  rewrite R in C. destruct (C eq_refl) as [C1 C2].
  cbn [fst snd] in *. unfold calendarCalls, mailCalls in *.
  cbn [initialState history filter List.length] in *. split; lia.
Defined.

(** ** The plain-text message *)

Module TemplateFacts.
Import Template.

Lemma append_assoc3 (a b c : string) : ((a ++ b) ++ c = a ++ b ++ c)%string.
Proof.
  induction a as [|ch a IH]; cbn [String.append]; [reflexivity | now rewrite IH].
Qed.

(** With a zone that is not known the times are written as without one. *)
Lemma formatEventTime_unknown intl zoneName startTime use24Hour :
  (forall t hour12, exists e, timeStringIn intl zoneName t hour12 = Thrown e) ->
  formatEventTime intl startTime (Some zoneName) use24Hour
  = formatEventTime intl startTime None use24Hour.
Proof.
  intros U. unfold formatEventTime. cbv zeta.
  destruct (Str.truthy zoneName); [|reflexivity].
  destruct (U startTime (negb use24Hour)) as [e E]. now rewrite E.
Qed.

Lemma lines_unknown intl preferences zoneName events textBody :
  timezone preferences = Some zoneName ->
  (forall t hour12, exists e, timeStringIn intl zoneName t hour12 = Thrown e) ->
  fold_left (appendEvent intl preferences) events textBody
  = fold_left (appendEvent intl (withoutTimezone preferences)) events textBody.
Proof.
  intros Z U. revert textBody.
  induction events as [|event events IH]; intros textBody; cbn [fold_left];
    [reflexivity|].
  rewrite IH. f_equal. unfold appendEvent, use24HourOf, withoutTimezone.
  cbn [timezone use24Hour]. rewrite Z.
  now rewrite (formatEventTime_unknown intl zoneName _ _ U).
Qed.

End TemplateFacts.

(** X29. When the time zone of a recipient is one [Intl] does not know,
    the message is still written: every time is formatted as for a
    recipient without a time zone, in the zone of the script, and yet the
    text carries the note that the times are shown in the recipient's
    zone. The text is the one without the time zone, with that note put
    before the closing. *)
Theorem unknown_timezone_is_still_announced
    (intl : Template.Intl) (recipientEmail calendarName zoneName : string)
    (events : list CalendarEvent) (preferences : Preferences)
    (range : option DateRange) :
  timezone preferences = Some zoneName ->
  Str.truthy zoneName = true ->
  (forall t hour12, exists e,
      Template.timeStringIn intl zoneName t hour12 = Thrown e) ->
  exists text,
    Template.generateTextBody intl recipientEmail calendarName events
      (Template.withoutTimezone preferences) range
    = (text ++ Template.closing)%string
    /\ Template.generateTextBody intl recipientEmail calendarName events
         preferences range
       = (text ++ Template.timezoneNote zoneName ++ Template.closing)%string.
Proof.
  intros Z T U. unfold Template.generateTextBody. cbv zeta.
  rewrite Z, T. cbn [timezone Template.withoutTimezone].
  rewrite (TemplateFacts.lines_unknown intl preferences zoneName events _ Z U).
  eexists. split; [reflexivity|].
  unfold Template.timezoneNote, Template.closing.
  now rewrite !TemplateFacts.append_assoc3.
Qed.

Lemma unknown_timezone_is_still_announced_witness :
  let preferences := mkPreferences (Some "Mars/Olympus") None None None None in
  let events := [mkEvent "Standup" EmptyString "Room 1" 54000000 55800000] in
  exists text,
    Template.generateTextBody Template.demoIntl "ann@example.com" "Team" events
      (Template.withoutTimezone preferences) None
    = (text ++ Template.closing)%string
    /\ Template.generateTextBody Template.demoIntl "ann@example.com" "Team" events
         preferences None
       = (text ++ Template.timezoneNote "Mars/Olympus" ++ Template.closing)%string.
Proof.
  cbv zeta.
  apply (unknown_timezone_is_still_announced Template.demoIntl
           "ann@example.com" "Team" "Mars/Olympus");
    [reflexivity | reflexivity |].
  intros t hour12. eexists. reflexivity.
Defined.

(** ** The lookup of an unknown calendar *)

Section UnknownFacts.
Variable env : Env.
Variable calendarId : string.
Hypothesis unknown : UnknownCalendar env calendarId.

Lemma lookup_unknown (s : State) :
  lookupCalendar env calendarId s
  = (Thrown (mkError (notFoundMessage calendarId)),
     record (GetCalendarById calendarId) s).
Proof.
  unfold lookupCalendar, bind, getCalendarById. now rewrite unknown.
Qed.

Lemma calls_afterBackoff baseDelay attempt s :
  calendarCalls (afterBackoff env baseDelay attempt s) = calendarCalls s
  /\ sleeps (history (afterBackoff env baseDelay attempt s)) = S (sleeps (history s))
  /\ tracker (afterBackoff env baseDelay attempt s) = tracker s.
Proof. repeat split. Qed.

Lemma calls_lookup s :
  calendarCalls (record (GetCalendarById calendarId) s) = S (calendarCalls s)
  /\ sleeps (history (record (GetCalendarById calendarId) s)) = sleeps (history s)
  /\ tracker (record (GetCalendarById calendarId) s) = tracker s.
Proof. repeat split. Qed.

(** The retried lookup: one call when the message is not one to retry,
    four calls and three backoffs when it is. *)
Lemma retry_unknown (s : State) :
  exists s',
    retryOperation env (lookupCalendar env calendarId)
      defaultMaxRetries defaultBaseDelay s
    = (Thrown (mkError (notFoundMessage calendarId)), s')
    /\ calendarCalls s'
       = calendarCalls s
         + (if Retry.isRetryableError (mkError (notFoundMessage calendarId))
            then 4 else 1)
    /\ sleeps (history s')
       = sleeps (history s)
         + (if Retry.isRetryableError (mkError (notFoundMessage calendarId))
            then 3 else 0)
    /\ tracker s' = tracker s.
Proof.
  unfold retryOperation, Retry.retryOperationWith, defaultMaxRetries.
  rewrite loop_step, lookup_unknown.
  destruct (Retry.isRetryableError (mkError (notFoundMessage calendarId))) eqn:T;
    cbn [negb orb Nat.eqb].
  - rewrite loop_step, lookup_unknown, T. cbn [negb orb Nat.eqb].
    rewrite loop_step, lookup_unknown, T. cbn [negb orb Nat.eqb].
    rewrite loop_step, lookup_unknown, T. cbn [negb orb Nat.eqb].
    eexists. split; [reflexivity|].
    unfold calendarCalls, sleeps, afterBackoff, record.
    cbn [history tracker filter isCalendarCall List.length].
    repeat split; lia.
  - eexists. split; [reflexivity|].
    unfold calendarCalls, sleeps, record.
    cbn [history tracker filter isCalendarCall List.length].
    repeat split; lia.
Qed.

End UnknownFacts.

(** X30. A calendar that [CalendarApp] does not know is looked up once:
    the error of the missing calendar is not among those retried, the
    events are never asked for, and the group is cached as failed with the
    text that names the calendar id. The exception is an id that itself
    contains one of the phrases of the retry list (such as [timeout]): the
    text of the error then matches, and the calendar is looked up four
    times, with three backoffs in between. *)
Theorem unknown_calendar_is_looked_up_once
    (env : Env) (group : CalendarGroup) (s : State) :
  UnknownCalendar env (groupCalendarId group) ->
  let retried :=
    Retry.isRetryableError (mkError (notFoundMessage (groupCalendarId group))) in
  fst (fetchGroup env group s)
  = Returned (mkEntry (Failed (notFoundMessage (groupCalendarId group)))
                      (groupRecipients group) (groupDateRange group))
  /\ calendarCalls (snd (fetchGroup env group s))
     = calendarCalls s + (if retried then 4 else 1)
  /\ sleeps (history (snd (fetchGroup env group s)))
     = sleeps (history s) + (if retried then 3 else 0)
  /\ calendarsProcessed (metrics (tracker (snd (fetchGroup env group s))))
     = calendarsProcessed (metrics (tracker s)).
Proof.
  intros U retried.
  destruct (retry_unknown env (groupCalendarId group) U s) as [s' [E [C [Sl T]]]].
  unfold fetchGroup. cbv zeta. unfold tryCatch.
  rewrite (bind_thrown _ _ _ _ _ E).
  unfold addError, bind, newDate, updateMetrics, ret. cbn [fst snd].
  split; [reflexivity|].
  unfold calendarCalls, sleeps in *.
  cbn [record history tracker metrics calendarsProcessed filter isCalendarCall].
  fold retried in C, Sl. rewrite T. repeat split; assumption.
Qed.

(** In the demonstration environment no calendar is known under
    [missing@example.com], nor under [timeout-room@example.com]: the
    first is looked up once, the second four times. *)
Lemma unknown_calendar_is_looked_up_once_witness :
  let plain := mkGroup "missing@example.com" (mkDateRange 0 86400000 "today") [] in
  let named := mkGroup "timeout-room@example.com" (mkDateRange 0 86400000 "today") [] in
  calendarCalls (snd (fetchGroup demoEnv plain initialState)) = 1
  /\ calendarCalls (snd (fetchGroup demoEnv named initialState)) = 4.
Proof.
  cbv zeta. split.
  - refine (proj1 (proj2 (unknown_calendar_is_looked_up_once demoEnv
                            (mkGroup "missing@example.com"
                                     (mkDateRange 0 86400000 "today") [])
                            initialState _))).
    intros h. reflexivity.
  - refine (proj1 (proj2 (unknown_calendar_is_looked_up_once demoEnv
                            (mkGroup "timeout-room@example.com"
                                     (mkDateRange 0 86400000 "today") [])
                            initialState _))).
    intros h. reflexivity.
Defined.
